(** * AR.Timeline Creator v1: a shallow embedding of AR_Timeline_Creator.py

    The Streamlit script keeps a list of events (Python dicts, possibly
    loaded verbatim from a JSON file) in its session state and offers
    a form (add / update / delete), a bulk JSON import, a filter, a
    three-key sort and a chart projection.

    Modelling choices.
    - Python values are the JSON-shaped values that can reach the store:
      [None], booleans, integers, strings, lists and dicts.  JSON numbers
      with a fraction or an exponent (Python floats) are not part of the
      model, and integers are unbounded.
    - A Python [str] is a Rocq [string]; every [ascii] stands for the code
      point of the same number (0..255).  [isspace], [lower] and the digit
      test follow the Unicode tables on that range.
    - A dict is an association list in insertion order; lookups return the
      first binding, and every dict the model builds has distinct keys.
    - Code that can raise returns an [outcome]: [Ok v], [Raise e], or
      [Unmodelled] where the behaviour depends on parts of the Python
      runtime that are not embedded (the text of [str(d)] for a dict [d],
      the comparison sequence of the list sort on keys that do not all
      compare, floats and code points above 255 in a JSON text).
    - The widgets of the form are inputs: the values they hold when a
      button is pressed are the fields of a record, and the fresh
      [uuid4] text is an argument of the handler that needs it.
    - Every block of the script is embedded on its own: the export text,
      the import, the lookup of the event being edited, the widget
      defaults, each button handler, the option lists, the filter, the
      sort and the chart loop.  The script runs them top to bottom on
      every interaction; the table export ([to_dataframe] and the CSV
      text, which are pandas code) and the card labels are not embedded.
      A statement about a block therefore says what the block does on
      the session it is given, not that a whole run of the script on
      that session reaches it or finishes. *)

From Stdlib Require Import ZArith List String Ascii Bool Lia Permutation Sorted.
From Stdlib Require Import DecimalString DecimalZ OrderedTypeEx.
Import ListNotations.
Open Scope string_scope.
Open Scope Z_scope.

(** ** Outcomes of Python code *)

Inductive exn : Type :=
| AttributeError
| TypeError
| KeyError
| ValueError.

Inductive outcome (A : Type) : Type :=
| Ok (a : A)
| Raise (e : exn)
| Unmodelled.

Arguments Ok {A} a.
Arguments Raise {A} e.
Arguments Unmodelled {A}.

Definition bind {A B : Type} (m : outcome A) (k : A -> outcome B) : outcome B :=
  match m with
  | Ok a => k a
  | Raise e => Raise e
  | Unmodelled => Unmodelled
  end.

Notation "x <- m ;; k" := (bind m (fun x => k))
  (at level 61, m at next level, right associativity).

Fixpoint mapM {A B : Type} (f : A -> outcome B) (l : list A) : outcome (list B) :=
  match l with
  | [] => Ok []
  | x :: r => y <- f x ;; ys <- mapM f r ;; Ok (y :: ys)
  end.

(** [filterM f l] is the list comprehension [[e for e in l if f(e)]]:
    the test runs on the elements in order and the first exception
    aborts the comprehension. *)
Fixpoint filterM {A : Type} (f : A -> outcome bool) (l : list A) : outcome (list A) :=
  match l with
  | [] => Ok []
  | x :: r => b <- f x ;; ys <- filterM f r ;; Ok (if b then x :: ys else ys)
  end.

Definition is_ok {A : Type} (m : outcome A) : bool :=
  match m with Ok _ => true | _ => false end.

(** ** Python values *)

Set Warnings "-register-all".

Inductive pyval : Type :=
| PNone
| PBool (b : bool)
| PInt (z : Z)
| PStr (s : string)
| PList (l : list pyval)
| PDict (d : list (string * pyval)).

Definition is_list (v : pyval) : bool :=
  match v with PList _ => true | _ => false end.

(** [bool(v)], as used by [if v], [not v] and [a or b]. *)
Definition truthy (v : pyval) : bool :=
  match v with
  | PNone => false
  | PBool b => b
  | PInt z => negb (z =? 0)
  | PStr s => negb (String.eqb s "")
  | PList l => match l with [] => false | _ => true end
  | PDict d => match d with [] => false | _ => true end
  end.

Fixpoint lookup (k : string) (d : list (string * pyval)) : option pyval :=
  match d with
  | [] => None
  | (k', v) :: r => if String.eqb k k' then Some v else lookup k r
  end.

(** [bool] is a subclass of [int]: [True == 1]. *)
Definition num_of (v : pyval) : option Z :=
  match v with
  | PInt z => Some z
  | PBool b => Some (if b then 1 else 0)
  | _ => None
  end.

(** [a == b] on JSON-shaped values. *)
Fixpoint py_eq (a b : pyval) {struct a} : bool :=
  match a, b with
  | PNone, PNone => true
  | PBool x, PBool y => Bool.eqb x y
  | PBool x, PInt z => (if x then 1 else 0) =? z
  | PInt z, PBool y => z =? (if y then 1 else 0)
  | PInt x, PInt y => x =? y
  | PStr s, PStr t => String.eqb s t
  | PList l, PList m =>
      (fix go (l m : list pyval) {struct l} : bool :=
         match l, m with
         | [], [] => true
         | x :: l', y :: m' => py_eq x y && go l' m'
         | _, _ => false
         end) l m
  | PDict d, PDict e =>
      Nat.eqb (List.length d) (List.length e) &&
      (fix go (d : list (string * pyval)) : bool :=
         match d with
         | [] => true
         | (k, v) :: d' =>
             match lookup k e with
             | Some w => py_eq v w
             | None => false
             end && go d'
         end) d
  | _, _ => false
  end.

(** [ev.get(k, default)]: only a dict has the method. *)
Definition py_get (ev : pyval) (k : string) (default : pyval) : outcome pyval :=
  match ev with
  | PDict d => Ok (match lookup k d with Some v => v | None => default end)
  | _ => Raise AttributeError
  end.

(** [ev[k]] with a string key: [KeyError] on a dict without the key,
    [TypeError] on every other JSON-shaped value. *)
Definition py_getitem (ev : pyval) (k : string) : outcome pyval :=
  match ev with
  | PDict d => match lookup k d with Some v => Ok v | None => Raise KeyError end
  | _ => Raise TypeError
  end.

(** ** Strings *)

Definition isspace (c : ascii) : bool :=
  let n := nat_of_ascii c in
  (((9 <=? n) && (n <=? 13)) || ((28 <=? n) && (n <=? 32))
   || (n =? 133) || (n =? 160))%nat.

Fixpoint lstrip (s : string) : string :=
  match s with
  | EmptyString => EmptyString
  | String c r => if isspace c then lstrip r else s
  end.

Fixpoint rstrip (s : string) : string :=
  match s with
  | EmptyString => EmptyString
  | String c r =>
      match rstrip r with
      | EmptyString => if isspace c then EmptyString else String c EmptyString
      | r' => String c r'
      end
  end.

(** [s.strip()] *)
Definition strip (s : string) : string := rstrip (lstrip s).

Definition lower_char (c : ascii) : ascii :=
  let n := nat_of_ascii c in
  if (((65 <=? n) && (n <=? 90)) || ((192 <=? n) && (n <=? 214))
      || ((216 <=? n) && (n <=? 222)))%nat
  then ascii_of_nat (n + 32)
  else c.

(** [s.lower()] *)
Fixpoint lower (s : string) : string :=
  match s with
  | EmptyString => EmptyString
  | String c r => String (lower_char c) (lower r)
  end.

(** [s.split(",")] *)
Fixpoint split_comma (s : string) : list string :=
  match s with
  | EmptyString => [EmptyString]
  | String c r =>
      if Ascii.eqb c ","
      then EmptyString :: split_comma r
      else match split_comma r with
           | h :: t => String c h :: t
           | [] => [String c EmptyString]
           end
  end.

(** [sep.join(l)] on a list of strings. *)
Fixpoint join (sep : string) (l : list string) : string :=
  match l with
  | [] => EmptyString
  | [x] => x
  | x :: r => x ++ sep ++ join sep r
  end.

(** [s.startswith(p)] *)
Fixpoint starts_with (p s : string) : bool :=
  match p with
  | EmptyString => true
  | String a p' =>
      match s with
      | EmptyString => false
      | String b s' => Ascii.eqb a b && starts_with p' s'
      end
  end.

(** [needle in hay] *)
Fixpoint contains (needle hay : string) : bool :=
  starts_with needle hay ||
  match hay with
  | EmptyString => false
  | String _ r => contains needle r
  end.

Fixpoint all_chars (f : ascii -> bool) (s : string) : bool :=
  match s with
  | EmptyString => true
  | String c r => f c && all_chars f r
  end.

(** [v.strip()] and [v.lower()] on an arbitrary value. *)
Definition py_strip (v : pyval) : outcome string :=
  match v with PStr s => Ok (strip s) | _ => Raise AttributeError end.

Definition py_lower (v : pyval) : outcome string :=
  match v with PStr s => Ok (lower s) | _ => Raise AttributeError end.

(** [sep.join(l)] on a list of arbitrary values: [TypeError] unless
    every item is a [str]. *)
Definition py_join (sep : string) (l : list pyval) : outcome string :=
  ss <- mapM (fun v => match v with PStr s => Ok s | _ => Raise TypeError end) l ;;
  Ok (join sep ss).

(** ** Calendar dates and [datetime.strptime] *)

Record date : Type := mkdate { year : Z; month : Z; day : Z }.

Definition is_leap (y : Z) : bool :=
  ((y mod 4 =? 0) && negb (y mod 100 =? 0)) || (y mod 400 =? 0).

Definition days_in_month (y m : Z) : Z :=
  if m =? 2 then (if is_leap y then 29 else 28)
  else if (m =? 4) || (m =? 6) || (m =? 9) || (m =? 11) then 30
  else 31.

(** The range check of the [datetime] constructor. *)
Definition valid_date (y m d : Z) : bool :=
  (1 <=? y) && (y <=? 9999) && (1 <=? m) && (m <=? 12)
  && (1 <=? d) && (d <=? days_in_month y m).

Definition digit_of (c : ascii) : option Z :=
  let n := nat_of_ascii c in
  if ((48 <=? n) && (n <=? 57))%nat then Some (Z.of_nat n - 48) else None.

Definition in_range (lo hi : Z) (c : ascii) : option Z :=
  match digit_of c with
  | Some v => if (lo <=? v) && (v <=? hi) then Some v else None
  | None => None
  end.

(** [%Y] is the group [\d\d\d\d]. *)
Definition re_Y (s : string) : list (Z * string) :=
  match s with
  | String a (String b (String c (String d r))) =>
      match digit_of a, digit_of b, digit_of c, digit_of d with
      | Some x, Some y, Some z, Some w => [(1000 * x + 100 * y + 10 * z + w, r)]
      | _, _, _, _ => []
      end
  | _ => []
  end.

(** One alternative made of two character classes. *)
Definition two (lo1 hi1 lo2 hi2 : Z) (s : string) : list (Z * string) :=
  match s with
  | String a (String b r) =>
      match in_range lo1 hi1 a, in_range lo2 hi2 b with
      | Some x, Some y => [(10 * x + y, r)]
      | _, _ => []
      end
  | _ => []
  end.

Definition one (lo hi : Z) (s : string) : list (Z * string) :=
  match s with
  | String a r =>
      match in_range lo hi a with
      | Some x => [(x, r)]
      | None => []
      end
  | _ => []
  end.

Definition space_one (s : string) : list (Z * string) :=
  match s with
  | String a r => if Ascii.eqb a " " then one 1 9 r else []
  | _ => []
  end.

(** [%m] is [1[0-2]|0[1-9]|[1-9]]; the candidates are listed in the
    order in which the backtracking matcher tries them. *)
Definition re_m (s : string) : list (Z * string) :=
  two 1 1 0 2 s ++ two 0 0 1 9 s ++ one 1 9 s.

(** [%d] is [3[0-1]|[1-2]\d|0[1-9]|[1-9]| [1-9]]. *)
Definition re_d (s : string) : list (Z * string) :=
  two 3 3 0 1 s ++ two 1 2 0 9 s ++ two 0 0 1 9 s ++ one 1 9 s ++ space_one s.

Definition re_dash (s : string) : list string :=
  match s with
  | String a r => if Ascii.eqb a "-" then [r] else []
  | _ => []
  end.

(** The matches of a compiled format, first match first; each comes with
    the unmatched rest of the input. *)
Definition matches_Ymd (s : string) : list (Z * Z * Z * string) :=
  flat_map (fun '(y, r1) =>
    flat_map (fun r2 =>
      flat_map (fun '(m, r3) =>
        flat_map (fun r4 =>
          map (fun '(d, r5) => (y, m, d, r5)) (re_d r4))
        (re_dash r3))
      (re_m r2))
    (re_dash r1))
  (re_Y s).

Definition matches_Ym (s : string) : list (Z * Z * Z * string) :=
  flat_map (fun '(y, r1) =>
    flat_map (fun r2 =>
      map (fun '(m, r3) => (y, m, 1, r3)) (re_m r2))
    (re_dash r1))
  (re_Y s).

Definition matches_Y (s : string) : list (Z * Z * Z * string) :=
  map (fun '(y, r) => (y, 1, 1, r)) (re_Y s).

Inductive fmt : Type := Fmt_Ymd | Fmt_Ym | Fmt_Y.

Definition matches (f : fmt) : string -> list (Z * Z * Z * string) :=
  match f with
  | Fmt_Ymd => matches_Ymd
  | Fmt_Ym => matches_Ym
  | Fmt_Y => matches_Y
  end.

(** [datetime.strptime(s, f).date()]: [re.match] yields the first match;
    text left after it ("unconverted data remains") and a date out of
    range are both [ValueError], here [None]. *)
Definition strptime (s : string) (f : fmt) : option date :=
  match matches f s with
  | (y, m, d, rest) :: _ =>
      if String.eqb rest "" && valid_date y m d then Some (mkdate y m d) else None
  | [] => None
  end.

Definition fmts : list fmt := [Fmt_Ymd; Fmt_Ym; Fmt_Y].

Fixpoint first_parse (s : string) (fs : list fmt) : option date :=
  match fs with
  | [] => None
  | f :: r =>
      match strptime s f with
      | Some d => Some d
      | None => first_parse s r
      end
  end.

(** ** Utilities of the script *)

Definition safe_parse_date (s : pyval) : outcome (option date) :=
  if negb (truthy s) then Ok None
  else
    s' <- py_strip s ;;
    Ok (first_parse s' fmts).

(** [str(v)]: the text of an [int], a [bool] and [None] is modelled, the
    [repr] of containers is not. *)
Definition py_str (v : pyval) : outcome string :=
  match v with
  | PStr s => Ok s
  | PInt z => Ok (NilZero.string_of_int (Z.to_int z))
  | PBool b => Ok (if b then "True" else "False")
  | PNone => Ok "None"
  | PList _ => Unmodelled
  | PDict _ => Unmodelled
  end.

Definition mem (x : string) (seen : list string) : bool :=
  existsb (String.eqb x) seen.

(** The comprehension [[p.strip() for p in text.split(",") if p.strip()]]. *)
Definition parts_of (text : string) : list string :=
  map strip (filter (fun p => negb (String.eqb (strip p) "")) (split_comma text)).

(** The loop of [ensure_list], with its two accumulators [seen] and [out]. *)
Fixpoint dedupe (seen out parts : list string) : list string :=
  match parts with
  | [] => out
  | p :: r =>
      if negb (mem (lower p) seen)
      then dedupe (lower p :: seen) (out ++ [p]) r
      else dedupe seen out r
  end.

Definition ensure_list (s : pyval) : outcome (list pyval) :=
  match s with
  | PNone => Ok []
  | PList l => Ok l
  | _ =>
      text <- py_str s ;;
      Ok (map PStr (dedupe [] [] (parts_of text)))
  end.

(** [new_event_template()]; the fresh [uuid4] text is an input. *)
Definition new_event_template (uuid : string) : list (string * pyval) :=
  [ ("id", PStr uuid);
    ("title", PStr "");
    ("date_text", PStr "");
    ("start_date", PStr "");
    ("end_date", PStr "");
    ("era", PStr "");
    ("story", PStr "");
    ("characters", PList []);
    ("categories", PList []);
    ("notes", PStr "");
    ("sort_index", PInt 0) ].

(** [d[k] = v]: an existing key keeps its place, a new key goes last. *)
Fixpoint dict_set (k : string) (v : pyval) (d : list (string * pyval))
  : list (string * pyval) :=
  match d with
  | [] => [(k, v)]
  | (k', v') :: r =>
      if String.eqb k k' then (k, v) :: r else (k', v') :: dict_set k v r
  end.

(** [d.update(u)] *)
Definition dict_update (d u : list (string * pyval)) : list (string * pyval) :=
  fold_left (fun acc kv => dict_set (fst kv) (snd kv) acc) u d.

(** *** [filtered_events] *)

Definition nonempty (s : string) : bool := negb (String.eqb s "").

(** [[c.lower() for c in ensure_list(ev.get(field, []))]] *)
Definition lowered_items (ev : pyval) (field : string) : outcome (list string) :=
  v <- py_get ev field (PList []) ;;
  l <- ensure_list v ;;
  mapM py_lower l.

(** [", ".join(ensure_list(ev.get(field, [])))] *)
Definition joined_items (ev : pyval) (field : string) : outcome string :=
  v <- py_get ev field (PList []) ;;
  l <- ensure_list v ;;
  py_join ", " l.

(** The text searched by the keyword filter. *)
Definition blob (ev : pyval) : outcome string :=
  title <- py_get ev "title" (PStr "") ;;
  date_text <- py_get ev "date_text" (PStr "") ;;
  story <- py_get ev "story" (PStr "") ;;
  era <- py_get ev "era" (PStr "") ;;
  chars <- joined_items ev "characters" ;;
  cats <- joined_items ev "categories" ;;
  notes <- py_get ev "notes" (PStr "") ;;
  b <- py_join " " [title; date_text; story; era; PStr chars; PStr cats; notes] ;;
  Ok (lower b).

(** The inner function [match(ev)] of [filtered_events]; each test runs
    only when its criterion is a non-empty string. *)
Definition match_event (story era character category keyword : string)
    (ev : pyval) : outcome bool :=
  bad_story <-
    (if nonempty story
     then v <- py_get ev "story" (PStr "") ;; s <- py_strip v ;;
          Ok (negb (String.eqb s story))
     else Ok false) ;;
  if bad_story then Ok false else
  bad_era <-
    (if nonempty era
     then v <- py_get ev "era" (PStr "") ;; s <- py_strip v ;;
          Ok (negb (String.eqb s era))
     else Ok false) ;;
  if bad_era then Ok false else
  bad_character <-
    (if nonempty character
     then l <- lowered_items ev "characters" ;;
          Ok (negb (mem (lower character) l))
     else Ok false) ;;
  if bad_character then Ok false else
  bad_category <-
    (if nonempty category
     then l <- lowered_items ev "categories" ;;
          Ok (negb (mem (lower category) l))
     else Ok false) ;;
  if bad_category then Ok false else
  bad_keyword <-
    (if nonempty keyword
     then b <- blob ev ;; Ok (negb (contains (lower keyword) b))
     else Ok false) ;;
  if bad_keyword then Ok false else
  Ok true.

Definition filtered_events (all_events : list pyval)
    (story era character category keyword : string) : outcome (list pyval) :=
  filterM (match_event story era character category keyword) all_events.

(** *** [sorted_events] *)

Definition date_eqb (a b : date) : bool :=
  (year a =? year b) && (month a =? month b) && (day a =? day b).

Definition date_ltb (a b : date) : bool :=
  (year a <? year b)
  || ((year a =? year b)
      && ((month a <? month b)
          || ((month a =? month b) && (day a <? day b)))).

(** [datetime(9999,12,31).date()] *)
Definition sentinel : date := mkdate 9999 12 31.

(** The tuple built by the inner function [key(e)]. *)
Definition sort_key : Type := (date * pyval * string)%type.

Definition key (e : pyval) : outcome sort_key :=
  sv <- py_get e "start_date" (PStr "") ;;
  d <- safe_parse_date sv ;;
  let primary := match d with Some x => x | None => sentinel end in
  idx <- py_get e "sort_index" (PInt 0) ;;
  tv <- py_get e "title" (PStr "") ;;
  title <- py_lower tv ;;
  Ok (primary, idx, title).

(** [a < b] on the values a sort index can hold: numbers compare by
    value, strings by code points; ordering two lists is not modelled;
    everything else is a [TypeError]. *)
Definition py_lt (a b : pyval) : outcome bool :=
  match num_of a, num_of b with
  | Some x, Some y => Ok (x <? y)
  | _, _ =>
      match a, b with
      | PStr s, PStr t => Ok (String.ltb s t)
      | PList _, PList _ => Unmodelled
      | _, _ => Raise TypeError
      end
  end.

(** [k1 < k2] on tuples: the first position where the two differ (by
    [==]) decides. *)
Definition key_lt (k1 k2 : sort_key) : outcome bool :=
  let '(d1, i1, t1) := k1 in
  let '(d2, i2, t2) := k2 in
  if negb (date_eqb d1 d2) then Ok (date_ltb d1 d2)
  else if negb (py_eq i1 i2) then py_lt i1 i2
  else Ok (String.ltb t1 t2).

Definition key_ltb (k1 k2 : sort_key) : bool :=
  match key_lt k1 k2 with Ok b => b | _ => false end.

(** A stable sort of decorated items: [x] is placed before the first
    item that is not smaller than it, so items with equal keys keep
    their input order.  Every stable sort returns this list, whatever
    its merge strategy. *)
Fixpoint insert_by {A : Type} (x : sort_key * A) (l : list (sort_key * A))
  : list (sort_key * A) :=
  match l with
  | [] => [x]
  | y :: r => if key_ltb (fst y) (fst x) then y :: insert_by x r else x :: y :: r
  end.

Fixpoint stable_sort {A : Type} (l : list (sort_key * A)) : list (sort_key * A) :=
  match l with
  | [] => []
  | x :: r => insert_by x (stable_sort r)
  end.

(** Every comparison the sort could make returns a boolean. *)
Definition comparable (ks : list sort_key) : bool :=
  forallb (fun a => forallb (fun b => is_ok (key_lt a b)) ks) ks.

(** [sorted(evts, key=key)]: the keys are computed first, in list
    order; when some pair of keys does not compare, whether the sort
    raises depends on which pairs it happens to compare. *)
Definition sorted_events (evts : list pyval) : outcome (list pyval) :=
  ks <- mapM key evts ;;
  if comparable ks
  then Ok (map snd (stable_sort (combine ks evts)))
  else Unmodelled.

(** ** Session state and the handlers of the script *)

(** [st.session_state]: the event list and the "currently editing"
    pointer ([None] when nothing is being edited). *)
Record session : Type := mksession { events : list pyval; edit_id : pyval }.

(** What the script shows after a handler ran. *)
Inductive notice : Type :=
| Success (msg : string)
| Warning (msg : string)
| Error (msg : string).

(** *** Import JSON *)

(** The body of [if uploaded is not None], given what [json.load]
    did: [except Exception] catches every exception it raises. *)
Definition import_data (loaded : outcome pyval) (st : session)
  : outcome (session * notice) :=
  match loaded with
  | Ok (PList l) =>
      Ok (mksession l (edit_id st), Success "Loaded timeline data from JSON.")
  | Ok _ => Ok (st, Error "Invalid JSON format: expected a list of events.")
  | Raise _ => Ok (st, Error "Failed to load JSON")
  | Unmodelled => Unmodelled
  end.

(** *** Add / Edit form *)

(** [next((e for e in l if e["id"] == target), None)] *)
Fixpoint find_by_id (target : pyval) (l : list pyval) : outcome (option pyval) :=
  match l with
  | [] => Ok None
  | e :: r =>
      i <- py_getitem e "id" ;;
      if py_eq i target then Ok (Some e) else find_by_id target r
  end.

Definition editing_event (st : session) : outcome (option pyval) :=
  if truthy (edit_id st) then find_by_id (edit_id st) (events st) else Ok None.

(** The event for which [if editing_event:] holds, if any. *)
Definition when_editing (ed : option pyval) : option pyval :=
  match ed with
  | Some e => if truthy e then Some e else None
  | None => None
  end.

(** The values of the form widgets when a button is pressed. *)
Record form : Type := mkform {
  title : string;
  story : string;
  era : string;
  start_date : string;
  end_date : string;
  sort_index : Z;
  date_text : string;
  characters_text : string;
  categories_text : string;
  notes : string
}.

(** The dict assembled by the Save handler. *)
Definition payload (uuid : string) (ed : option pyval) (f : form)
  : outcome (list (string * pyval)) :=
  let p0 := new_event_template uuid in
  p1 <- match when_editing ed with
        | Some e => i <- py_getitem e "id" ;; Ok (dict_set "id" i p0)
        | None => Ok p0
        end ;;
  chars <- ensure_list (PStr (characters_text f)) ;;
  cats <- ensure_list (PStr (categories_text f)) ;;
  Ok (dict_update p1
        [ ("title", PStr (strip (title f)));
          ("date_text", PStr (strip (date_text f)));
          ("start_date", PStr (strip (start_date f)));
          ("end_date", PStr (strip (end_date f)));
          ("era", PStr (strip (era f)));
          ("story", PStr (strip (story f)));
          ("characters", PList chars);
          ("categories", PList cats);
          ("notes", PStr (strip (notes f)));
          ("sort_index", PInt (sort_index f)) ]).

(** [[new if e["id"] == target else e for e in l]] *)
Definition replace_by_id (target new : pyval) (l : list pyval) : outcome (list pyval) :=
  mapM (fun e => i <- py_getitem e "id" ;; Ok (if py_eq i target then new else e)) l.

(** [[e for e in l if e["id"] != target]] *)
Definition remove_by_id (target : pyval) (l : list pyval) : outcome (list pyval) :=
  filterM (fun e => i <- py_getitem e "id" ;; Ok (negb (py_eq i target))) l.

(** The "Save Event" button: one handler serves add and update; which
    one runs is decided by [editing_event]. *)
Definition save_event (uuid : string) (f : form) (st : session)
  : outcome (session * notice) :=
  ed <- editing_event st ;;
  if negb (nonempty (strip (title f)))
  then Ok (st, Warning "Title is required.")
  else
    p <- payload uuid ed f ;;
    match when_editing ed with
    | Some e =>
        target <- py_getitem e "id" ;;
        evs <- replace_by_id target (PDict p) (events st) ;;
        Ok (mksession evs PNone, Success "Event updated.")
    | None =>
        Ok (mksession (events st ++ [PDict p]) (edit_id st),
            Success "Event added.")
    end.

(** The "Reset Form" button. *)
Definition reset_form (st : session) : session := mksession (events st) PNone.

(** The "Delete This Event" button, shown only while editing. *)
Definition delete_this_event (st : session) : outcome (session * option notice) :=
  ed <- editing_event st ;;
  match when_editing ed with
  | Some e =>
      target <- py_getitem e "id" ;;
      evs <- remove_by_id target (events st) ;;
      Ok (mksession evs PNone, Some (Success "Event deleted."))
  | None => Ok (st, None)
  end.

(** The "Edit" and "Delete" buttons of the card of [ev]. *)
Definition card_edit (ev : pyval) (st : session) : outcome session :=
  i <- py_getitem ev "id" ;;
  Ok (mksession (events st) i).

Definition card_delete (ev : pyval) (st : session) : outcome session :=
  target <- py_getitem ev "id" ;;
  evs <- remove_by_id target (events st) ;;
  Ok (mksession evs (edit_id st)).

(** *** Views *)

(** [current_sorted] *)
Definition current_sorted (st : session)
    (story_filter era_filter character_filter category_filter keyword : string)
  : outcome (list pyval) :=
  current <- filtered_events (events st) story_filter era_filter
               character_filter category_filter keyword ;;
  sorted_events current.

Record chart_row : Type := mkrow {
  Title : pyval;
  Start : date;
  End : option date;
  Story : pyval;
  Era : pyval;
  Category : string
}.

(** [a or b] on parsed dates: a [date] object is always true. *)
Definition date_or (a b : option date) : option date :=
  match a with Some _ => a | None => b end.

(** One turn of the loop that fills [chart_rows]. *)
Definition chart_row_of (e : pyval) : outcome (option chart_row) :=
  sv <- py_get e "start_date" (PStr "") ;;
  sd <- safe_parse_date sv ;;
  ev <- py_get e "end_date" (PStr "") ;;
  ed0 <- safe_parse_date ev ;;
  let ed := date_or ed0 sd in
  match sd with
  | Some start =>
      t <- py_get e "title" (PStr "") ;;
      s <- py_get e "story" (PStr "") ;;
      r <- py_get e "era" (PStr "") ;;
      cats <- joined_items e "categories" ;;
      Ok (Some (mkrow t start ed s r
                  (if nonempty cats then cats else "Uncategorized")))
  | None => Ok None
  end.

Fixpoint chart_rows (evts : list pyval) : outcome (list chart_row) :=
  match evts with
  | [] => Ok []
  | e :: rest =>
      r <- chart_row_of e ;;
      rows <- chart_rows rest ;;
      Ok (match r with Some row => row :: rows | None => rows end)
  end.

(** ** The JSON text of the export and the decoder of the import

    [json.dumps(v, indent=2)] (with the default [ensure_ascii]) and
    [json.load] of the standard library, for the values of the model.
    Not modelled: floats, the interpreter's limits on recursion depth
    and on the number of digits of a decimal conversion, and input
    bytes outside 1..127 (they need a decoding step and may yield
    code points above 255). *)

Module Json.

Definition dquote : ascii := "034"%char.
Definition backslash : ascii := "092"%char.
Definition newline : ascii := "010"%char.

Definition hex_char (n : nat) : ascii :=
  match get n "0123456789abcdef" with Some c => c | None => "0"%char end.

(** One character of [py_encode_basestring_ascii]. *)
Definition escape_char (c : ascii) : string :=
  let n := nat_of_ascii c in
  if (n =? 34)%nat then String backslash (String dquote "")
  else if (n =? 92)%nat then String backslash (String backslash "")
  else if (n =? 10)%nat then String backslash "n"
  else if (n =? 13)%nat then String backslash "r"
  else if (n =? 9)%nat then String backslash "t"
  else if (n =? 8)%nat then String backslash "b"
  else if (n =? 12)%nat then String backslash "f"
  else if ((32 <=? n) && (n <=? 126))%nat then String c ""
  else String backslash
         ("u00" ++ String (hex_char (n / 16)) (String (hex_char (n mod 16)) "")).

Fixpoint escape (s : string) : string :=
  match s with
  | EmptyString => EmptyString
  | String c r => escape_char c ++ escape r
  end.

Definition quote (s : string) : string :=
  String dquote (escape s ++ String dquote "").

Fixpoint spaces (n : nat) : string :=
  match n with O => EmptyString | S k => String " " (spaces k) end.

(** ['\n' + _indent * level] for [indent=2] *)
Definition newline_indent (level : nat) : string :=
  String newline (spaces (2 * level)).

(** The text yielded by [_iterencode] at a nesting level. *)
Fixpoint encode (level : nat) (v : pyval) {struct v} : string :=
  match v with
  | PNone => "null"
  | PBool true => "true"
  | PBool false => "false"
  | PInt z => NilZero.string_of_int (Z.to_int z)
  | PStr s => quote s
  | PList [] => "[]"
  | PList l =>
      "[" ++ newline_indent (S level)
      ++ join ("," ++ newline_indent (S level)) (map (encode (S level)) l)
      ++ newline_indent level ++ "]"
  | PDict [] => "{}"
  | PDict d =>
      "{" ++ newline_indent (S level)
      ++ join ("," ++ newline_indent (S level))
           (map (fun kv => quote (fst kv) ++ ": " ++ encode (S level) (snd kv)) d)
      ++ newline_indent level ++ "}"
  end.

(** [json.dumps(v, indent=2).encode("utf-8")]: the text is ASCII, so its
    encoding has one byte per character. *)
Definition dumps (v : pyval) : string := encode 0 v.

(** *** Decoder *)

Definition is_ws (c : ascii) : bool :=
  let n := nat_of_ascii c in
  ((n =? 32) || (n =? 9) || (n =? 10) || (n =? 13))%nat.

Fixpoint skip_ws (s : string) : string :=
  match s with
  | EmptyString => EmptyString
  | String c r => if is_ws c then skip_ws r else s
  end.

Definition is_digit (c : ascii) : bool :=
  let n := nat_of_ascii c in ((48 <=? n) && (n <=? 57))%nat.

Definition hex_val (c : ascii) : option nat :=
  let n := nat_of_ascii c in
  if ((48 <=? n) && (n <=? 57))%nat then Some (n - 48)%nat
  else if ((97 <=? n) && (n <=? 102))%nat then Some (n - 87)%nat
  else if ((65 <=? n) && (n <=? 70))%nat then Some (n - 55)%nat
  else None.

Definition hex4 (a b c d : ascii) : option nat :=
  match hex_val a, hex_val b, hex_val c, hex_val d with
  | Some x, Some y, Some z, Some w => Some (((x * 16 + y) * 16 + z) * 16 + w)%nat
  | _, _, _, _ => None
  end.

(** The table [BACKSLASH] of the one-letter escapes. *)
Definition unescape (e : ascii) : option ascii :=
  let n := nat_of_ascii e in
  if (n =? 34)%nat then Some dquote
  else if (n =? 92)%nat then Some backslash
  else if (n =? 47)%nat then Some "/"%char
  else if (n =? 98)%nat then Some "008"%char
  else if (n =? 102)%nat then Some "012"%char
  else if (n =? 110)%nat then Some "010"%char
  else if (n =? 114)%nat then Some "013"%char
  else if (n =? 116)%nat then Some "009"%char
  else None.

Definition cons_char (c : ascii) (m : outcome (string * string))
  : outcome (string * string) :=
  p <- m ;; Ok (String c (fst p), snd p).

(** [scanstring] in strict mode; the input starts after the opening
    quote, the result is the decoded text and what follows the closing
    quote. *)
Fixpoint scan_string (s : string) : outcome (string * string) :=
  match s with
  | EmptyString => Raise ValueError
  | String c r =>
      if Ascii.eqb c dquote then Ok (EmptyString, r)
      else if Ascii.eqb c backslash then
        match r with
        | EmptyString => Raise ValueError
        | String e r1 =>
            if Ascii.eqb e "u" then
              match r1 with
              | String h1 (String h2 (String h3 (String h4 r2))) =>
                  match hex4 h1 h2 h3 h4 with
                  | Some n =>
                      if (n <? 256)%nat
                      then cons_char (ascii_of_nat n) (scan_string r2)
                      else Unmodelled
                  | None => Raise ValueError
                  end
              | _ => Raise ValueError
              end
            else
              match unescape e with
              | Some ch => cons_char ch (scan_string r1)
              | None => Raise ValueError
              end
        end
      else if (nat_of_ascii c <? 32)%nat then Raise ValueError
      else cons_char c (scan_string r)
  end.

Fixpoint span_digits (s : string) : string * string :=
  match s with
  | EmptyString => (EmptyString, EmptyString)
  | String c r =>
      if is_digit c
      then let p := span_digits r in (String c (fst p), snd p)
      else (EmptyString, s)
  end.

(** The first group of [NUMBER_RE], an optional minus sign followed by
    either a single zero or a non-zero digit and any number of digits:
    the matched text and the rest. *)
Definition match_integer (s : string) : option (string * string) :=
  let p := match s with
           | String c r => if Ascii.eqb c "-" then ("-", r) else (EmptyString, s)
           | EmptyString => (EmptyString, s)
           end in
  match snd p with
  | String c r =>
      if Ascii.eqb c "0" then Some (fst p ++ "0", r)
      else if is_digit c
      then let q := span_digits r in Some (fst p ++ String c (fst q), snd q)
      else None
  | EmptyString => None
  end.

(** The optional groups of [NUMBER_RE] that make a float: a dot with
    at least one digit, and an exponent letter with an optional sign
    and at least one digit. *)
Definition has_frac (s : string) : bool :=
  match s with
  | String c (String d _) => Ascii.eqb c "." && is_digit d
  | _ => false
  end.

Definition has_exp (s : string) : bool :=
  match s with
  | String e (String a r) =>
      (Ascii.eqb e "e" || Ascii.eqb e "E")
      && (is_digit a
          || ((Ascii.eqb a "+" || Ascii.eqb a "-")
              && match r with String d _ => is_digit d | EmptyString => false end))
  | _ => false
  end.

(** [int(text)] on a text matched by the integer group. *)
Definition parse_int (text : string) : Z :=
  match NilZero.int_of_string text with
  | Some d => Z.of_int d
  | None => 0
  end.

Fixpoint drop (n : nat) (s : string) : string :=
  match n, s with
  | S k, String _ r => drop k r
  | _, _ => s
  end.

(** The branches of [_scan_once] after the string, object and array
    cases. *)
Definition scan_atom (s : string) : outcome (pyval * string) :=
  if starts_with "null" s then Ok (PNone, drop 4 s)
  else if starts_with "true" s then Ok (PBool true, drop 4 s)
  else if starts_with "false" s then Ok (PBool false, drop 5 s)
  else match match_integer s with
       | Some (text, rest) =>
           if has_frac rest || has_exp rest then Unmodelled
           else Ok (PInt (parse_int text), rest)
       | None =>
           if starts_with "NaN" s || starts_with "Infinity" s
              || starts_with "-Infinity" s
           then Unmodelled
           else Raise ValueError
       end.

(** [dict(pairs)]: a repeated key keeps its first place and its last
    value. *)
Definition dict_of (pairs : list (string * pyval)) : list (string * pyval) :=
  dict_update [] pairs.

(** [_scan_once], [JSONArray] and [JSONObject].  [fuel] bounds the
    number of nested calls; each call consumes at least one character,
    so the length of the text is enough. *)
Fixpoint scan_once (fuel : nat) (s : string) {struct fuel}
  : outcome (pyval * string) :=
  match fuel with
  | O => Unmodelled
  | S f =>
      match s with
      | EmptyString => Raise ValueError
      | String c r =>
          if Ascii.eqb c dquote then
            p <- scan_string r ;; Ok (PStr (fst p), snd p)
          else if Ascii.eqb c "{" then
            match skip_ws r with
            | EmptyString => Raise ValueError
            | String c1 r1 =>
                if Ascii.eqb c1 "}" then Ok (PDict [], r1)
                else if Ascii.eqb c1 dquote then
                  p <- object_pairs f r1 ;; Ok (PDict (dict_of (fst p)), snd p)
                else Raise ValueError
            end
          else if Ascii.eqb c "[" then
            match skip_ws r with
            | EmptyString => Raise ValueError
            | String c1 r1 =>
                if Ascii.eqb c1 "]" then Ok (PList [], r1)
                else p <- array_items f (String c1 r1) ;; Ok (PList (fst p), snd p)
            end
          else scan_atom s
      end
  end

with array_items (fuel : nat) (s : string) {struct fuel}
  : outcome (list pyval * string) :=
  match fuel with
  | O => Unmodelled
  | S f =>
      p <- scan_once f s ;;
      match skip_ws (snd p) with
      | EmptyString => Raise ValueError
      | String c r =>
          if Ascii.eqb c "]" then Ok ([fst p], r)
          else if Ascii.eqb c "," then
            q <- array_items f (skip_ws r) ;; Ok (fst p :: fst q, snd q)
          else Raise ValueError
      end
  end

with object_pairs (fuel : nat) (s : string) {struct fuel}
  : outcome (list (string * pyval) * string) :=
  match fuel with
  | O => Unmodelled
  | S f =>
      k <- scan_string s ;;
      match skip_ws (snd k) with
      | EmptyString => Raise ValueError
      | String c r =>
          if Ascii.eqb c ":" then
            p <- scan_once f (skip_ws r) ;;
            match skip_ws (snd p) with
            | EmptyString => Raise ValueError
            | String c1 r1 =>
                if Ascii.eqb c1 "}" then Ok ([(fst k, fst p)], r1)
                else if Ascii.eqb c1 "," then
                  match skip_ws r1 with
                  | EmptyString => Raise ValueError
                  | String c2 r2 =>
                      if Ascii.eqb c2 dquote then
                        q <- object_pairs f r2 ;;
                        Ok ((fst k, fst p) :: fst q, snd q)
                      else Raise ValueError
                  end
                else Raise ValueError
            end
          else Raise ValueError
      end
  end.

Definition plain_byte (c : ascii) : bool :=
  let n := nat_of_ascii c in ((1 <=? n) && (n <=? 127))%nat.

(** [JSONDecoder.decode]: one value between optional whitespace, and
    nothing after it ("Extra data"). *)
Definition decode (s : string) : outcome pyval :=
  p <- scan_once (S (String.length s)) (skip_ws s) ;;
  match skip_ws (snd p) with
  | EmptyString => Ok (fst p)
  | String _ _ => Raise ValueError
  end.

(** [json.load(uploaded)] on the bytes of the uploaded file. *)
Definition load (bytes : string) : outcome pyval :=
  if all_chars plain_byte bytes then decode bytes else Unmodelled.

End Json.

(** [json_bytes], the content of the "Download JSON" button. *)
Definition json_bytes (st : session) : string := Json.dumps (PList (events st)).

(** The sidebar block [if uploaded is not None: ...]. *)
Definition import_json (uploaded : string) (st : session)
  : outcome (session * notice) :=
  import_data (Json.load uploaded) st.


(** ** Definitions used to state the properties *)

(** Zero-padded decimal fields, as in ["1842-05-17"]. *)
Definition digit_char (n : Z) : ascii := ascii_of_nat (48 + Z.to_nat n).

Definition pad2 (m : Z) : string :=
  String (digit_char (m / 10)) (String (digit_char (m mod 10)) "").

Definition pad4 (y : Z) : string :=
  String (digit_char (y / 1000))
    (String (digit_char (y / 100 mod 10))
       (String (digit_char (y / 10 mod 10))
          (String (digit_char (y mod 10)) ""))).

(** The list normalizer as the specification words it: keep the first
    occurrence of every entry, comparing without regard to case. *)
Fixpoint dedup_first (l : list string) : list string :=
  match l with
  | [] => []
  | x :: r =>
      x :: filter (fun y => negb (String.eqb (lower y) (lower x))) (dedup_first r)
  end.

(** Split on commas, trim each part, drop the empty parts, deduplicate. *)
Definition normalize_text (s : string) : list string :=
  dedup_first (filter nonempty (map strip (split_comma s))).

(** *** Events as the data model describes them

    An event-shaped record is a dict in which every declared field that
    is present holds a value of its declared type; [view] reads such a
    record, with the zero value of the type for a field that is absent
    (the empty string, the empty list, 0). *)

Record event_view : Type := mkview {
  v_title : string;
  v_date_text : string;
  v_start_date : string;
  v_end_date : string;
  v_era : string;
  v_story : string;
  v_characters : list string;
  v_categories : list string;
  v_notes : string;
  v_sort_index : Z
}.

Definition str_field (d : list (string * pyval)) (k : string) : option string :=
  match lookup k d with
  | None => Some ""
  | Some (PStr s) => Some s
  | Some _ => None
  end.

Fixpoint strs (l : list pyval) : option (list string) :=
  match l with
  | [] => Some []
  | PStr s :: r =>
      match strs r with Some ss => Some (s :: ss) | None => None end
  | _ :: _ => None
  end.

Definition list_field (d : list (string * pyval)) (k : string)
  : option (list string) :=
  match lookup k d with
  | None => Some []
  | Some (PList l) => strs l
  | Some _ => None
  end.

Definition int_field (d : list (string * pyval)) (k : string) : option Z :=
  match lookup k d with
  | None => Some 0
  | Some (PInt z) => Some z
  | Some _ => None
  end.

Definition view (e : pyval) : option event_view :=
  match e with
  | PDict d =>
      match str_field d "title", str_field d "date_text",
            str_field d "start_date", str_field d "end_date",
            str_field d "era", str_field d "story",
            list_field d "characters", list_field d "categories",
            str_field d "notes", int_field d "sort_index" with
      | Some t, Some dt, Some sd, Some ed, Some er, Some st,
        Some ch, Some ca, Some no, Some si =>
          Some (mkview t dt sd ed er st ch ca no si)
      | _, _, _, _, _, _, _, _, _, _ => None
      end
  | _ => None
  end.

Definition event_shaped (e : pyval) : Prop := exists v, view e = Some v.

(** The date a text stands for, if any. *)
Definition parse_text (s : string) : option date :=
  if String.eqb s "" then None else first_parse (strip s) fmts.

(** *** The filter, as the specification words it *)

(** The seven texts the keyword is searched in; the two list fields
    are joined with a comma and a space. *)
Definition searched_texts (v : event_view) : list string :=
  [ v_title v; v_date_text v; v_story v; v_era v;
    join ", " (v_characters v); join ", " (v_categories v); v_notes v ].

(** "The concatenation of" the seven texts, read literally. *)
Definition concatenated (v : event_view) : string :=
  String.concat "" (searched_texts v).

(** The seven texts with one space between neighbours. *)
Definition spaced (v : event_view) : string :=
  String.concat " " (searched_texts v).

(** Membership without regard to case. *)
Definition ci_member (x : string) (l : list string) : bool :=
  existsb (fun c => String.eqb (lower c) (lower x)) l.

(** All supplied criteria hold; an empty criterion is not supplied.
    [searched] is the text the keyword is looked up in. *)
Definition passes (searched : event_view -> string)
    (story era character category keyword : string) (v : event_view) : bool :=
  (negb (nonempty story) || String.eqb (strip (v_story v)) story)
  && (negb (nonempty era) || String.eqb (strip (v_era v)) era)
  && (negb (nonempty character) || ci_member character (v_characters v))
  && (negb (nonempty category) || ci_member category (v_categories v))
  && (negb (nonempty keyword)
      || contains (lower keyword) (lower (searched v))).

Definition event_passes (searched : event_view -> string)
    (story era character category keyword : string) (e : pyval) : bool :=
  match view e with
  | Some v => passes searched story era character category keyword v
  | None => false
  end.

(** *** Example data *)

Definition overmorrow_lira : pyval :=
  PDict [ ("id", PStr "e1"); ("title", PStr "The Crossing");
          ("story", PStr " Overmorrow "); ("characters", PList [PStr "Lira"; PStr "Bob"]) ].

Definition overmorrow_bob : pyval :=
  PDict [ ("id", PStr "e2"); ("title", PStr "The Return");
          ("story", PStr "Overmorrow"); ("characters", PList [PStr "Bob"]) ].

Definition stelo_lira : pyval :=
  PDict [ ("id", PStr "e3"); ("title", PStr "First Light");
          ("story", PStr "Stelo Vienas"); ("characters", PList [PStr "LIRA"]) ].

Definition title_a_label_b : pyval :=
  PDict [ ("title", PStr "a"); ("date_text", PStr "b") ].

(** *** The chart projection, as the specification words it *)

Definition row_of (v : event_view) : option chart_row :=
  match parse_text (v_start_date v) with
  | None => None
  | Some start =>
      let finish :=
        match parse_text (v_end_date v) with
        | Some e => e
        | None => start
        end in
      let label := join ", " (v_categories v) in
      Some (mkrow (PStr (v_title v)) start (Some finish)
              (PStr (v_story v)) (PStr (v_era v))
              (if String.eqb label "" then "Uncategorized" else label))
  end.

Definition project (vs : list event_view) : list chart_row :=
  flat_map (fun v => match row_of v with Some r => [r] | None => [] end) vs.

Definition undated_event : pyval :=
  PDict [ ("title", PStr "Prologue"); ("start_date", PStr "");
          ("end_date", PStr "1900") ].

Definition year_1900_event : pyval :=
  PDict [ ("title", PStr "Arrival"); ("start_date", PStr "1900");
          ("end_date", PStr ""); ("story", PStr "Overmorrow");
          ("categories", PList [PStr "War"; PStr "Travel"]) ].

Definition spring_event : pyval :=
  PDict [ ("title", PStr "Thaw"); ("start_date", PStr "1901-03");
          ("end_date", PStr "1901-04-15"); ("date_text", PStr "Spring 1901") ].

(** *** The sort order, as the specification words it *)

(** The composite key of an event-shaped record: the parsed start date,
    with 9999-12-31 standing for a start date that does not parse, then
    the sort index, then the lower-cased title. *)
Definition skey : Type := (date * Z * string)%type.

Definition key_of (v : event_view) : skey :=
  (match parse_text (v_start_date v) with Some d => d | None => sentinel end,
   v_sort_index v,
   lower (v_title v)).

Definition event_key (e : pyval) : skey :=
  match view e with
  | Some v => key_of v
  | None => (sentinel, 0, "")
  end.

(** The same key as the tuple of Python values the code builds. *)
Definition tuple_of (k : skey) : sort_key :=
  let '(d, i, t) := k in (d, PInt i, t).

Definition date_lt (a b : date) : Prop :=
  year a < year b
  \/ (year a = year b
      /\ (month a < month b \/ (month a = month b /\ day a < day b))).

(** Ascending order on keys, position by position. *)
Definition key_le (a b : skey) : Prop :=
  let '(d1, i1, t1) := a in
  let '(d2, i2, t2) := b in
  date_lt d1 d2
  \/ (d1 = d2 /\ (i1 < i2 \/ (i1 = i2 /\ String.leb t1 t2 = true))).

Definition skey_eqb (a b : skey) : bool :=
  let '(d1, i1, t1) := a in
  let '(d2, i2, t2) := b in
  date_eqb d1 d2 && (i1 =? i2) && String.eqb t1 t2.

Definition skey_ltb (a b : skey) : bool :=
  let '(d1, i1, t1) := a in
  let '(d2, i2, t2) := b in
  if negb (date_eqb d1 d2) then date_ltb d1 d2
  else if negb (i1 =? i2) then i1 <? i2
  else String.ltb t1 t2.

(** An event paired with the tuple the code computes for it. *)
Definition decorated (x : sort_key * pyval) : Prop :=
  fst x = tuple_of (event_key (snd x)).

(** Ascending order of two events. *)
Definition event_le (a b : pyval) : Prop := key_le (event_key a) (event_key b).

(** The events of a list that carry a given key, in list order. *)
Definition with_key (k : skey) (l : list pyval) : list pyval :=
  filter (fun e => skey_eqb (event_key e) k) l.

Definition ev_1850 : pyval :=
  PDict [ ("id", PStr "a"); ("title", PStr "Coronation");
          ("start_date", PStr "1850"); ("sort_index", PInt 2) ].

Definition ev_undated : pyval :=
  PDict [ ("id", PStr "b"); ("title", PStr "An old legend");
          ("start_date", PStr ""); ("sort_index", PInt (-5)) ].

Definition ev_1820_06 : pyval :=
  PDict [ ("id", PStr "c"); ("title", PStr "Zenith");
          ("start_date", PStr "1820-06") ].

Definition ev_last_day : pyval :=
  PDict [ ("title", PStr "Finale"); ("start_date", PStr "9999-12-31");
          ("sort_index", PInt 1) ].

Definition ev_sketch : pyval :=
  PDict [ ("title", PStr "Sketch"); ("start_date", PStr "");
          ("sort_index", PInt 0) ].

(** The declared fields that the query functions read, each with the
    zero value of its type. *)
Definition declared_fields : list (string * pyval) :=
  [ ("title", PStr ""); ("date_text", PStr ""); ("start_date", PStr "");
    ("end_date", PStr ""); ("era", PStr ""); ("story", PStr "");
    ("characters", PList []); ("categories", PList []);
    ("notes", PStr ""); ("sort_index", PInt 0) ].

Definition ev_empty : pyval := PDict [].

Definition ev_title_only : pyval := PDict [ ("title", PStr "Untimed") ].

(** *** Sequences of store operations *)

Inductive action : Type :=
| Save (uuid : string) (f : form)
| ResetForm
| DeleteThisEvent
| CardEdit (ev : pyval)
| CardDelete (ev : pyval)
| ImportJson (uploaded : string).

(** What the handler of one widget does to the session state.  The
    other blocks of the run in which the widget fires (the export at
    lines 124-128, which is built before any handler runs, the widget
    defaults, the option lists and the views) read the session and do
    not write it; they are not part of [step].  [step a st = Ok st']
    says that the handler returned and left the session [st']. *)
Definition step (a : action) (st : session) : outcome session :=
  match a with
  | Save uuid f => r <- save_event uuid f st ;; Ok (fst r)
  | ResetForm => Ok (reset_form st)
  | DeleteThisEvent => r <- delete_this_event st ;; Ok (fst r)
  | CardEdit ev => card_edit ev st
  | CardDelete ev => card_delete ev st
  | ImportJson uploaded => r <- import_json uploaded st ;; Ok (fst r)
  end.

(** The handlers of a sequence of interactions, one after the other. *)
Fixpoint run (actions : list action) (st : session) : outcome session :=
  match actions with
  | [] => Ok st
  | a :: rest => st' <- step a st ;; run rest st'
  end.

(** Two entries of a tag list are equal without regard to case. *)
Definition ci_equal (a b : pyval) : bool :=
  match a, b with
  | PStr s, PStr t => String.eqb (lower s) (lower t)
  | _, _ => py_eq a b
  end.

(** No two entries of the list are equal without regard to case. *)
Definition ci_distinct (l : list pyval) : Prop :=
  ForallOrdPairs (fun a b => ci_equal a b = false) l.

(** The invariant of the data model on one stored event. *)
Definition tags_distinct (e : pyval) : Prop :=
  forall (d : list (string * pyval)) (k : string) (l : list pyval),
    e = PDict d ->
    k = "characters" \/ k = "categories" ->
    lookup k d = Some (PList l) ->
    ci_distinct l.

Definition store_ok (st : session) : Prop := Forall tags_distinct (events st).

(** Every bulk load of the sequence installs a list that satisfies the
    invariant. *)
Definition loads_clean (actions : list action) : Prop :=
  Forall (fun a =>
            match a with
            | ImportJson uploaded =>
                forall l, Json.load uploaded = Ok (PList l) ->
                          Forall tags_distinct l
            | _ => True
            end) actions.

Definition empty_session : session := mksession [] PNone.

Definition form_of_bob : form :=
  mkform "  The Duel " "Overmorrow" "" "1850-03" "" 0 "Spring 1850"
    "Bob, bob, BOB, Alice" "War,  war" "At dawn. ".

Definition blank_form : form :=
  mkform "   " "" "" "" "" 0 "" "" "" "".

(** A session whose edit pointer names an event that is no longer in the
    store. *)
Definition stale_session : session := mksession [ev_1850] (PStr "gone").

Definition form_of_alice : form :=
  mkform "The Truce" "Overmorrow" "Late" "1851" "1852" 3 ""
    "alice, ALICE , Carol" "" "".

(** Add an event, add a second one, open the first for editing, save
    it with other fields, delete the second from its card. *)
Definition demo_script : list action :=
  [ Save "u-1" form_of_bob;
    Save "u-2" form_of_bob;
    CardEdit (PDict [("id", PStr "u-1")]);
    Save "u-3" form_of_alice;
    CardDelete (PDict [("id", PStr "u-2")]) ].

Definition demo_final : session :=
  mksession
    [ PDict [ ("id", PStr "u-1"); ("title", PStr "The Truce");
              ("date_text", PStr ""); ("start_date", PStr "1851");
              ("end_date", PStr "1852"); ("era", PStr "Late");
              ("story", PStr "Overmorrow");
              ("characters", PList [PStr "alice"; PStr "Carol"]);
              ("categories", PList []); ("notes", PStr "");
              ("sort_index", PInt 3) ] ]
    PNone.

(** An event whose character list names Bob twice. *)
Definition ev_two_bobs : pyval :=
  PDict [ ("id", PStr "x"); ("title", PStr "Echo");
          ("characters", PList [PStr "Bob"; PStr "bob"]) ].

Definition upload_two_bobs : string := Json.dumps (PList [ev_two_bobs]).

(** *** Facts about JSON texts *)

(** A text that may follow a number: it does not go on with a digit, a
    fraction or an exponent. *)
Definition delimited (rest : string) : bool :=
  match rest with
  | EmptyString => true
  | String c _ =>
      negb (Json.is_digit c)
      && negb (Ascii.eqb c ".") && negb (Ascii.eqb c "e") && negb (Ascii.eqb c "E")
  end.

(** The first character of the text of a value: not whitespace, not a
    closing bracket. *)
Definition value_start (s : string) : bool :=
  match s with
  | EmptyString => false
  | String c _ =>
      negb (Json.is_ws c) && negb (Ascii.eqb c "]") && negb (Ascii.eqb c "}")
  end.

(** Distinct keys in every dict, as in every Python dict. *)
Inductive wf : pyval -> Prop :=
| wf_none : wf PNone
| wf_bool (b : bool) : wf (PBool b)
| wf_int (z : Z) : wf (PInt z)
| wf_str (s : string) : wf (PStr s)
| wf_list (l : list pyval) : Forall wf l -> wf (PList l)
| wf_dict (d : list (string * pyval)) :
    NoDup (map fst d) -> Forall (fun kv => wf (snd kv)) d -> wf (PDict d).

(** The nested calls the decoder makes on the text of a value. *)
Fixpoint cost (v : pyval) : nat :=
  match v with
  | PList [] => 1
  | PList l => 2 + list_sum (map cost l)
  | PDict [] => 1
  | PDict d => 2 + list_sum (map (fun kv => cost (snd kv)) d)
  | _ => 1
  end.

(** Decoding the text of [v], followed by anything that may follow a
    value, gives [v] back and leaves what follows. *)
Definition round_trips (v : pyval) : Prop :=
  forall (fuel level : nat) (rest : string),
    (cost v <= fuel)%nat ->
    delimited rest = true ->
    Json.scan_once fuel (Json.encode level v ++ rest) = Ok (v, rest).

(** The text of one item of an object. *)
Definition pair_text (level : nat) (kv : string * pyval) : string :=
  Json.quote (fst kv) ++ ": " ++ Json.encode level (snd kv).

(** ** Definitions used to state further properties of the store *)

(** The test of the two delete comprehensions, [e["id"] != target], on
    an event that has an id. *)
Definition other_id (target : pyval) (e : pyval) : bool :=
  match py_getitem e "id" with
  | Ok i => negb (py_eq i target)
  | _ => false
  end.

(** Every event of the list answers [e["id"]]. *)
Definition all_have_id (l : list pyval) : Prop :=
  Forall (fun e => exists i, py_getitem e "id" = Ok i) l.

(** The id of an event when it is a string, as the ids the script
    generates are. *)
Definition id_of (e : pyval) : option string :=
  match py_getitem e "id" with
  | Ok (PStr s) => Some s
  | _ => None
  end.

Fixpoint ids (l : list pyval) : list string :=
  match l with
  | [] => []
  | e :: r => match id_of e with Some s => s :: ids r | None => ids r end
  end.

(** All events carry a string id and no two carry the same. *)
Definition unique_ids (l : list pyval) : Prop :=
  Forall (fun e => id_of e <> None) l /\ NoDup (ids l).

Definition three_event_store : session :=
  mksession [ev_1850; ev_undated; ev_1820_06] PNone.

(** The same store while the card of the undated event is being
    edited. *)
Definition editing_undated : session :=
  mksession [ev_1850; ev_undated; ev_1820_06] (PStr "b").

(** The record a filled form stands for: every text trimmed, the two
    comma-separated texts normalized. *)
Definition entered (f : form) : event_view :=
  mkview (strip (title f)) (strip (date_text f)) (strip (start_date f))
    (strip (end_date f)) (strip (era f)) (strip (story f))
    (normalize_text (characters_text f)) (normalize_text (categories_text f))
    (strip (notes f)) (sort_index f).

(** The ids drawn for the templates of the saves of a sequence. *)
Fixpoint saved_ids (actions : list action) : list string :=
  match actions with
  | [] => []
  | Save uuid _ :: r => uuid :: saved_ids r
  | _ :: r => saved_ids r
  end.

(** A button of the page, pressed on a card whose event answers
    [ev["id"]]; no upload. *)
Definition pressed (a : action) : Prop :=
  match a with
  | CardEdit ev | CardDelete ev => exists i, py_getitem ev "id" = Ok i
  | ImportJson _ => False
  | _ => True
  end.


(** Dates in ascending order, equal dates allowed. *)
Definition date_le (a b : date) : Prop := date_lt a b \/ a = b.

(** A store of four dated and undated events with distinct keys, and
    the same events in another order. *)
Definition shuffled_store : list pyval :=
  [ev_last_day; ev_1850; ev_undated; ev_1820_06].

Definition shuffled_again : list pyval :=
  [ev_undated; ev_1820_06; ev_last_day; ev_1850].


(** ** The option lists of the filter widgets *)

(** [sorted(set(l))] on strings: the distinct items in ascending order
    of code points. *)
Fixpoint insert_str (x : string) (l : list string) : list string :=
  match l with
  | [] => [x]
  | y :: r => if String.ltb y x then y :: insert_str x r else x :: y :: r
  end.

Definition sorted_set (l : list string) : list string :=
  fold_right insert_str [] (nodup string_dec l).

(** The items as strings; a set that holds other values is not
    modelled. *)
Definition str_items (vs : list pyval) : outcome (list string) :=
  mapM (fun v => match v with PStr s => Ok s | _ => Unmodelled end) vs.

(** [sorted(set([e.get(field,"") for e in events if e.get(field,"")]))],
    the lists [all_stories] and [all_eras]. *)
Definition field_options (field : string) (evts : list pyval)
  : outcome (list string) :=
  vs <- mapM (fun e => py_get e field (PStr "")) evts ;;
  ss <- str_items (filter truthy vs) ;;
  Ok (sorted_set ss).

(** [sorted(set([c for e in events for c in ensure_list(e.get(field,[]))]))],
    the lists [all_characters] and [all_categories]. *)
Definition item_options (field : string) (evts : list pyval)
  : outcome (list string) :=
  ls <- mapM (fun e => v <- py_get e field (PList []) ;; ensure_list v) evts ;;
  ss <- str_items (List.concat ls) ;;
  Ok (sorted_set ss).


(** An event as a hand-written file may hold it: the year as a number. *)
Definition numeric_year_fields : list (string * pyval) :=
  [ ("id", PStr "n"); ("title", PStr "Numeric"); ("start_date", PInt 1850) ].

Definition ev_numeric_year : pyval := PDict numeric_year_fields.

(** ** The defaults of the form widgets *)

(** What a text widget holds when its default is a string and the user
    leaves it alone; what Streamlit makes of another default is not
    modelled. *)
Definition text_default (v : pyval) : outcome string :=
  match v with PStr s => Ok s | _ => Unmodelled end.

(** The number widget with [min_value=-100000], [max_value=100000] and
    [step=1]: an [int] default within the bounds is what the widget
    holds; what Streamlit makes of another default is not modelled. *)
Definition number_default (v : pyval) : outcome Z :=
  match v with
  | PInt z => if (-100000 <=? z) && (z <=? 100000) then Ok z else Unmodelled
  | _ => Unmodelled
  end.

Fixpoint chars_of (s : string) : list string :=
  match s with
  | EmptyString => []
  | String c r => String c EmptyString :: chars_of r
  end.

(** [", ".join(v)]: a list gives its items, a string its characters, a
    dict its keys; the other values are not iterable. *)
Definition join_default (v : pyval) : outcome string :=
  match v with
  | PList l => py_join ", " l
  | PStr s => Ok (join ", " (chars_of s))
  | PDict d => Ok (join ", " (map fst d))
  | _ => Raise TypeError
  end.

(** The [value=] arguments of the ten widgets, in the order of the
    script. *)
Definition prefilled (ed : option pyval) : outcome form :=
  match when_editing ed with
  | None => Ok (mkform "" "" "" "" "" 0 "" "" "" "")
  | Some e =>
      t <- (v <- py_get e "title" (PStr "") ;; text_default v) ;;
      s <- (v <- py_get e "story" (PStr "") ;; text_default v) ;;
      r <- (v <- py_get e "era" (PStr "") ;; text_default v) ;;
      sd <- (v <- py_get e "start_date" (PStr "") ;; text_default v) ;;
      ed <- (v <- py_get e "end_date" (PStr "") ;; text_default v) ;;
      si <- (v <- py_get e "sort_index" (PInt 0) ;; number_default v) ;;
      dt <- (v <- py_get e "date_text" (PStr "") ;; text_default v) ;;
      ch <- (v <- py_get e "characters" (PList []) ;; join_default v) ;;
      ca <- (v <- py_get e "categories" (PList []) ;; join_default v) ;;
      no <- (v <- py_get e "notes" (PStr "") ;; text_default v) ;;
      Ok (mkform t s r sd ed si dt ch ca no)
  end.

(** A text without a comma. *)
Definition no_comma (s : string) : bool :=
  all_chars (fun c => negb (Ascii.eqb c ",")) s.

(** An entry of a normalized list: no comma, no space around it, not
    empty. *)
Definition clean (x : string) : Prop :=
  no_comma x = true /\ strip x = x /\ nonempty x = true.

(** The record saved from [form_of_alice] under the id "u-1". *)
Definition alice_fields : list (string * pyval) :=
  [ ("id", PStr "u-1"); ("title", PStr "The Truce");
    ("date_text", PStr ""); ("start_date", PStr "1851");
    ("end_date", PStr "1852"); ("era", PStr "Late");
    ("story", PStr "Overmorrow");
    ("characters", PList [PStr "alice"; PStr "Carol"]);
    ("categories", PList []); ("notes", PStr "");
    ("sort_index", PInt 3) ].

(** The record saved from [form_of_bob] under the id "u-2". *)
Definition bob_fields : list (string * pyval) :=
  [ ("id", PStr "u-2"); ("title", PStr "The Duel");
    ("date_text", PStr "Spring 1850"); ("start_date", PStr "1850-03");
    ("end_date", PStr ""); ("era", PStr ""); ("story", PStr "Overmorrow");
    ("characters", PList [PStr "Bob"; PStr "Alice"]);
    ("categories", PList [PStr "War"]); ("notes", PStr "At dawn.");
    ("sort_index", PInt 0) ].

(** Two events are saved from the form; the second is opened from its
    card and then deleted from its card. *)
Definition delete_while_open : list action :=
  [ Save "u-1" form_of_alice; Save "u-2" form_of_bob;
    CardEdit (PDict bob_fields); CardDelete (PDict bob_fields) ].

(** The session these interactions leave: the first event alone, and
    the edit pointer still on the id of the deleted one. *)
Definition deleted_while_open : session :=
  mksession [PDict alice_fields] (PStr "u-2").

(** The text exported from a store that holds the first event. *)
Definition upload_alice : string := Json.dumps (PList [PDict alice_fields]).

(** An event is saved, a file that holds another event is uploaded and
    replaces the store, and a second event is saved. *)
Definition save_upload_save : list action :=
  [ Save "u-9" form_of_bob; ImportJson upload_alice; Save "u-2" form_of_bob ].

(** The dict "Save Event" builds (lines 191-205) for the id [i] and
    the widget values [f]. *)
Definition written (i : pyval) (f : form) : list (string * pyval) :=
  [ ("id", i);
    ("title", PStr (strip (title f)));
    ("date_text", PStr (strip (date_text f)));
    ("start_date", PStr (strip (start_date f)));
    ("end_date", PStr (strip (end_date f)));
    ("era", PStr (strip (era f)));
    ("story", PStr (strip (story f)));
    ("characters", PList (map PStr (normalize_text (characters_text f))));
    ("categories", PList (map PStr (normalize_text (categories_text f))));
    ("notes", PStr (strip (notes f)));
    ("sort_index", PInt (sort_index f)) ].

(** A record as "Save Event" writes it under a string id, from widget
    values with a sort index the number widget can hold. *)
Definition form_record (e : pyval) : Prop :=
  exists (i : string) (f : form),
    -100000 <= sort_index f <= 100000 /\ e = PDict (written (PStr i) f).

(** A button pressed with a sort index the number widget can hold, or
    on a card whose event has an id; no upload. *)
Definition form_press (a : action) : Prop :=
  match a with
  | Save _ f => -100000 <= sort_index f <= 100000
  | CardEdit ev | CardDelete ev => exists i, py_getitem ev "id" = Ok i
  | ImportJson _ => False
  | _ => True
  end.

(** An event as a hand-written file may hold it: the tags as one
    comma-separated text. *)
Definition text_tag_fields : list (string * pyval) :=
  [ ("id", PStr "t"); ("title", PStr "Harvest");
    ("start_date", PStr "1849-09");
    ("characters", PStr "Bob, alice , BOB");
    ("categories", PStr "War,, Peace") ].

(** * Properties *)

(** ** Outcomes *)

Lemma bind_ok {A B : Type} (m : outcome A) (k : A -> outcome B) (b : B) :
  bind m k = Ok b -> exists a, m = Ok a /\ k a = Ok b.
Proof.
  destruct m as [a | e |]; simpl; intros H; try discriminate.
  exists a; split; [reflexivity | exact H].
Qed.

(** ** The date parser *)

(** Case analysis on an integer of a small range. *)
Lemma Z_range_cases (P : Z -> Prop) (lo : Z) (len : nat) :
  (forall k : nat, (k < len)%nat -> P (lo + Z.of_nat k)) ->
  forall n : Z, lo <= n < lo + Z.of_nat len -> P n.
Proof.
  intros H n Hn. replace n with (lo + Z.of_nat (Z.to_nat (n - lo))) by lia.
  apply H. lia.
Qed.

Lemma digit_of_digit_char (n : Z) :
  0 <= n <= 9 -> digit_of (digit_char n) = Some n.
Proof.
  intros H. pattern n. apply (Z_range_cases _ 0 10); [| lia].
  intros k Hk. do 10 (destruct k as [| k]; [reflexivity |]). lia.
Qed.

Lemma re_Y_pad4 (y : Z) (r : string) :
  0 <= y <= 9999 -> re_Y (pad4 y ++ r) = [(y, r)].
Proof.
  intros H. unfold pad4, re_Y. simpl append. cbv beta iota.
  rewrite !digit_of_digit_char by (Z.div_mod_to_equations; lia).
  do 2 f_equal. Z.div_mod_to_equations; lia.
Qed.

Lemma re_m_pad2 (m : Z) (r : string) :
  1 <= m <= 12 ->
  exists tl,
    re_m (String (digit_char (m / 10)) (String (digit_char (m mod 10)) r))
    = (m, r) :: tl.
Proof.
  intros H. pattern m. apply (Z_range_cases _ 1 12); [| lia].
  intros k Hk.
  do 12 (destruct k as [| k]; [cbv; eexists; reflexivity |]). lia.
Qed.

Lemma re_d_pad2 (d : Z) (r : string) :
  1 <= d <= 31 ->
  exists tl,
    re_d (String (digit_char (d / 10)) (String (digit_char (d mod 10)) r))
    = (d, r) :: tl.
Proof.
  intros H. pattern d. apply (Z_range_cases _ 1 31); [| lia].
  intros k Hk.
  do 31 (destruct k as [| k]; [cbv; eexists; reflexivity |]). lia.
Qed.

(** A two-digit month followed by nothing, or by a digit, leaves no room
    for the dash that the day format wants next. *)
Lemma re_m_no_dash (m : Z) :
  1 <= m <= 12 ->
  flat_map (fun '(_, r3) => re_dash r3)
    (re_m (String (digit_char (m / 10)) (String (digit_char (m mod 10)) "")))
  = [].
Proof.
  intros H. pattern m. apply (Z_range_cases _ 1 12); [| lia].
  intros k Hk. do 12 (destruct k as [| k]; [reflexivity |]). lia.
Qed.

Lemma valid_date_bounds (y m d : Z) :
  valid_date y m d = true ->
  1 <= y <= 9999 /\ 1 <= m <= 12 /\ 1 <= d <= 31.
Proof.
  unfold valid_date, days_in_month. intros H.
  repeat (apply andb_prop in H; destruct H as [H ?]).
  destruct (m =? 2); [destruct (is_leap y) |];
    try destruct ((m =? 4) || (m =? 6) || (m =? 9) || (m =? 11)); lia.
Qed.

Lemma matches_Ymd_first (s r2 r4 r5 : string) (y m d : Z) tl1 tl2 :
  re_Y s = [(y, String "-" r2)] ->
  re_m r2 = (m, String "-" r4) :: tl1 ->
  re_d r4 = (d, r5) :: tl2 ->
  exists tl, matches_Ymd s = (y, m, d, r5) :: tl.
Proof.
  intros HY Hm Hd. unfold matches_Ymd. rewrite HY.
  cbn [flat_map app re_dash Ascii.eqb Bool.eqb]. rewrite Hm.
  cbn [flat_map app re_dash Ascii.eqb Bool.eqb]. rewrite Hd.
  cbn [flat_map map app]. eexists; reflexivity.
Qed.

Lemma strptime_Ymd_iso (y m d : Z) :
  valid_date y m d = true ->
  strptime (pad4 y ++ "-" ++ pad2 m ++ "-" ++ pad2 d) Fmt_Ymd
  = Some (mkdate y m d).
Proof.
  intros V. destruct (valid_date_bounds _ _ _ V) as (Hy & Hm & Hd).
  destruct (re_m_pad2 m ("-" ++ pad2 d) Hm) as [tl1 E1].
  destruct (re_d_pad2 d "" Hd) as [tl2 E2].
  destruct (matches_Ymd_first (pad4 y ++ "-" ++ pad2 m ++ "-" ++ pad2 d)
              _ _ _ y m d _ _ (re_Y_pad4 y _ ltac:(lia)) E1 E2) as [tl E].
  unfold strptime, matches. rewrite E. rewrite V. reflexivity.
Qed.

Lemma valid_first_day (y m : Z) :
  1 <= y <= 9999 -> 1 <= m <= 12 -> valid_date y m 1 = true.
Proof.
  intros Hy Hm. unfold valid_date, days_in_month.
  destruct (m =? 2); [destruct (is_leap y) |];
    try destruct ((m =? 4) || (m =? 6) || (m =? 9) || (m =? 11));
    repeat (apply andb_true_intro; split); lia.
Qed.

Lemma strptime_Ym_iso (y m : Z) :
  1 <= y <= 9999 -> 1 <= m <= 12 ->
  strptime (pad4 y ++ "-" ++ pad2 m) Fmt_Ymd = None
  /\ strptime (pad4 y ++ "-" ++ pad2 m) Fmt_Ym = Some (mkdate y m 1).
Proof.
  intros Hy Hm. unfold strptime, matches, matches_Ymd, matches_Ym.
  rewrite re_Y_pad4 by lia.
  cbn [flat_map app re_dash Ascii.eqb Bool.eqb append]. unfold pad2.
  rewrite !app_nil_r. split.
  - pose proof (re_m_no_dash m Hm) as N.
    remember (re_m _) as cands eqn:Ec. clear Ec.
    induction cands as [| [m0 r3] cands IH]; [reflexivity |].
    cbn [flat_map] in N |- *. apply app_eq_nil in N. destruct N as [N1 N2].
    rewrite N1. cbn [flat_map app]. apply IH, N2.
  - destruct (re_m_pad2 m "" Hm) as [tl E]. rewrite E.
    cbn [map]. rewrite valid_first_day by assumption. reflexivity.
Qed.

Lemma strptime_Y_iso (y : Z) :
  1 <= y <= 9999 ->
  strptime (pad4 y) Fmt_Ymd = None
  /\ strptime (pad4 y) Fmt_Ym = None
  /\ strptime (pad4 y) Fmt_Y = Some (mkdate y 1 1).
Proof.
  intros Hy.
  assert (E : re_Y (pad4 y) = [(y, "")]).
  { pose proof (re_Y_pad4 y "" ltac:(lia)) as E.
    unfold pad4 in *. cbn [append] in E. exact E. }
  unfold strptime, matches, matches_Ymd, matches_Ym, matches_Y. rewrite E.
  cbn [flat_map map app re_dash].
  rewrite (valid_first_day y 1) by lia. repeat split; reflexivity.
Qed.

Lemma strptime_valid (s : string) (f : fmt) (d : date) :
  strptime s f = Some d -> valid_date (year d) (month d) (day d) = true.
Proof.
  unfold strptime. destruct (matches f s) as [| [[[y m] d0] rest] tl];
    [discriminate |].
  destruct (String.eqb rest "" && valid_date y m d0) eqn:E; [| discriminate].
  intros H; injection H as <-. apply andb_prop in E. apply E.
Qed.

Lemma lstrip_all_space (s : string) :
  all_chars isspace s = true -> lstrip s = "".
Proof.
  induction s as [| c r IH]; [reflexivity |].
  simpl. intros H. apply andb_prop in H. destruct H as [Hc Hr].
  rewrite Hc. apply IH, Hr.
Qed.

Lemma safe_parse_date_str (s : string) :
  safe_parse_date (PStr s)
  = Ok (if String.eqb s "" then None else first_parse (strip s) fmts).
Proof.
  unfold safe_parse_date. simpl truthy. rewrite negb_involutive.
  destruct (String.eqb s ""); reflexivity.
Qed.

Lemma nonempty_pad4 (y : Z) (r : string) : String.eqb (pad4 y ++ r) "" = false.
Proof. reflexivity. Qed.

(** The zero-padded texts contain no whitespace, so trimming keeps them. *)
Lemma isspace_digit_char (n : Z) : 0 <= n <= 9 -> isspace (digit_char n) = false.
Proof.
  intros H. pattern n. apply (Z_range_cases _ 0 10); [| lia].
  intros k Hk. do 10 (destruct k as [| k]; [reflexivity |]). lia.
Qed.

Lemma rstrip_snoc (s : string) (c : ascii) :
  isspace c = false -> rstrip (s ++ String c "") = s ++ String c "".
Proof.
  intros Hc. induction s as [| a r IH]; simpl.
  - rewrite Hc. reflexivity.
  - rewrite IH. destruct r; reflexivity.
Qed.

Lemma strip_keeps (a : ascii) (mid : string) (z : ascii) :
  isspace a = false -> isspace z = false ->
  strip (String a (mid ++ String z "")) = String a (mid ++ String z "").
Proof.
  intros Ha Hz. unfold strip. simpl lstrip. rewrite Ha.
  change (String a (mid ++ String z "")) with ((String a mid) ++ String z "").
  apply rstrip_snoc, Hz.
Qed.

Lemma strip_pad4 (y : Z) : 0 <= y <= 9999 -> strip (pad4 y) = pad4 y.
Proof.
  intros H. unfold pad4.
  apply (strip_keeps _
           (String (digit_char (y / 100 mod 10))
              (String (digit_char (y / 10 mod 10)) "")));
    apply isspace_digit_char; Z.div_mod_to_equations; lia.
Qed.

Lemma strip_Ym (y m : Z) :
  0 <= y <= 9999 -> 1 <= m <= 12 ->
  strip (pad4 y ++ "-" ++ pad2 m) = pad4 y ++ "-" ++ pad2 m.
Proof.
  intros Hy Hm. unfold pad4, pad2. cbn [append].
  apply (strip_keeps _
           (String (digit_char (y / 100 mod 10))
              (String (digit_char (y / 10 mod 10))
                 (String (digit_char (y mod 10))
                    (String "-" (String (digit_char (m / 10)) ""))))));
    apply isspace_digit_char; Z.div_mod_to_equations; lia.
Qed.

Lemma strip_Ymd (y m d : Z) :
  0 <= y <= 9999 -> 1 <= m <= 12 -> 1 <= d <= 31 ->
  strip (pad4 y ++ "-" ++ pad2 m ++ "-" ++ pad2 d)
  = pad4 y ++ "-" ++ pad2 m ++ "-" ++ pad2 d.
Proof.
  intros Hy Hm Hd. unfold pad4, pad2. cbn [append].
  apply (strip_keeps _
           (String (digit_char (y / 100 mod 10))
              (String (digit_char (y / 10 mod 10))
                 (String (digit_char (y mod 10))
                    (String "-"
                       (String (digit_char (m / 10))
                          (String (digit_char (m mod 10))
                             (String "-" (String (digit_char (d / 10)) "")))))))));
    apply isspace_digit_char; Z.div_mod_to_equations; lia.
Qed.

(** C6.  [safe_parse_date] on a string never raises.  It returns the
    result of the first of the three formats (year-month-day, year-month,
    year) that accepts the whole trimmed text, and no date when the text
    is empty, is made of whitespace only, or is accepted by none of them.
    A date that is returned is a real calendar date; the zero-padded
    texts of a valid date parse to it, a year-month text to the first day
    of the month and a year text to 1 January.  In particular "1999-13"
    and "2001-02-29" give no date, "2000-02-29" parses, "1842" gives
    1842-01-01, and text left after a date makes the parse fail.  As
    in [strptime], a month or a day may be written with one digit. *)
Theorem safe_parse_date_spec :
  (forall s : string,
      safe_parse_date (PStr s)
      = Ok (if String.eqb s "" then None
            else match strptime (strip s) Fmt_Ymd with
                 | Some d => Some d
                 | None =>
                     match strptime (strip s) Fmt_Ym with
                     | Some d => Some d
                     | None => strptime (strip s) Fmt_Y
                     end
                 end))
  /\ (forall s : string,
         all_chars isspace s = true -> safe_parse_date (PStr s) = Ok None)
  /\ (forall (s : string) (d : date),
         safe_parse_date (PStr s) = Ok (Some d) ->
         valid_date (year d) (month d) (day d) = true)
  /\ (forall y m d : Z,
         valid_date y m d = true ->
         safe_parse_date (PStr (pad4 y ++ "-" ++ pad2 m ++ "-" ++ pad2 d))
         = Ok (Some (mkdate y m d)))
  /\ (forall y m : Z,
         1 <= y <= 9999 -> 1 <= m <= 12 ->
         safe_parse_date (PStr (pad4 y ++ "-" ++ pad2 m))
         = Ok (Some (mkdate y m 1)))
  /\ (forall y : Z,
         1 <= y <= 9999 ->
         safe_parse_date (PStr (pad4 y)) = Ok (Some (mkdate y 1 1)))
  /\ safe_parse_date (PStr "1999-13") = Ok None
  /\ safe_parse_date (PStr "2001-02-29") = Ok None
  /\ safe_parse_date (PStr "2000-02-29") = Ok (Some (mkdate 2000 2 29))
  /\ safe_parse_date (PStr "1842") = Ok (Some (mkdate 1842 1 1))
  /\ safe_parse_date (PStr "") = Ok None
  /\ safe_parse_date (PStr "   ") = Ok None
  /\ safe_parse_date (PStr "1842-05-17 noon") = Ok None
  /\ safe_parse_date (PStr "18420") = Ok None
  /\ safe_parse_date (PStr "Spring 1842") = Ok None
  /\ safe_parse_date (PStr " 1850-6-3 ") = Ok (Some (mkdate 1850 6 3)).
Proof.
  split; [| split; [| split; [| split; [| split; [| split]]]]].
  - intros s. rewrite safe_parse_date_str.
    destruct (String.eqb s ""); [reflexivity |].
    unfold fmts, first_parse.
    destruct (strptime (strip s) Fmt_Ymd); [reflexivity |].
    destruct (strptime (strip s) Fmt_Ym); [reflexivity |].
    destruct (strptime (strip s) Fmt_Y); reflexivity.
  - intros s H. rewrite safe_parse_date_str.
    destruct (String.eqb s ""); [reflexivity |].
    unfold strip. rewrite (lstrip_all_space s H). reflexivity.
  - intros s d. rewrite safe_parse_date_str.
    destruct (String.eqb s ""); [discriminate |].
    intros H. injection H as H. unfold fmts, first_parse in H.
    destruct (strptime (strip s) Fmt_Ymd) eqn:E1;
      [injection H as <-; exact (strptime_valid _ _ _ E1) |].
    destruct (strptime (strip s) Fmt_Ym) eqn:E2;
      [injection H as <-; exact (strptime_valid _ _ _ E2) |].
    destruct (strptime (strip s) Fmt_Y) eqn:E3;
      [injection H as <-; exact (strptime_valid _ _ _ E3) | discriminate].
  - intros y m d V. destruct (valid_date_bounds _ _ _ V) as (Hy & Hm & Hd).
    rewrite safe_parse_date_str, nonempty_pad4.
    rewrite strip_Ymd by lia. unfold fmts, first_parse.
    rewrite (strptime_Ymd_iso _ _ _ V). reflexivity.
  - intros y m Hy Hm. rewrite safe_parse_date_str, nonempty_pad4.
    rewrite strip_Ym by lia. unfold fmts, first_parse.
    destruct (strptime_Ym_iso y m Hy Hm) as [E1 E2]. rewrite E1, E2.
    reflexivity.
  - intros y Hy. rewrite safe_parse_date_str.
    replace (String.eqb (pad4 y) "") with false by reflexivity.
    rewrite strip_pad4 by lia. unfold fmts, first_parse.
    destruct (strptime_Y_iso y Hy) as (E1 & E2 & E3). rewrite E1, E2, E3.
    reflexivity.
  - repeat split; reflexivity.
Qed.

(** ** The list normalizer *)

Section Dedup.

Variable P : string -> bool.
Hypothesis P_lower : forall a b : string, lower a = lower b -> P a = P b.

Lemma filter_swap {A : Type} (f g : A -> bool) (l : list A) :
  filter f (filter g l) = filter g (filter f l).
Proof.
  induction l as [| a l IH]; [reflexivity |].
  simpl. destruct (g a) eqn:Eg, (f a) eqn:Ef; simpl;
    rewrite ?Eg, ?Ef, IH; reflexivity.
Qed.

Lemma filter_absorb (x : string) (l : list string) :
  P x = false ->
  filter P (filter (fun y => negb (String.eqb (lower y) (lower x))) l)
  = filter P l.
Proof.
  intros Hx. induction l as [| a l IH]; [reflexivity |].
  simpl. destruct (String.eqb (lower a) (lower x)) eqn:E; simpl.
  - apply String.eqb_eq in E. rewrite (P_lower _ _ E), Hx. exact IH.
  - destruct (P a); rewrite IH; reflexivity.
Qed.

Lemma dedup_first_filter (l : list string) :
  dedup_first (filter P l) = filter P (dedup_first l).
Proof.
  induction l as [| x r IH]; [reflexivity |].
  simpl. destruct (P x) eqn:E; simpl.
  - rewrite IH. f_equal. apply filter_swap.
  - rewrite IH. symmetry. apply filter_absorb, E.
Qed.

End Dedup.

Lemma filter_and {A : Type} (f g : A -> bool) (l : list A) :
  filter (fun a => f a && g a) l = filter f (filter g l).
Proof.
  induction l as [| a l IH]; [reflexivity |].
  simpl. destruct (g a) eqn:Eg, (f a) eqn:Ef; simpl; rewrite ?Ef, IH;
    reflexivity.
Qed.

(** The loop with its accumulators computes the first occurrences. *)
Lemma dedupe_spec (parts seen out : list string) :
  dedupe seen out parts
  = (out ++ dedup_first (filter (fun p => negb (mem (lower p) seen)) parts))%list.
Proof.
  revert seen out. induction parts as [| p r IH]; intros seen out.
  - simpl. rewrite app_nil_r. reflexivity.
  - simpl. destruct (mem (lower p) seen) eqn:E; simpl.
    + apply IH.
    + rewrite IH. rewrite <- app_assoc. simpl. do 2 f_equal.
      rewrite <- (dedup_first_filter
                    (fun y => negb (String.eqb (lower y) (lower p))))
        by (intros a b E'; rewrite E'; reflexivity).
      f_equal. rewrite <- filter_and.
      apply filter_ext. intros a. unfold mem. simpl.
      rewrite negb_orb. reflexivity.
Qed.

Lemma filter_map_swap {A B : Type} (f : B -> bool) (g : A -> B) (l : list A) :
  filter f (map g l) = map g (filter (fun a => f (g a)) l).
Proof.
  induction l as [| a l IH]; [reflexivity |].
  simpl. destruct (f (g a)); simpl; rewrite IH; reflexivity.
Qed.

Lemma filter_all {A : Type} (f : A -> bool) (l : list A) :
  (forall a, f a = true) -> filter f l = l.
Proof.
  intros H. induction l as [| a l IH]; [reflexivity |].
  simpl. rewrite H, IH. reflexivity.
Qed.

Lemma ensure_list_str (s : string) :
  ensure_list (PStr s) = Ok (map PStr (normalize_text s)).
Proof.
  unfold ensure_list, py_str, bind. rewrite dedupe_spec.
  rewrite filter_all by reflexivity.
  unfold parts_of, normalize_text. rewrite filter_map_swap. reflexivity.
Qed.

Lemma lower_nodup_filter (keep : string -> bool) (l : list string) :
  NoDup (map lower l) -> NoDup (map lower (filter keep l)).
Proof.
  induction l as [| a l IH]; simpl; intros H; [constructor |].
  inversion H as [| ? ? Hin Hnd]; subst.
  destruct (keep a); simpl; [constructor |]; auto.
  intros Hc. apply Hin. apply in_map_iff in Hc. destruct Hc as (b & Hb & Hf).
  apply filter_In in Hf. apply in_map_iff. exists b. tauto.
Qed.

Lemma dedup_first_nodup (l : list string) : NoDup (map lower (dedup_first l)).
Proof.
  induction l as [| x r IH]; simpl; constructor.
  - intros Hc. apply in_map_iff in Hc. destruct Hc as (y & Hy & Hf).
    apply filter_In in Hf. destruct Hf as [_ Hf].
    rewrite Hy, String.eqb_refl in Hf. discriminate.
  - apply lower_nodup_filter, IH.
Qed.

Lemma dedup_first_incl (l : list string) (x : string) :
  In x (dedup_first l) -> In x l.
Proof.
  induction l as [| a r IH]; simpl; [tauto |].
  intros [H | H]; [left; exact H | right].
  apply filter_In in H. apply IH, H.
Qed.

Lemma dedup_first_covers (l : list string) (x : string) :
  In x l -> exists y, In y (dedup_first l) /\ lower y = lower x.
Proof.
  induction l as [| a r IH]; simpl; [tauto |].
  intros [H | H].
  - subst a. exists x. split; [left |]; reflexivity.
  - destruct (IH H) as (y & Hy & E).
    destruct (String.eqb (lower y) (lower a)) eqn:Ea.
    + apply String.eqb_eq in Ea. exists a. split; [left; reflexivity |].
      congruence.
    + exists y. split; [right | exact E].
      apply filter_In. split; [exact Hy |]. rewrite Ea. reflexivity.
Qed.

(** C7.  [ensure_list] maps [None] to the empty list, returns a list
    unchanged, and maps a string to its comma-separated parts, each
    trimmed, the empty ones dropped, keeping the first occurrence (with
    its own casing, in order) of the entries that are equal without
    regard to case.  "Bob, bob, BOB, Alice" gives ["Bob", "Alice"], and
    normalizing a normalized list returns it unchanged. *)
Theorem ensure_list_spec :
  ensure_list PNone = Ok []
  /\ (forall l : list pyval, ensure_list (PList l) = Ok l)
  /\ (forall s : string, ensure_list (PStr s) = Ok (map PStr (normalize_text s)))
  /\ (forall s : string, NoDup (map lower (normalize_text s)))
  /\ (forall s x : string,
         In x (normalize_text s) ->
         x <> "" /\ exists p, In p (split_comma s) /\ x = strip p)
  /\ (forall s p : string,
         In p (split_comma s) -> strip p <> "" ->
         exists y, In y (normalize_text s) /\ lower y = lower (strip p))
  /\ ensure_list (PStr "Bob, bob, BOB, Alice") = Ok [PStr "Bob"; PStr "Alice"]
  /\ (forall s : string,
         ensure_list (PList (map PStr (normalize_text s)))
         = ensure_list (PStr s)).
Proof.
  split; [reflexivity |]. split; [reflexivity |].
  split; [exact ensure_list_str |].
  split; [intros s; apply dedup_first_nodup |].
  split.
  { intros s x H. apply dedup_first_incl in H. apply filter_In in H.
    destruct H as [H N]. apply in_map_iff in H. destruct H as (p & <- & Hp).
    split.
    - intros E. unfold nonempty in N. rewrite E in N. discriminate.
    - exists p; split; [exact Hp | reflexivity]. }
  split.
  { intros s p Hp N. apply dedup_first_covers. apply filter_In. split.
    - apply in_map, Hp.
    - unfold nonempty. destruct (String.eqb (strip p) "") eqn:E;
        [apply String.eqb_eq in E; contradiction | reflexivity]. }
  split; [reflexivity |].
  intros s. rewrite ensure_list_str. reflexivity.
Qed.

(** ** Event-shaped records *)

Lemma get_str_field (d : list (string * pyval)) (k s : string) :
  str_field d k = Some s -> py_get (PDict d) k (PStr "") = Ok (PStr s).
Proof.
  unfold str_field, py_get. destruct (lookup k d) as [[] |]; intros H;
    try discriminate; injection H as <-; reflexivity.
Qed.

Lemma get_int_field (d : list (string * pyval)) (k : string) (z : Z) :
  int_field d k = Some z -> py_get (PDict d) k (PInt 0) = Ok (PInt z).
Proof.
  unfold int_field, py_get. destruct (lookup k d) as [[] |]; intros H;
    try discriminate; injection H as <-; reflexivity.
Qed.

Lemma strs_map (l : list pyval) (ss : list string) :
  strs l = Some ss -> l = map PStr ss.
Proof.
  revert ss. induction l as [| a l IH]; simpl; intros ss H.
  - injection H as <-. reflexivity.
  - destruct a; try discriminate. destruct (strs l) as [ss' |];
      [| discriminate].
    injection H as <-. simpl. f_equal. apply IH. reflexivity.
Qed.

Lemma get_list_field (d : list (string * pyval)) (k : string) (ss : list string) :
  list_field d k = Some ss ->
  py_get (PDict d) k (PList []) = Ok (PList (map PStr ss)).
Proof.
  unfold list_field, py_get. destruct (lookup k d) as [[] |]; intros H;
    try discriminate.
  - rewrite (strs_map _ _ H). reflexivity.
  - injection H as <-. reflexivity.
Qed.

Lemma mapM_lower_strs (ss : list string) :
  mapM py_lower (map PStr ss) = Ok (map lower ss).
Proof.
  induction ss as [| a ss IH]; [reflexivity |].
  simpl. rewrite IH. reflexivity.
Qed.

Lemma py_join_strs (sep : string) (ss : list string) :
  py_join sep (map PStr ss) = Ok (join sep ss).
Proof.
  unfold py_join.
  assert (E : mapM (fun v => match v with PStr s => Ok s | _ => Raise TypeError end)
                (map PStr ss) = Ok ss).
  { induction ss as [| a ss IH]; [reflexivity |].
    simpl. rewrite IH. reflexivity. }
  rewrite E. reflexivity.
Qed.

Lemma lowered_items_field (d : list (string * pyval)) (k : string)
    (ss : list string) :
  list_field d k = Some ss -> lowered_items (PDict d) k = Ok (map lower ss).
Proof.
  intros H. unfold lowered_items. rewrite (get_list_field _ _ _ H).
  simpl. apply mapM_lower_strs.
Qed.

Lemma joined_items_field (d : list (string * pyval)) (k : string)
    (ss : list string) :
  list_field d k = Some ss -> joined_items (PDict d) k = Ok (join ", " ss).
Proof.
  intros H. unfold joined_items. rewrite (get_list_field _ _ _ H).
  simpl. apply py_join_strs.
Qed.

(** Inversion of [view]: the ten typed reads. *)
Lemma view_fields (e : pyval) (v : event_view) :
  view e = Some v ->
  exists d,
    e = PDict d
    /\ str_field d "title" = Some (v_title v)
    /\ str_field d "date_text" = Some (v_date_text v)
    /\ str_field d "start_date" = Some (v_start_date v)
    /\ str_field d "end_date" = Some (v_end_date v)
    /\ str_field d "era" = Some (v_era v)
    /\ str_field d "story" = Some (v_story v)
    /\ list_field d "characters" = Some (v_characters v)
    /\ list_field d "categories" = Some (v_categories v)
    /\ str_field d "notes" = Some (v_notes v)
    /\ int_field d "sort_index" = Some (v_sort_index v).
Proof.
  destruct e as [| | | | | d]; try discriminate. unfold view.
  destruct (str_field d "title") eqn:E1; [| discriminate].
  destruct (str_field d "date_text") eqn:E2; [| discriminate].
  destruct (str_field d "start_date") eqn:E3; [| discriminate].
  destruct (str_field d "end_date") eqn:E4; [| discriminate].
  destruct (str_field d "era") eqn:E5; [| discriminate].
  destruct (str_field d "story") eqn:E6; [| discriminate].
  destruct (list_field d "characters") eqn:E7; [| discriminate].
  destruct (list_field d "categories") eqn:E8; [| discriminate].
  destruct (str_field d "notes") eqn:E9; [| discriminate].
  destruct (int_field d "sort_index") eqn:E10; [| discriminate].
  intros H. injection H as <-. exists d. simpl. repeat split; assumption.
Qed.

Lemma safe_parse_date_text (s : string) :
  safe_parse_date (PStr s) = Ok (parse_text s).
Proof. apply safe_parse_date_str. Qed.

(** ** The filter *)

Lemma join_concat (sep : string) (l : list string) :
  join sep l = String.concat sep l.
Proof.
  induction l as [| a l IH]; [reflexivity |].
  destruct l as [| b l]; [reflexivity |].
  simpl in *. rewrite IH. reflexivity.
Qed.

Lemma mem_lower (x : string) (l : list string) :
  mem (lower x) (map lower l) = ci_member x l.
Proof.
  unfold mem, ci_member. induction l as [| a l IH]; [reflexivity |].
  simpl. rewrite IH, (String.eqb_sym (lower x)). reflexivity.
Qed.

Lemma blob_view (e : pyval) (v : event_view) :
  view e = Some v -> blob e = Ok (lower (spaced v)).
Proof.
  intros H. destruct (view_fields e v H)
    as (d & -> & Ht & Hdt & _ & _ & Her & Hst & Hch & Hca & Hno & _).
  unfold blob.
  rewrite (get_str_field _ _ _ Ht), (get_str_field _ _ _ Hdt),
    (get_str_field _ _ _ Hst), (get_str_field _ _ _ Her),
    (joined_items_field _ _ _ Hch), (joined_items_field _ _ _ Hca),
    (get_str_field _ _ _ Hno).
  cbn [bind].
  change [PStr (v_title v); PStr (v_date_text v); PStr (v_story v);
          PStr (v_era v); PStr (join ", " (v_characters v));
          PStr (join ", " (v_categories v)); PStr (v_notes v)]
    with (map PStr (searched_texts v)).
  rewrite py_join_strs. cbn [bind]. rewrite join_concat. reflexivity.
Qed.

Lemma match_event_view (story era character category keyword : string)
    (e : pyval) (v : event_view) :
  view e = Some v ->
  match_event story era character category keyword e
  = Ok (passes spaced story era character category keyword v).
Proof.
  intros H. pose proof (blob_view e v H) as Hb.
  destruct (view_fields e v H)
    as (d & -> & _ & _ & _ & _ & Her & Hst & Hch & Hca & _ & _).
  unfold match_event, passes.
  rewrite (get_str_field _ _ _ Hst), (get_str_field _ _ _ Her),
    (lowered_items_field _ _ _ Hch), (lowered_items_field _ _ _ Hca), Hb.
  cbn [bind py_strip]. rewrite !mem_lower.
  destruct (nonempty story); cbn [bind negb orb andb];
    [destruct (String.eqb (strip (v_story v)) story);
     cbn [bind negb orb andb]; [| reflexivity] |];
    (destruct (nonempty era); cbn [bind negb orb andb];
     [destruct (String.eqb (strip (v_era v)) era);
      cbn [bind negb orb andb]; [| reflexivity] |]);
    (destruct (nonempty character); cbn [bind negb orb andb];
     [destruct (ci_member character (v_characters v));
      cbn [bind negb orb andb]; [| reflexivity] |]);
    (destruct (nonempty category); cbn [bind negb orb andb];
     [destruct (ci_member category (v_categories v));
      cbn [bind negb orb andb]; [| reflexivity] |]);
    (destruct (nonempty keyword); cbn [bind negb orb andb];
     [destruct (contains (lower keyword) (lower (spaced v))) |]);
    reflexivity.
Qed.

Lemma filterM_pure {A : Type} (f : A -> outcome bool) (g : A -> bool)
    (l : list A) :
  Forall (fun a => f a = Ok (g a)) l -> filterM f l = Ok (filter g l).
Proof.
  induction 1 as [| a l Ha _ IH]; [reflexivity |].
  simpl. rewrite Ha, IH. simpl. destruct (g a); reflexivity.
Qed.

Lemma match_event_no_criteria (e : pyval) :
  match_event "" "" "" "" "" e = Ok true.
Proof. reflexivity. Qed.

Lemma filtered_events_shaped (evts : list pyval)
    (story era character category keyword : string) :
  Forall event_shaped evts ->
  filtered_events evts story era character category keyword
  = Ok (filter (event_passes spaced story era character category keyword) evts).
Proof.
  intros H. apply filterM_pure.
  eapply Forall_impl; [| exact H]. intros e [v Hv].
  unfold event_passes. rewrite Hv. apply match_event_view, Hv.
Qed.

(** C4, as the code has it.  On event-shaped records [filtered_events]
    returns, in input order, exactly the events that meet every
    supplied criterion: the trimmed story and the trimmed era of the
    event equal the criterion as given, the character and the category
    are members of the event's lists without regard to case, and the
    lower-cased keyword occurs in the lower-cased text made of title,
    date_text, story, era, joined characters, joined categories and
    notes with one space between neighbours.  With every criterion
    empty the input list is returned unchanged, whatever it holds. *)
Theorem filtered_events_spec :
  forall (evts : list pyval) (story era character category keyword : string),
    (Forall event_shaped evts ->
     filtered_events evts story era character category keyword
     = Ok (filter (event_passes spaced story era character category keyword)
             evts))
    /\ filtered_events evts "" "" "" "" "" = Ok evts.
Proof.
  intros evts story era character category keyword. split.
  - apply filtered_events_shaped.
  - unfold filtered_events.
    rewrite (filterM_pure _ (fun _ => true)).
    + rewrite filter_all by reflexivity. reflexivity.
    + apply Forall_forall. intros e _. apply match_event_no_criteria.
Qed.

Lemma filtered_events_spec_witness :
  Forall event_shaped [overmorrow_lira; overmorrow_bob; stelo_lira]
  /\ filtered_events [overmorrow_lira; overmorrow_bob; stelo_lira]
       "Overmorrow" "" "Lira" "" ""
     = Ok [overmorrow_lira]
  /\ filtered_events [overmorrow_lira; overmorrow_bob; stelo_lira]
       "" "" "lira" "" "first"
     = Ok [stelo_lira].
Proof.
  assert (S : Forall event_shaped [overmorrow_lira; overmorrow_bob; stelo_lira]).
  { repeat constructor; eexists; reflexivity. }
  split; [exact S |]. split.
  - exact (proj1 (filtered_events_spec _ "Overmorrow" "" "Lira" "" "") S).
  - exact (proj1 (filtered_events_spec _ "" "" "lira" "" "first") S).
Defined.

(** C4 as stated fails on the keyword: in the plain concatenation of the
    fields of this event the keyword "ab" occurs and "a b" does not; the
    code finds "a b" and not "ab". *)
Lemma filtered_events_not_concatenation :
  event_passes concatenated "" "" "" "" "ab" title_a_label_b = true
  /\ filtered_events [title_a_label_b] "" "" "" "" "ab" = Ok []
  /\ event_passes concatenated "" "" "" "" "a b" title_a_label_b = false
  /\ filtered_events [title_a_label_b] "" "" "" "" "a b" = Ok [title_a_label_b].
Proof. repeat split; reflexivity. Qed.

(** ** The chart projection *)

Lemma chart_row_of_view (e : pyval) (v : event_view) :
  view e = Some v -> chart_row_of e = Ok (row_of v).
Proof.
  intros H. destruct (view_fields e v H)
    as (d & -> & Ht & _ & Hsd & Hed & Her & Hst & _ & Hca & _ & _).
  unfold chart_row_of, row_of.
  rewrite (get_str_field _ _ _ Hsd), (get_str_field _ _ _ Hed).
  cbn [bind]. rewrite !safe_parse_date_text. cbn [bind].
  destruct (parse_text (v_start_date v)) as [start |]; [| reflexivity].
  rewrite (get_str_field _ _ _ Ht), (get_str_field _ _ _ Hst),
    (get_str_field _ _ _ Her), (joined_items_field _ _ _ Hca).
  cbn [bind]. unfold nonempty, date_or.
  destruct (parse_text (v_end_date v));
    destruct (String.eqb (join ", " (v_categories v)) ""); reflexivity.
Qed.

(** C5.  On event-shaped records the chart projection emits, in order,
    one row for each event whose start_date parses and none for the
    others.  The row starts at the parsed start_date, ends at the parsed
    end_date when that parses and at the start otherwise, and is labelled
    with the categories joined by a comma and a space, or "Uncategorized"
    when that text is empty.  The rows are a function of the event list
    alone: the projection takes no session state and returns none. *)
Theorem chart_rows_spec :
  forall (evts : list pyval) (vs : list event_view),
    Forall2 (fun e v => view e = Some v) evts vs ->
    chart_rows evts = Ok (project vs).
Proof.
  induction 1 as [| e v evts vs He _ IH]; [reflexivity |].
  simpl. rewrite (chart_row_of_view e v He), IH. simpl.
  destruct (row_of v); reflexivity.
Qed.

Lemma chart_rows_spec_witness :
  chart_rows [undated_event; year_1900_event; spring_event]
  = Ok [ mkrow (PStr "Arrival") (mkdate 1900 1 1) (Some (mkdate 1900 1 1))
           (PStr "Overmorrow") (PStr "") "War, Travel";
         mkrow (PStr "Thaw") (mkdate 1901 3 1) (Some (mkdate 1901 4 15))
           (PStr "") (PStr "") "Uncategorized" ].
Proof.
  refine (chart_rows_spec [undated_event; year_1900_event; spring_event]
            [mkview "Prologue" "" "" "1900" "" "" [] [] "" 0;
             mkview "Arrival" "" "1900" "" "" "Overmorrow" [] ["War"; "Travel"] "" 0;
             mkview "Thaw" "Spring 1901" "1901-03" "1901-04-15" "" "" [] [] "" 0]
            _).
  repeat constructor.
Defined.

(** ** The sort *)

Lemma date_eqb_eq (a b : date) : date_eqb a b = true <-> a = b.
Proof.
  destruct a as [y1 m1 d1], b as [y2 m2 d2]. unfold date_eqb. simpl. split.
  - intros H. apply andb_prop in H. destruct H as [H Hd].
    apply andb_prop in H. destruct H as [Hy Hm].
    apply Z.eqb_eq in Hy, Hm, Hd. subst. reflexivity.
  - intros H. injection H as -> -> ->. rewrite !Z.eqb_refl. reflexivity.
Qed.

Lemma date_ltb_lt (a b : date) : date_ltb a b = true <-> date_lt a b.
Proof.
  destruct a as [y1 m1 d1], b as [y2 m2 d2]. unfold date_ltb, date_lt. simpl.
  rewrite orb_true_iff, andb_true_iff, orb_true_iff, andb_true_iff.
  rewrite !Z.ltb_lt, !Z.eqb_eq. tauto.
Qed.

Lemma date_trichotomy (a b : date) : date_lt a b \/ a = b \/ date_lt b a.
Proof.
  destruct a as [y1 m1 d1], b as [y2 m2 d2]. unfold date_lt. simpl.
  destruct (Z.lt_total y1 y2) as [H | [H | H]];
    [left; lia | | right; right; lia].
  destruct (Z.lt_total m1 m2) as [H1 | [H1 | H1]];
    [left; lia | | right; right; lia].
  destruct (Z.lt_total d1 d2) as [H2 | [H2 | H2]];
    [left; lia | | right; right; lia].
  subst. right. left. reflexivity.
Qed.

Lemma date_lt_irrefl (a : date) : ~ date_lt a a.
Proof. unfold date_lt. lia. Qed.

Lemma date_lt_trans (a b c : date) : date_lt a b -> date_lt b c -> date_lt a c.
Proof. unfold date_lt. lia. Qed.

Lemma date_lt_asym (a b : date) : date_lt a b -> ~ date_lt b a.
Proof. unfold date_lt. lia. Qed.

Lemma string_leb_ltb (s t : string) : String.leb s t = negb (String.ltb t s).
Proof.
  unfold String.leb, String.ltb. rewrite (String.compare_antisym s t).
  destruct (String.compare t s); reflexivity.
Qed.

Lemma string_leb_trans (a b c : string) :
  String.leb a b = true -> String.leb b c = true -> String.leb a c = true.
Proof.
  unfold String.leb. intros H1 H2.
  destruct (String.compare a b) eqn:E1; try discriminate.
  - apply String.compare_eq_iff in E1. subst. exact H2.
  - destruct (String.compare b c) eqn:E2; try discriminate.
    + apply String.compare_eq_iff in E2. subst. rewrite E1. reflexivity.
    + apply String_as_OT.cmp_lt in E1, E2.
      pose proof (String_as_OT.lt_trans _ _ _ E1 E2) as E3.
      apply String_as_OT.cmp_lt in E3. unfold String_as_OT.cmp in E3.
      rewrite E3. reflexivity.
Qed.

Lemma string_leb_refl (a : string) : String.leb a a = true.
Proof.
  unfold String.leb.
  replace (String.compare a a) with Eq; [reflexivity |].
  symmetry. apply String_as_OT.cmp_eq. reflexivity.
Qed.

(** The boolean test of the code decides the order of the keys. *)
Lemma skey_ltb_false (a b : skey) : skey_ltb b a = false <-> key_le a b.
Proof.
  destruct a as [[d1 i1] t1], b as [[d2 i2] t2]. unfold skey_ltb, key_le.
  destruct (date_eqb d2 d1) eqn:Ed; simpl.
  - apply date_eqb_eq in Ed. subst d2.
    destruct (i2 =? i1) eqn:Ei; simpl.
    + apply Z.eqb_eq in Ei. subst i2. rewrite string_leb_ltb.
      destruct (String.ltb t2 t1); simpl; split; intros H;
        try reflexivity; try discriminate.
      * destruct H as [H | [_ [H | [_ H]]]];
          [elim (date_lt_irrefl _ H) | lia | discriminate].
      * right. split; [reflexivity |]. right. split; reflexivity.
    + apply Z.eqb_neq in Ei. rewrite Z.ltb_ge. split.
      * intros H. right. split; [reflexivity |]. left. lia.
      * intros [H | [_ [H | [H _]]]];
          [elim (date_lt_irrefl _ H) | lia | congruence].
  - assert (Hn : d2 <> d1).
    { intros E. apply date_eqb_eq in E. congruence. }
    split.
    + intros H. left.
      destruct (date_trichotomy d1 d2) as [L | [E | L]];
        [exact L | congruence |].
      apply date_ltb_lt in L. congruence.
    + intros [H | [E _]]; [| congruence].
      destruct (date_ltb d2 d1) eqn:L; [| reflexivity].
      apply date_ltb_lt in L. elim (date_lt_asym _ _ H L).
Qed.

Lemma key_le_refl (a : skey) : key_le a a.
Proof.
  destruct a as [[d i] t]. right. split; [reflexivity |]. right.
  split; [reflexivity | apply string_leb_refl].
Qed.

Lemma key_le_trans (a b c : skey) : key_le a b -> key_le b c -> key_le a c.
Proof.
  destruct a as [[d1 i1] t1], b as [[d2 i2] t2], c as [[d3 i3] t3].
  unfold key_le.
  intros [H1 | [E1 H1]] [H2 | [E2 H2]]; subst.
  - left. eapply date_lt_trans; eassumption.
  - left. exact H1.
  - left. exact H2.
  - right. split; [reflexivity |].
    destruct H1 as [H1 | [E1 H1]], H2 as [H2 | [E2 H2]]; subst;
      try (left; lia).
    right. split; [reflexivity |]. eapply string_leb_trans; eassumption.
Qed.

Lemma skey_ltb_irrefl (a : skey) : skey_ltb a a = false.
Proof. apply skey_ltb_false, key_le_refl. Qed.

Lemma skey_ltb_asym (a b : skey) : skey_ltb a b = true -> skey_ltb b a = false.
Proof.
  intros H. apply skey_ltb_false.
  destruct a as [[d1 i1] t1], b as [[d2 i2] t2]. unfold skey_ltb, key_le in *.
  destruct (date_eqb d1 d2) eqn:Ed; simpl in H.
  - apply date_eqb_eq in Ed. subst. right. split; [reflexivity |].
    destruct (i1 =? i2) eqn:Ei; simpl in H.
    + apply Z.eqb_eq in Ei. subst. right. split; [reflexivity |].
      rewrite string_leb_ltb.
      unfold String.ltb in *. rewrite (String.compare_antisym t2 t1).
      destruct (String.compare t1 t2); simpl; try discriminate. reflexivity.
    + left. apply Z.ltb_lt. exact H.
  - left. apply date_ltb_lt. exact H.
Qed.

Lemma skey_eqb_eq (a b : skey) : skey_eqb a b = true <-> a = b.
Proof.
  destruct a as [[d1 i1] t1], b as [[d2 i2] t2]. unfold skey_eqb.
  rewrite !andb_true_iff, date_eqb_eq, Z.eqb_eq, String.eqb_eq. split.
  - intros [[-> ->] ->]. reflexivity.
  - intros H. injection H as -> -> ->. auto.
Qed.

Lemma key_lt_tuple (a b : skey) :
  key_lt (tuple_of a) (tuple_of b) = Ok (skey_ltb a b).
Proof.
  destruct a as [[d1 i1] t1], b as [[d2 i2] t2]. unfold key_lt, skey_ltb.
  simpl. destruct (date_eqb d1 d2); simpl; [| reflexivity].
  destruct (i1 =? i2); reflexivity.
Qed.

Lemma key_ltb_tuple (a b : skey) :
  key_ltb (tuple_of a) (tuple_of b) = skey_ltb a b.
Proof. unfold key_ltb. rewrite key_lt_tuple. reflexivity. Qed.

Lemma key_view (e : pyval) (v : event_view) :
  view e = Some v -> key e = Ok (tuple_of (key_of v)).
Proof.
  intros H. destruct (view_fields e v H)
    as (d & -> & Ht & _ & Hsd & _ & _ & _ & _ & _ & _ & Hsi).
  unfold key, key_of.
  rewrite (get_str_field _ _ _ Hsd), (get_int_field _ _ _ Hsi),
    (get_str_field _ _ _ Ht).
  cbn [bind]. rewrite safe_parse_date_text. reflexivity.
Qed.

Lemma mapM_key_views (evts : list pyval) (vs : list event_view) :
  Forall2 (fun e v => view e = Some v) evts vs ->
  mapM key evts = Ok (map (fun v => tuple_of (key_of v)) vs).
Proof.
  induction 1 as [| e v evts vs He _ IH]; [reflexivity |].
  simpl. rewrite (key_view e v He), IH. reflexivity.
Qed.

Lemma comparable_tuples (ks : list skey) : comparable (map tuple_of ks) = true.
Proof.
  unfold comparable. apply forallb_forall. intros a Ha.
  apply forallb_forall. intros b Hb.
  apply in_map_iff in Ha, Hb. destruct Ha as (a' & <- & _), Hb as (b' & <- & _).
  rewrite key_lt_tuple. reflexivity.
Qed.

Lemma insert_by_perm {A : Type} (x : sort_key * A) (l : list (sort_key * A)) :
  Permutation (x :: l) (insert_by x l).
Proof.
  induction l as [| y r IH]; simpl; [apply Permutation_refl |].
  destruct (key_ltb (fst y) (fst x)); [| apply Permutation_refl].
  eapply perm_trans; [apply perm_swap |]. apply perm_skip, IH.
Qed.

Lemma stable_sort_perm {A : Type} (l : list (sort_key * A)) :
  Permutation l (stable_sort l).
Proof.
  induction l as [| x r IH]; simpl; [constructor |].
  eapply perm_trans; [apply perm_skip, IH | apply insert_by_perm].
Qed.

Lemma decorated_ltb (x y : sort_key * pyval) :
  decorated x -> decorated y ->
  key_ltb (fst x) (fst y) = skey_ltb (event_key (snd x)) (event_key (snd y)).
Proof. unfold decorated. intros -> ->. apply key_ltb_tuple. Qed.

Lemma insert_by_sorted (x : sort_key * pyval) (l : list (sort_key * pyval)) :
  decorated x -> Forall decorated l ->
  StronglySorted (fun a b => event_le (snd a) (snd b)) l ->
  StronglySorted (fun a b => event_le (snd a) (snd b)) (insert_by x l).
Proof.
  intros Dx Dl S. induction S as [| y r S IH Hy]; simpl.
  - repeat constructor.
  - inversion Dl as [| ? ? Dy Dr]; subst.
    rewrite (decorated_ltb y x Dy Dx).
    destruct (skey_ltb (event_key (snd y)) (event_key (snd x))) eqn:E.
    + constructor; [apply IH, Dr |].
      eapply Permutation_Forall; [apply insert_by_perm |].
      constructor; [| exact Hy].
      apply skey_ltb_false, skey_ltb_asym, E.
    + apply skey_ltb_false in E.
      constructor; [constructor; assumption |].
      constructor; [exact E |].
      eapply Forall_impl; [| exact Hy]. intros z Hz.
      unfold event_le in *. eapply key_le_trans; eassumption.
Qed.

Lemma stable_sort_decorated (l : list (sort_key * pyval)) :
  Forall decorated l -> Forall decorated (stable_sort l).
Proof.
  intros D. eapply Permutation_Forall; [apply stable_sort_perm | exact D].
Qed.

Lemma stable_sort_sorted (l : list (sort_key * pyval)) :
  Forall decorated l ->
  StronglySorted (fun a b => event_le (snd a) (snd b)) (stable_sort l).
Proof.
  induction 1 as [| x r Dx Dr IH]; simpl; [constructor |].
  apply insert_by_sorted; [exact Dx | apply stable_sort_decorated, Dr | exact IH].
Qed.

(** Items that carry the same key are never swapped. *)
Lemma insert_by_stable (k : skey) (x : sort_key * pyval)
    (l : list (sort_key * pyval)) :
  decorated x -> Forall decorated l ->
  filter (fun a => skey_eqb (event_key (snd a)) k) (insert_by x l)
  = filter (fun a => skey_eqb (event_key (snd a)) k) (x :: l).
Proof.
  intros Dx Dl. induction Dl as [| y r Dy Dr IH]; [reflexivity |].
  cbn [insert_by]. rewrite (decorated_ltb y x Dy Dx).
  destruct (skey_ltb (event_key (snd y)) (event_key (snd x))) eqn:E;
    [| reflexivity].
  cbn [filter] in *. rewrite IH.
  destruct (skey_eqb (event_key (snd y)) k) eqn:Ey;
    destruct (skey_eqb (event_key (snd x)) k) eqn:Ex; try reflexivity.
  apply skey_eqb_eq in Ey, Ex. rewrite Ey, Ex, skey_ltb_irrefl in E.
  discriminate.
Qed.

Lemma stable_sort_stable (k : skey) (l : list (sort_key * pyval)) :
  Forall decorated l ->
  filter (fun a => skey_eqb (event_key (snd a)) k) (stable_sort l)
  = filter (fun a => skey_eqb (event_key (snd a)) k) l.
Proof.
  induction 1 as [| x r Dx Dr IH]; [reflexivity |].
  cbn [stable_sort].
  rewrite insert_by_stable by (try apply stable_sort_decorated; assumption).
  cbn [filter]. rewrite IH. reflexivity.
Qed.

Lemma combine_views (evts : list pyval) (vs : list event_view) :
  Forall2 (fun e v => view e = Some v) evts vs ->
  Forall decorated (combine (map (fun v => tuple_of (key_of v)) vs) evts)
  /\ map snd (combine (map (fun v => tuple_of (key_of v)) vs) evts) = evts.
Proof.
  induction 1 as [| e v evts vs He _ [IH1 IH2]].
  - split; [constructor | reflexivity].
  - cbn [map combine snd]. split; [| f_equal; exact IH2].
    constructor; [| exact IH1].
    unfold decorated, event_key. cbn [fst snd]. rewrite He. reflexivity.
Qed.

Lemma sorted_map_snd (l : list (sort_key * pyval)) :
  StronglySorted (fun a b => event_le (snd a) (snd b)) l ->
  StronglySorted event_le (map snd l).
Proof.
  induction 1 as [| x r S IH Hx]; simpl; constructor; [exact IH |].
  apply Forall_map. exact Hx.
Qed.

Lemma with_key_map_snd (k : skey) (l : list (sort_key * pyval)) :
  with_key k (map snd l)
  = map snd (filter (fun a => skey_eqb (event_key (snd a)) k) l).
Proof.
  unfold with_key. induction l as [| x r IH]; [reflexivity |].
  simpl. destruct (skey_eqb (event_key (snd x)) k); simpl; rewrite IH;
    reflexivity.
Qed.

Lemma shaped_views (evts : list pyval) :
  Forall event_shaped evts ->
  exists vs, Forall2 (fun e v => view e = Some v) evts vs.
Proof.
  induction 1 as [| e evts [v Hv] _ [vs IH]].
  - exists []. constructor.
  - exists (v :: vs). constructor; assumption.
Qed.

(** On event-shaped records the sort returns, and its result is the
    stable ascending arrangement of the input. *)
Lemma sorted_events_shaped (evts : list pyval) :
  Forall event_shaped evts ->
  exists out,
    sorted_events evts = Ok out
    /\ Permutation evts out
    /\ StronglySorted event_le out
    /\ forall k, with_key k out = with_key k evts.
Proof.
  intros H. destruct (shaped_views evts H) as [vs V].
  destruct (combine_views evts vs V) as [D M].
  unfold sorted_events. rewrite (mapM_key_views evts vs V). cbn [bind].
  rewrite <- map_map, comparable_tuples, map_map.
  set (l := combine (map (fun v => tuple_of (key_of v)) vs) evts) in *.
  exists (map snd (stable_sort l)). split; [reflexivity |]. split; [| split].
  - rewrite <- M at 1. apply Permutation_map, stable_sort_perm.
  - apply sorted_map_snd, stable_sort_sorted, D.
  - intros k. rewrite with_key_map_snd, stable_sort_stable by exact D.
    rewrite <- with_key_map_snd, M. reflexivity.
Qed.

Lemma skey_ltb_by_date (a b : skey) :
  date_eqb (fst (fst a)) (fst (fst b)) = false ->
  skey_ltb a b = date_ltb (fst (fst a)) (fst (fst b)).
Proof.
  destruct a as [[d1 i1] t1], b as [[d2 i2] t2]. simpl. intros ->. reflexivity.
Qed.

Lemma permutation_of_three {A : Type} (a b c : A) (l : list A) :
  Permutation [a; b; c] l ->
  l = [a; b; c] \/ l = [a; c; b] \/ l = [b; a; c]
  \/ l = [b; c; a] \/ l = [c; a; b] \/ l = [c; b; a].
Proof.
  intros H.
  destruct (Permutation_vs_cons_inv (Permutation_sym H)) as (l1 & l2 & ->).
  apply Permutation_cons_app_inv in H.
  apply Permutation_length_2_inv in H.
  destruct l1 as [| x [| y [| z l1]]]; simpl in H |- *;
    destruct H as [H | H]; try discriminate;
    try (injection H as; subst; tauto);
    subst; tauto.
Qed.

(** Three events dated 1850, nothing and 1820-06, in any order. *)
Lemma sorted_events_three (a b c : pyval) (va vb vc : event_view)
    (l : list pyval) :
  view a = Some va -> v_start_date va = "1850" ->
  view b = Some vb -> v_start_date vb = "" ->
  view c = Some vc -> v_start_date vc = "1820-06" ->
  Permutation [a; b; c] l ->
  sorted_events l = Ok [c; a; b].
Proof.
  intros Va Da Vb Db Vc Dc P.
  assert (Ka : fst (fst (key_of va)) = mkdate 1850 1 1)
    by (unfold key_of; rewrite Da; reflexivity).
  assert (Kb : fst (fst (key_of vb)) = sentinel)
    by (unfold key_of; rewrite Db; reflexivity).
  assert (Kc : fst (fst (key_of vc)) = mkdate 1820 6 1)
    by (unfold key_of; rewrite Dc; reflexivity).
  assert (Lab : key_ltb (tuple_of (key_of va)) (tuple_of (key_of vb)) = true)
    by (rewrite key_ltb_tuple, skey_ltb_by_date; rewrite Ka, Kb; reflexivity).
  assert (Lba : key_ltb (tuple_of (key_of vb)) (tuple_of (key_of va)) = false)
    by (rewrite key_ltb_tuple, skey_ltb_by_date; rewrite Ka, Kb; reflexivity).
  assert (Lca : key_ltb (tuple_of (key_of vc)) (tuple_of (key_of va)) = true)
    by (rewrite key_ltb_tuple, skey_ltb_by_date; rewrite Ka, Kc; reflexivity).
  assert (Lac : key_ltb (tuple_of (key_of va)) (tuple_of (key_of vc)) = false)
    by (rewrite key_ltb_tuple, skey_ltb_by_date; rewrite Ka, Kc; reflexivity).
  assert (Lcb : key_ltb (tuple_of (key_of vc)) (tuple_of (key_of vb)) = true)
    by (rewrite key_ltb_tuple, skey_ltb_by_date; rewrite Kb, Kc; reflexivity).
  assert (Lbc : key_ltb (tuple_of (key_of vb)) (tuple_of (key_of vc)) = false)
    by (rewrite key_ltb_tuple, skey_ltb_by_date; rewrite Kb, Kc; reflexivity).
  assert (R : forall evts vs,
             Forall2 (fun e v => view e = Some v) evts vs ->
             sorted_events evts
             = Ok (map snd (stable_sort
                              (combine (map (fun v => tuple_of (key_of v)) vs)
                                 evts)))).
  { intros evts vs V. unfold sorted_events.
    rewrite (mapM_key_views evts vs V). cbn [bind].
    rewrite <- map_map, comparable_tuples, map_map. reflexivity. }
  destruct (permutation_of_three _ _ _ _ P)
    as [-> | [-> | [-> | [-> | [-> | ->]]]]];
    [ rewrite (R _ [va; vb; vc]) by (repeat constructor; assumption)
    | rewrite (R _ [va; vc; vb]) by (repeat constructor; assumption)
    | rewrite (R _ [vb; va; vc]) by (repeat constructor; assumption)
    | rewrite (R _ [vb; vc; va]) by (repeat constructor; assumption)
    | rewrite (R _ [vc; va; vb]) by (repeat constructor; assumption)
    | rewrite (R _ [vc; vb; va]) by (repeat constructor; assumption) ];
    cbn [map combine stable_sort insert_by fst snd];
    rewrite ?Lab, ?Lba, ?Lca, ?Lac, ?Lcb, ?Lbc;
    cbn [insert_by fst snd]; rewrite ?Lab, ?Lba, ?Lca, ?Lac, ?Lcb, ?Lbc;
    reflexivity.
Qed.

(** C1, as the code has it.  On event-shaped records [sorted_events]
    returns a rearrangement of its input in ascending order of the key
    (start date, sort index, lower-cased title), where 9999-12-31 stands
    for a start date that does not parse: such events follow every event
    dated earlier and tie with an event dated on that very day.  Events
    with equal keys keep their input order.  Three events dated "1850",
    "" and "1820-06" come out as 1820-06, 1850, "" from every input
    order. *)
Theorem sorted_events_spec :
  forall evts : list pyval,
    Forall event_shaped evts ->
    (exists out,
        sorted_events evts = Ok out
        /\ Permutation evts out
        /\ StronglySorted event_le out
        /\ forall k, with_key k out = with_key k evts)
    /\ (forall (a b c : pyval) (va vb vc : event_view),
           view a = Some va -> v_start_date va = "1850" ->
           view b = Some vb -> v_start_date vb = "" ->
           view c = Some vc -> v_start_date vc = "1820-06" ->
           Permutation [a; b; c] evts ->
           sorted_events evts = Ok [c; a; b]).
Proof.
  intros evts H. split.
  - apply sorted_events_shaped, H.
  - intros a b c va vb vc Va Da Vb Db Vc Dc P.
    eapply sorted_events_three; eassumption.
Qed.

Lemma sorted_events_spec_witness :
  Forall event_shaped [ev_undated; ev_1820_06; ev_1850]
  /\ sorted_events [ev_undated; ev_1820_06; ev_1850]
     = Ok [ev_1820_06; ev_1850; ev_undated].
Proof.
  assert (S : Forall event_shaped [ev_undated; ev_1820_06; ev_1850]).
  { repeat constructor; eexists; reflexivity. }
  split; [exact S |].
  refine (proj2 (sorted_events_spec _ S) ev_1850 ev_undated ev_1820_06
            (mkview "Coronation" "" "1850" "" "" "" [] [] "" 2)
            (mkview "An old legend" "" "" "" "" "" [] [] "" (-5))
            (mkview "Zenith" "" "1820-06" "" "" "" [] [] "" 0)
            eq_refl eq_refl eq_refl eq_refl eq_refl eq_refl _).
  exact (Permutation_cons_append [ev_undated; ev_1820_06] ev_1850).
Defined.

(** C1 as stated fails at the largest date: an event whose start date
    does not parse is placed before an event dated 9999-12-31 when its
    sort index is smaller. *)
Lemma sorted_events_undated_before_dated :
  safe_parse_date (PStr "9999-12-31") = Ok (Some (mkdate 9999 12 31))
  /\ safe_parse_date (PStr "") = Ok None
  /\ sorted_events [ev_last_day; ev_sketch] = Ok [ev_sketch; ev_last_day].
Proof. repeat split; reflexivity. Qed.

(** ** Records with absent fields *)

Lemma lookup_app (k' k : string) (z : pyval) (d : list (string * pyval)) :
  lookup k' (d ++ [(k, z)])
  = if String.eqb k' k
    then match lookup k' d with Some v => Some v | None => Some z end
    else lookup k' d.
Proof.
  induction d as [| [k0 v0] d IH]; simpl.
  - destruct (String.eqb k' k); reflexivity.
  - destruct (String.eqb k' k0); [| exact IH].
    destruct (String.eqb k' k); reflexivity.
Qed.

Lemma view_absent_zero (d : list (string * pyval)) (k : string) (z : pyval) :
  In (k, z) declared_fields -> lookup k d = None ->
  view (PDict (d ++ [(k, z)])) = view (PDict d).
Proof.
  intros I N. unfold view, str_field, list_field, int_field.
  rewrite !lookup_app.
  simpl in I.
  repeat (destruct I as [I | I];
          [injection I as <- <-; cbn [String.eqb Ascii.eqb Bool.eqb andb];
           rewrite N; reflexivity |]).
  contradiction.
Qed.

(** C10.  On records in which any of the declared fields are absent, and
    the present ones hold values of their declared types,
    [filtered_events] (under any criteria) and [sorted_events] return a
    list and raise nothing.  An absent field is read as the zero value
    of its type: adding the field with that value to the record changes
    neither the verdict of the filter nor the sort key. *)
Theorem absent_fields_read_as_zero :
  forall evts : list pyval,
    Forall event_shaped evts ->
    (forall story era character category keyword : string,
        exists out,
          filtered_events evts story era character category keyword = Ok out)
    /\ (exists out, sorted_events evts = Ok out)
    /\ (forall (d : list (string * pyval)) (k : string) (z : pyval),
           In (PDict d) evts ->
           In (k, z) declared_fields ->
           lookup k d = None ->
           event_shaped (PDict (d ++ [(k, z)]))
           /\ (forall story era character category keyword : string,
                  match_event story era character category keyword
                    (PDict (d ++ [(k, z)]))
                  = match_event story era character category keyword (PDict d))
           /\ key (PDict (d ++ [(k, z)])) = key (PDict d)).
Proof.
  intros evts H. split; [| split].
  - intros story era character category keyword. eexists.
    apply filtered_events_shaped, H.
  - destruct (sorted_events_shaped evts H) as (out & E & _). exists out. exact E.
  - intros d k z I K N.
    pose proof (proj1 (Forall_forall _ _) H _ I) as [v Hv].
    pose proof (view_absent_zero d k z K N) as E. rewrite Hv in E.
    split; [exists v; exact E |]. split.
    + intros. rewrite (match_event_view _ _ _ _ _ _ v E),
        (match_event_view _ _ _ _ _ _ v Hv). reflexivity.
    + rewrite (key_view _ v E), (key_view _ v Hv). reflexivity.
Qed.

Lemma absent_fields_read_as_zero_witness :
  Forall event_shaped [ev_empty; ev_title_only]
  /\ (exists out, sorted_events [ev_empty; ev_title_only] = Ok out)
  /\ key (PDict ([] ++ [("sort_index", PInt 0)])) = key ev_empty.
Proof.
  assert (S : Forall event_shaped [ev_empty; ev_title_only]).
  { repeat constructor; eexists; reflexivity. }
  assert (I : In ("sort_index", PInt 0) declared_fields).
  { simpl. tauto. }
  pose proof (absent_fields_read_as_zero _ S) as (_ & Hs & Hz).
  split; [exact S |]. split; [exact Hs |].
  exact (proj2 (proj2 (Hz [] "sort_index" (PInt 0) (or_introl eq_refl) I eq_refl))).
Defined.

(** ** The store *)

Lemma payload_adding (uuid : string) (f : form) :
  payload uuid None f
  = Ok [ ("id", PStr uuid);
         ("title", PStr (strip (title f)));
         ("date_text", PStr (strip (date_text f)));
         ("start_date", PStr (strip (start_date f)));
         ("end_date", PStr (strip (end_date f)));
         ("era", PStr (strip (era f)));
         ("story", PStr (strip (story f)));
         ("characters", PList (map PStr (normalize_text (characters_text f))));
         ("categories", PList (map PStr (normalize_text (categories_text f))));
         ("notes", PStr (strip (notes f)));
         ("sort_index", PInt (sort_index f)) ].
Proof.
  unfold payload. cbn [when_editing bind]. rewrite !ensure_list_str.
  reflexivity.
Qed.

Lemma find_by_id_absent (target : pyval) (l : list pyval) :
  Forall (fun e => exists i, py_getitem e "id" = Ok i /\ py_eq i target = false) l ->
  find_by_id target l = Ok None.
Proof.
  induction 1 as [| e l (i & Hi & Hn) _ IH]; [reflexivity |].
  simpl. rewrite Hi. cbn [bind]. rewrite Hn. exact IH.
Qed.

Lemma editing_event_absent (st : session) :
  Forall (fun e => exists i, py_getitem e "id" = Ok i
                             /\ py_eq i (edit_id st) = false) (events st) ->
  editing_event st = Ok None.
Proof.
  intros H. unfold editing_event.
  destruct (truthy (edit_id st)); [apply find_by_id_absent, H | reflexivity].
Qed.

(** C2, as the code has it.  When the edit pointer holds an id that no
    event of the store carries, "Save Event" finds nothing to edit and
    falls back to adding: with a blank title the session is unchanged
    and a warning is shown; otherwise every stored event stays, in
    place and unaltered, one new event with the fresh id is appended,
    the edit pointer is kept, and no error is signalled. *)
Theorem save_with_absent_id :
  forall (uuid : string) (f : form) (st : session),
    Forall (fun e => exists i, py_getitem e "id" = Ok i
                               /\ py_eq i (edit_id st) = false) (events st) ->
    editing_event st = Ok None
    /\ (nonempty (strip (title f)) = false ->
        save_event uuid f st = Ok (st, Warning "Title is required."))
    /\ (nonempty (strip (title f)) = true ->
        exists p,
          payload uuid None f = Ok p
          /\ lookup "id" p = Some (PStr uuid)
          /\ save_event uuid f st
             = Ok (mksession (events st ++ [PDict p]) (edit_id st),
                   Success "Event added.")).
Proof.
  intros uuid f st H. pose proof (editing_event_absent st H) as E.
  split; [exact E |]. unfold save_event. rewrite E. cbn [bind]. split.
  - intros ->. reflexivity.
  - intros ->. cbn [negb]. rewrite payload_adding. cbn [bind when_editing].
    eexists. split; [reflexivity |]. split; reflexivity.
Qed.

Lemma save_with_absent_id_witness :
  editing_event deleted_while_open = Ok None
  /\ save_event "u-3" blank_form deleted_while_open
     = Ok (deleted_while_open, Warning "Title is required.").
Proof.
  assert (H : Forall (fun e => exists i, py_getitem e "id" = Ok i
                                /\ py_eq i (edit_id deleted_while_open) = false)
                (events deleted_while_open)).
  { repeat constructor. eexists. split; reflexivity. }
  pose proof (save_with_absent_id "u-3" blank_form deleted_while_open H)
    as (E & B & _).
  split; [exact E | exact (B eq_refl)].
Defined.

(** C2 as stated fails, on a store the form itself produces.  Two
    events are saved; the second is opened from its card and then
    deleted from its card, which leaves the edit pointer on its id
    "u-2".  The store now holds the first event alone, with every
    field of the template.  Saving the form then updates nothing: the
    lookup finds no event, and a second event is appended under the
    fresh id "u-3". *)
Lemma save_with_absent_id_adds :
  run delete_while_open empty_session = Ok deleted_while_open
  /\ events deleted_while_open = [PDict alice_fields]
  /\ edit_id deleted_while_open = PStr "u-2"
  /\ editing_event deleted_while_open = Ok None
  /\ save_event "u-3" form_of_bob deleted_while_open
     = Ok (mksession
             [ PDict alice_fields;
               PDict [ ("id", PStr "u-3"); ("title", PStr "The Duel");
                       ("date_text", PStr "Spring 1850");
                       ("start_date", PStr "1850-03"); ("end_date", PStr "");
                       ("era", PStr ""); ("story", PStr "Overmorrow");
                       ("characters", PList [PStr "Bob"; PStr "Alice"]);
                       ("categories", PList [PStr "War"]);
                       ("notes", PStr "At dawn."); ("sort_index", PInt 0) ] ]
             (PStr "u-2"),
           Success "Event added.").
Proof. repeat split; reflexivity. Qed.

(** ** Import *)

(** C8.  When [json.load] raises, or returns a value that is not a
    list, the import is rejected: an error is shown and the session,
    hence the store, is exactly what it was.  This holds whatever the
    decoder does on the bytes, and in particular for the decoder
    embedded here. *)
Theorem import_rejects_malformed :
  forall (loaded : outcome pyval) (st : session),
    (exists e, loaded = Raise e)
    \/ (exists v, loaded = Ok v /\ is_list v = false) ->
    (exists msg, import_data loaded st = Ok (st, Error msg))
    /\ (forall uploaded : string,
           Json.load uploaded = loaded ->
           exists msg, import_json uploaded st = Ok (st, Error msg)).
Proof.
  intros loaded st H.
  assert (R : exists msg, import_data loaded st = Ok (st, Error msg)).
  { destruct H as [[e ->] | (v & -> & L)].
    - eexists. reflexivity.
    - destruct v; try discriminate; eexists; reflexivity. }
  split; [exact R |].
  intros uploaded <-. exact R.
Qed.

Lemma import_rejects_malformed_witness :
  (exists msg, import_json "{ }" stale_session = Ok (stale_session, Error msg))
  /\ (exists msg, import_json "[1, 2" stale_session = Ok (stale_session, Error msg)).
Proof.
  split.
  - refine (proj2 (import_rejects_malformed (Ok (PDict [])) stale_session _)
              "{ }" eq_refl).
    right. exists (PDict []). split; reflexivity.
  - refine (proj2 (import_rejects_malformed (Raise ValueError) stale_session _)
              "[1, 2" eq_refl).
    left. exists ValueError. reflexivity.
Defined.

(** ** The invariant on tag lists *)

Lemma ci_distinct_strs (ss : list string) :
  NoDup (map lower ss) -> ci_distinct (map PStr ss).
Proof.
  unfold ci_distinct. induction ss as [| a ss IH]; simpl; intros H.
  - constructor.
  - inversion H as [| ? ? Hin Hnd]; subst. constructor; [| apply IH, Hnd].
    apply Forall_map, Forall_forall. intros s Hs. simpl.
    apply String.eqb_neq. intros E. apply Hin. rewrite E.
    apply in_map, Hs.
Qed.

Lemma payload_tags (uuid : string) (ed : option pyval) (f : form)
    (p : list (string * pyval)) :
  payload uuid ed f = Ok p -> tags_distinct (PDict p).
Proof.
  unfold payload.
  assert (G : forall i : pyval,
             tags_distinct
               (PDict
                  (dict_update (dict_set "id" i (new_event_template uuid))
                     [ ("title", PStr (strip (title f)));
                       ("date_text", PStr (strip (date_text f)));
                       ("start_date", PStr (strip (start_date f)));
                       ("end_date", PStr (strip (end_date f)));
                       ("era", PStr (strip (era f)));
                       ("story", PStr (strip (story f)));
                       ("characters",
                         PList (map PStr (normalize_text (characters_text f))));
                       ("categories",
                         PList (map PStr (normalize_text (categories_text f))));
                       ("notes", PStr (strip (notes f)));
                       ("sort_index", PInt (sort_index f)) ]))).
  { intros i d k l E K L. injection E as <-.
    destruct K as [-> | ->]; cbn in L; injection L as <-;
      apply ci_distinct_strs, dedup_first_nodup. }
  destruct (when_editing ed) as [e |].
  - destruct (py_getitem e "id") as [i | |]; cbn [bind]; try discriminate.
    rewrite !ensure_list_str. cbn [bind]. intros H. injection H as <-.
    apply G.
  - cbn [bind]. rewrite !ensure_list_str. cbn [bind].
    intros H. injection H as <-. apply (G (PStr uuid)).
Qed.

Lemma mapM_Forall {A B : Type} (P : A -> Prop) (Q : B -> Prop)
    (f : A -> outcome B) (l : list A) (l' : list B) :
  (forall a b, P a -> f a = Ok b -> Q b) ->
  Forall P l -> mapM f l = Ok l' -> Forall Q l'.
Proof.
  intros Hf H. revert l'. induction H as [| a l Ha _ IH]; simpl; intros l' E.
  - injection E as <-. constructor.
  - apply bind_ok in E. destruct E as (b & Eb & E).
    apply bind_ok in E. destruct E as (bs & Ebs & E). injection E as <-.
    constructor; [eapply Hf; eassumption | apply IH, Ebs].
Qed.

Lemma filterM_Forall {A : Type} (P : A -> Prop) (f : A -> outcome bool)
    (l l' : list A) :
  Forall P l -> filterM f l = Ok l' -> Forall P l'.
Proof.
  intros H. revert l'. induction H as [| a l Ha _ IH]; simpl; intros l' E.
  - injection E as <-. constructor.
  - apply bind_ok in E. destruct E as (b & Eb & E).
    apply bind_ok in E. destruct E as (ys & Eys & E). injection E as <-.
    destruct b; [constructor; [exact Ha |] |]; apply IH, Eys.
Qed.

Lemma replace_by_id_tags (target new : pyval) (l l' : list pyval) :
  tags_distinct new -> Forall tags_distinct l ->
  replace_by_id target new l = Ok l' -> Forall tags_distinct l'.
Proof.
  intros Hn H E. unfold replace_by_id in E.
  eapply mapM_Forall; [| exact H | exact E].
  intros a b Ha Eb. simpl in Eb.
  apply bind_ok in Eb. destruct Eb as (i & _ & Eb). injection Eb as <-.
  destruct (py_eq i target); assumption.
Qed.

Lemma save_event_tags (uuid : string) (f : form) (st : session)
    (r : session * notice) :
  store_ok st -> save_event uuid f st = Ok r -> store_ok (fst r).
Proof.
  unfold save_event, store_ok. intros H E.
  apply bind_ok in E. destruct E as (ed & _ & E).
  destruct (negb (nonempty (strip (title f)))).
  - injection E as <-. exact H.
  - apply bind_ok in E. destruct E as (p & Ep & E).
    apply payload_tags in Ep.
    destruct (when_editing ed) as [e |].
    + apply bind_ok in E. destruct E as (target & _ & E).
      apply bind_ok in E. destruct E as (evs & Eevs & E). injection E as <-.
      simpl. eapply replace_by_id_tags; eassumption.
    + injection E as <-. simpl. apply Forall_app. split; [exact H |].
      constructor; [exact Ep | constructor].
Qed.

Lemma delete_this_event_tags (st : session) (r : session * option notice) :
  store_ok st -> delete_this_event st = Ok r -> store_ok (fst r).
Proof.
  unfold delete_this_event, store_ok. intros H E.
  apply bind_ok in E. destruct E as (ed & _ & E).
  destruct (when_editing ed) as [e |].
  - apply bind_ok in E. destruct E as (target & _ & E).
    apply bind_ok in E. destruct E as (evs & Eevs & E). injection E as <-.
    simpl. eapply filterM_Forall; eassumption.
  - injection E as <-. exact H.
Qed.

Lemma step_tags (a : action) (st st' : session) :
  loads_clean [a] -> store_ok st -> step a st = Ok st' -> store_ok st'.
Proof.
  intros C H E. destruct a as [uuid f | | | ev | ev | uploaded]; simpl in E.
  - apply bind_ok in E. destruct E as (r & Er & E). injection E as <-.
    eapply save_event_tags; eassumption.
  - injection E as <-. exact H.
  - apply bind_ok in E. destruct E as (r & Er & E). injection E as <-.
    eapply delete_this_event_tags; eassumption.
  - unfold card_edit in E. apply bind_ok in E. destruct E as (i & _ & E).
    injection E as <-. exact H.
  - unfold card_delete in E. apply bind_ok in E. destruct E as (t & _ & E).
    apply bind_ok in E. destruct E as (evs & Eevs & E). injection E as <-.
    unfold store_ok in *. simpl. eapply filterM_Forall; eassumption.
  - apply bind_ok in E. destruct E as (r & Er & E). injection E as <-.
    inversion C as [| ? ? Cu _]; subst.
    unfold import_json, import_data in Er.
    destruct (Json.load uploaded) as [v | e |] eqn:L; try discriminate.
    + destruct v; injection Er as <-; try exact H.
      unfold store_ok. simpl. apply Cu. reflexivity.
    + injection Er as <-. exact H.
Qed.

(** C9, as the code has it.  Adds, updates and deletes keep the
    invariant: the two tag lists of every event they write come from
    [ensure_list] on the text of the form.  A bulk load installs the
    uploaded list as it is, so the invariant holds afterwards exactly
    when the loaded events satisfy it. *)
Theorem tag_lists_stay_distinct :
  forall (actions : list action) (st st' : session),
    loads_clean actions ->
    store_ok st ->
    run actions st = Ok st' ->
    store_ok st'.
Proof.
  induction actions as [| a rest IH]; simpl; intros st st' C H E.
  - injection E as <-. exact H.
  - apply bind_ok in E. destruct E as (st1 & E1 & E).
    inversion C as [| ? ? Ca Crest]; subst.
    apply (IH st1 st' Crest); [| exact E].
    eapply step_tags; [| exact H | exact E1]. constructor; [exact Ca | constructor].
Qed.

Lemma tag_lists_stay_distinct_witness :
  run demo_script empty_session = Ok demo_final /\ store_ok demo_final.
Proof.
  assert (R : run demo_script empty_session = Ok demo_final) by reflexivity.
  split; [exact R |].
  apply (tag_lists_stay_distinct demo_script empty_session demo_final).
  - repeat constructor.
  - constructor.
  - exact R.
Defined.

(** C9 as stated fails on a bulk load: the uploaded list is installed
    as it is, with a character list that holds "Bob" and "bob". *)
Lemma import_keeps_duplicate_tags :
  run [ImportJson upload_two_bobs] empty_session
  = Ok (mksession [ev_two_bobs] PNone)
  /\ ci_equal (PStr "Bob") (PStr "bob") = true
  /\ ~ store_ok (mksession [ev_two_bobs] PNone).
Proof.
  split; [reflexivity |]. split; [reflexivity |].
  intros H. inversion H as [| ? ? He _]; subst.
  specialize (He _ "characters" _ eq_refl (or_introl eq_refl) eq_refl).
  inversion He as [| ? ? Hb _]; subst.
  inversion Hb as [| ? ? Hbb _]; subst. discriminate.
Qed.

(** ** JSON: strings *)

Lemma append_assoc (a b c : string) : ((a ++ b) ++ c)%string = (a ++ (b ++ c))%string.
Proof.
  induction a as [| x a IH]; simpl; [reflexivity |]. rewrite IH. reflexivity.
Qed.

Lemma append_empty_r (a : string) : (a ++ "")%string = a.
Proof.
  induction a as [| x a IH]; simpl; [reflexivity |]. rewrite IH. reflexivity.
Qed.

(** Decoding undoes the escape of one character. *)
Lemma scan_escape_char (c : ascii) (rest : string) :
  Json.scan_string (Json.escape_char c ++ rest)
  = Json.cons_char c (Json.scan_string rest).
Proof.
  destruct c as [b0 b1 b2 b3 b4 b5 b6 b7].
  destruct b0, b1, b2, b3, b4, b5, b6, b7; reflexivity.
Qed.

Lemma scan_escape (s rest : string) :
  Json.scan_string (Json.escape s ++ String Json.dquote rest) = Ok (s, rest).
Proof.
  induction s as [| c s IH]; [reflexivity |].
  cbn [Json.escape]. rewrite append_assoc, scan_escape_char, IH. reflexivity.
Qed.

(** ** JSON: integers *)

Lemma span_digits_uint (d : Decimal.uint) (rest : string) :
  delimited rest = true ->
  Json.span_digits (NilEmpty.string_of_uint d ++ rest)
  = (NilEmpty.string_of_uint d, rest).
Proof.
  intros H. induction d; cbn [NilEmpty.string_of_uint append];
    try (cbn [Json.span_digits]; rewrite IHd; reflexivity).
  destruct rest as [| c r]; [reflexivity |]. cbn [Json.span_digits].
  simpl in H. destruct (Json.is_digit c); [discriminate | reflexivity].
Qed.

Lemma to_uint_normal (p : positive) (d : Decimal.uint) :
  Pos.to_uint p <> Decimal.D0 d.
Proof.
  pose proof (DecimalPos.Unsigned.to_of (Pos.to_uint p)) as E.
  rewrite DecimalPos.Unsigned.of_to in E. simpl in E.
  assert (N : Decimal.nzhead (Pos.to_uint p) <> Decimal.Nil).
  { intros N. apply DecimalFacts.unorm_0 in N. rewrite <- E in N.
    exact (DecimalPos.Unsigned.to_uint_nonzero p N). }
  rewrite (DecimalFacts.unorm_nzhead _ N) in E. rewrite E.
  apply DecimalFacts.nzhead_nonzero.
Qed.

Lemma delimited_no_float (rest : string) :
  delimited rest = true -> Json.has_frac rest || Json.has_exp rest = false.
Proof.
  destruct rest as [| c r]; [reflexivity |]. simpl.
  destruct (Json.is_digit c); [discriminate |].
  destruct (Ascii.eqb c "."); [discriminate |].
  destruct (Ascii.eqb c "e"); [discriminate |].
  destruct (Ascii.eqb c "E"); [discriminate |].
  destruct r; reflexivity.
Qed.

Lemma parse_int_text (z : Z) :
  Json.parse_int (NilZero.string_of_int (Z.to_int z)) = z.
Proof.
  unfold Json.parse_int. rewrite NilZero.isi.
  - apply DecimalZ.of_to.
  - destruct z; simpl; try discriminate.
    intros E. injection E as E. exact (DecimalPos.Unsigned.to_uint_nonnil _ E).
  - destruct z; simpl; try discriminate.
    intros E. injection E as E. exact (DecimalPos.Unsigned.to_uint_nonnil _ E).
Qed.

(** The digits of a positive number: what the scanner does on them. *)
Lemma scan_positive (p : positive) (rest : string) :
  delimited rest = true ->
  exists c r,
    NilEmpty.string_of_uint (Pos.to_uint p) = String c r
    /\ Json.is_digit c = true /\ Ascii.eqb c "0" = false
    /\ Json.span_digits (r ++ rest) = (r, rest).
Proof.
  intros H. pose proof (to_uint_normal p) as N0.
  pose proof (DecimalPos.Unsigned.to_uint_nonnil p) as Nn.
  destruct (Pos.to_uint p) as [| d | d | d | d | d | d | d | d | d | d];
    [contradiction | elim (N0 d); reflexivity | ..];
    eexists; eexists; (split; [reflexivity |]);
    (split; [reflexivity |]); (split; [reflexivity |]);
    apply span_digits_uint, H.
Qed.

(** On a digit or a minus sign the scanner goes to the number
    pattern. *)
Lemma scan_once_numeric (fuel : nat) (c : ascii) (x : string) :
  Json.is_digit c || Ascii.eqb c "-" = true ->
  Json.scan_once (S fuel) (String c x)
  = match Json.match_integer (String c x) with
    | Some (text, rest) =>
        if Json.has_frac rest || Json.has_exp rest then Unmodelled
        else Ok (PInt (Json.parse_int text), rest)
    | None =>
        if starts_with "NaN" (String c x) || starts_with "Infinity" (String c x)
           || starts_with "-Infinity" (String c x)
        then Unmodelled
        else Raise ValueError
    end.
Proof.
  destruct c as [b0 b1 b2 b3 b4 b5 b6 b7].
  destruct b0, b1, b2, b3, b4, b5, b6, b7; intros H; try discriminate H;
    reflexivity.
Qed.

Lemma match_integer_digits (c : ascii) (r rest : string) :
  Json.is_digit c = true -> Ascii.eqb c "0" = false ->
  Json.span_digits (r ++ rest) = (r, rest) ->
  Json.match_integer (String c (r ++ rest)) = Some (String c r, rest)
  /\ Json.match_integer (String "-" (String c (r ++ rest)))
     = Some (String "-" (String c r), rest).
Proof.
  intros D Z Sp. unfold Json.match_integer.
  cbn [Ascii.eqb Bool.eqb fst snd append]. rewrite Z, D, Sp.
  assert (M : Ascii.eqb c "-" = false).
  { destruct c as [b0 b1 b2 b3 b4 b5 b6 b7].
    destruct b0, b1, b2, b3, b4, b5, b6, b7; try discriminate D; reflexivity. }
  rewrite M. cbn [fst snd append]. rewrite Z, D, Sp. split; reflexivity.
Qed.

Lemma scan_once_int (fuel : nat) (z : Z) (rest : string) :
  delimited rest = true ->
  Json.scan_once (S fuel) (NilZero.string_of_int (Z.to_int z) ++ rest)
  = Ok (PInt z, rest).
Proof.
  intros H. pose proof (parse_int_text z) as V.
  pose proof (delimited_no_float rest H) as F.
  destruct z as [| p | p].
  - change (NilZero.string_of_int (Z.to_int 0) ++ rest)%string
      with (String "0" rest).
    rewrite scan_once_numeric by reflexivity.
    change (Json.match_integer (String "0" rest)) with (Some ("0", rest)).
    cbv beta iota. rewrite F. reflexivity.
  - destruct (scan_positive p rest H) as (c & r & E & Dc & Zc & Sp).
    assert (T : NilZero.string_of_int (Z.to_int (Z.pos p)) = String c r).
    { simpl. unfold NilZero.string_of_uint.
      destruct (Pos.to_uint p); [discriminate E | exact E ..]. }
    rewrite T in *. cbn [append].
    rewrite scan_once_numeric by (rewrite Dc; reflexivity).
    rewrite (proj1 (match_integer_digits c r rest Dc Zc Sp)).
    cbv beta iota. rewrite F, V. reflexivity.
  - destruct (scan_positive p rest H) as (c & r & E & Dc & Zc & Sp).
    assert (T : NilZero.string_of_int (Z.to_int (Z.neg p))
                = String "-" (String c r)).
    { simpl. unfold NilZero.string_of_uint.
      destruct (Pos.to_uint p); [discriminate E | rewrite E; reflexivity ..]. }
    rewrite T in *. cbn [append].
    rewrite scan_once_numeric by reflexivity.
    rewrite (proj2 (match_integer_digits c r rest Dc Zc Sp)).
    cbv beta iota. rewrite F, V. reflexivity.
Qed.

(** ** JSON: layout *)

Lemma skip_ws_spaces (n : nat) (x : string) :
  Json.skip_ws (Json.spaces n ++ x) = Json.skip_ws x.
Proof. induction n as [| n IH]; [reflexivity | exact IH]. Qed.

Lemma skip_ws_newline_indent (level : nat) (x : string) :
  Json.skip_ws (Json.newline_indent level ++ x) = Json.skip_ws x.
Proof. unfold Json.newline_indent. cbn [append]. apply skip_ws_spaces. Qed.

Lemma skip_ws_value (x : string) : value_start x = true -> Json.skip_ws x = x.
Proof.
  destruct x as [| c r]; [discriminate |]. simpl.
  destruct (Json.is_ws c); [discriminate | reflexivity].
Qed.

Lemma skip_ws_char (c : ascii) (x : string) :
  Json.is_ws c = false -> Json.skip_ws (String c x) = String c x.
Proof. intros H. simpl. rewrite H. reflexivity. Qed.

Lemma delimited_newline_indent (level : nat) (x : string) :
  delimited (Json.newline_indent level ++ x) = true.
Proof. reflexivity. Qed.

Lemma value_start_append (a b : string) :
  value_start a = true -> value_start (a ++ b) = true.
Proof. destruct a; [discriminate | intros H; exact H]. Qed.

Lemma value_start_int (z : Z) :
  value_start (NilZero.string_of_int (Z.to_int z)) = true.
Proof.
  destruct z as [| p | p]; [reflexivity | | reflexivity].
  destruct (scan_positive p "" eq_refl) as (c & r & E & Dc & _).
  simpl. unfold NilZero.string_of_uint.
  destruct (Pos.to_uint p); [discriminate E | rewrite E ..];
    (destruct c as [b0 b1 b2 b3 b4 b5 b6 b7];
     destruct b0, b1, b2, b3, b4, b5, b6, b7; try discriminate Dc;
     reflexivity).
Qed.

Lemma value_start_encode (level : nat) (v : pyval) :
  value_start (Json.encode level v) = true.
Proof.
  destruct v as [| [] | z | s | [| a l] | [| kv d]]; try reflexivity.
  apply value_start_int.
Qed.

(** ** JSON: dicts *)

Lemma dict_set_fresh (k : string) (v : pyval) (d : list (string * pyval)) :
  ~ In k (map fst d) -> dict_set k v d = (d ++ [(k, v)])%list.
Proof.
  induction d as [| [k0 v0] d IH]; simpl; intros H; [reflexivity |].
  destruct (String.eqb k k0) eqn:E.
  - apply String.eqb_eq in E. subst. elim H. left. reflexivity.
  - rewrite IH by tauto. reflexivity.
Qed.

Lemma dict_update_fresh (acc d : list (string * pyval)) :
  NoDup (map fst (acc ++ d)) -> dict_update acc d = (acc ++ d)%list.
Proof.
  unfold dict_update. revert acc.
  induction d as [| [k v] d IH]; intros acc H; simpl.
  - rewrite app_nil_r. reflexivity.
  - rewrite dict_set_fresh.
    + rewrite IH; rewrite <- app_assoc; [reflexivity | exact H].
    + rewrite map_app in H. simpl in H. apply NoDup_remove_2 in H.
      intros I. apply H. apply in_or_app. left. exact I.
Qed.

Lemma dict_of_distinct (d : list (string * pyval)) :
  NoDup (map fst d) -> Json.dict_of d = d.
Proof. intros H. apply (dict_update_fresh [] d H). Qed.

(** ** JSON: induction on values *)

Section ValueInduction.

Variable P : pyval -> Prop.
Hypothesis P_none : P PNone.
Hypothesis P_bool : forall b, P (PBool b).
Hypothesis P_int : forall z, P (PInt z).
Hypothesis P_str : forall s, P (PStr s).
Hypothesis P_list : forall l, Forall P l -> P (PList l).
Hypothesis P_dict : forall d, Forall (fun kv => P (snd kv)) d -> P (PDict d).

Lemma pyval_nested_ind : forall v : pyval, P v.
Proof.
  fix IH 1. intros [| b | z | s | l | d].
  - exact P_none.
  - apply P_bool.
  - apply P_int.
  - apply P_str.
  - apply P_list. induction l as [| x r IHl]; constructor;
      [apply IH | exact IHl].
  - apply P_dict. induction d as [| kv r IHd]; constructor;
      [apply IH | exact IHd].
Qed.

End ValueInduction.

(** ** JSON: arrays and objects *)

Lemma cost_pos (v : pyval) : (1 <= cost v)%nat.
Proof. destruct v as [| | | | [| a l] | [| kv d]]; simpl; lia. Qed.

Lemma array_items_step (f : nat) (s : string) :
  Json.array_items (S f) s
  = (p <- Json.scan_once f s ;;
     match Json.skip_ws (snd p) with
     | EmptyString => Raise ValueError
     | String c r =>
         if Ascii.eqb c "]" then Ok ([fst p], r)
         else if Ascii.eqb c "," then
           q <- Json.array_items f (Json.skip_ws r) ;; Ok (fst p :: fst q, snd q)
         else Raise ValueError
     end).
Proof. reflexivity. Qed.

Lemma object_pairs_step (f : nat) (s : string) :
  Json.object_pairs (S f) s
  = (k <- Json.scan_string s ;;
     match Json.skip_ws (snd k) with
     | EmptyString => Raise ValueError
     | String c r =>
         if Ascii.eqb c ":" then
           p <- Json.scan_once f (Json.skip_ws r) ;;
           match Json.skip_ws (snd p) with
           | EmptyString => Raise ValueError
           | String c1 r1 =>
               if Ascii.eqb c1 "}" then Ok ([(fst k, fst p)], r1)
               else if Ascii.eqb c1 "," then
                 match Json.skip_ws r1 with
                 | EmptyString => Raise ValueError
                 | String c2 r2 =>
                     if Ascii.eqb c2 Json.dquote then
                       q <- Json.object_pairs f r2 ;;
                       Ok ((fst k, fst p) :: fst q, snd q)
                     else Raise ValueError
                 end
               else Raise ValueError
           end
         else Raise ValueError
     end).
Proof. reflexivity. Qed.

Lemma value_start_items (sep : string) (level : nat) (l : list pyval) (x : string) :
  l <> [] ->
  value_start (join sep (map (Json.encode level) l) ++ x) = true.
Proof.
  destruct l as [| a [| b l]]; [contradiction | |]; intros _; cbn [map join].
  - apply value_start_append, value_start_encode.
  - rewrite append_assoc. apply value_start_append, value_start_encode.
Qed.

Lemma array_items_round_trip (items : list pyval) :
  Forall round_trips items -> items <> [] ->
  forall (fuel level outer : nat) (rest : string),
    (list_sum (map cost items) + 1 <= fuel)%nat ->
    Json.array_items fuel
      (join (String "," (Json.newline_indent level))
         (map (Json.encode level) items)
       ++ Json.newline_indent outer ++ String "]" rest)
    = Ok (items, rest).
Proof.
  induction 1 as [| v items Hv Hitems IH]; intros N fuel level outer rest F;
    [contradiction |].
  destruct fuel as [| f]; [simpl in F; lia |].
  rewrite array_items_step. destruct items as [| w r].
  - cbn [map join]. simpl in F.
    assert (Cf : (cost v <= f)%nat) by lia.
    rewrite (Hv f level _ Cf (delimited_newline_indent outer _)).
    cbn [bind fst snd]. rewrite skip_ws_newline_indent. reflexivity.
  - change (join (String "," (Json.newline_indent level))
              (map (Json.encode level) (v :: w :: r)))
      with (Json.encode level v
            ++ String "," (Json.newline_indent level)
            ++ join (String "," (Json.newline_indent level))
                 (map (Json.encode level) (w :: r)))%string.
    rewrite !append_assoc. cbn [append].
    pose proof (cost_pos v) as Cv. pose proof (cost_pos w) as Cw.
    cbn [map list_sum fold_right] in F.
    assert (Cf : (cost v <= f)%nat) by lia.
    assert (Cr : (list_sum (map cost (w :: r)) + 1 <= f)%nat)
      by (cbn [map list_sum fold_right]; lia).
    rewrite (Hv f level (String "," _) Cf eq_refl).
    cbn [bind fst snd]. rewrite skip_ws_char by reflexivity.
    cbv beta iota. simpl (Ascii.eqb _ _). cbv beta iota.
    rewrite skip_ws_newline_indent.
    rewrite skip_ws_value by (apply value_start_items; discriminate).
    assert (Nr : w :: r <> []) by discriminate.
    rewrite (IH Nr f level outer rest Cr).
    reflexivity.
Qed.

Lemma skip_ws_skip (c : ascii) (x : string) :
  Json.is_ws c = true -> Json.skip_ws (String c x) = Json.skip_ws x.
Proof. intros H. simpl. rewrite H. reflexivity. Qed.

Lemma pairs_start (sep : string) (level : nat) (d : list (string * pyval))
    (y : string) :
  d <> [] ->
  exists x, (join sep (map (pair_text level) d) ++ y)%string
            = String Json.dquote x.
Proof.
  destruct d as [| a [| b d]]; [contradiction | |]; intros _;
    cbn [map join]; unfold pair_text, Json.quote; cbn [append];
    eexists; reflexivity.
Qed.

Lemma object_pairs_round_trip (d : list (string * pyval)) :
  Forall (fun kv => round_trips (snd kv)) d -> d <> [] ->
  forall (fuel level outer : nat) (rest x : string),
    (list_sum (map (fun kv => cost (snd kv)) d) + 1 <= fuel)%nat ->
    (join (String "," (Json.newline_indent level)) (map (pair_text level) d)
     ++ Json.newline_indent outer ++ String "}" rest)%string
    = String Json.dquote x ->
    Json.object_pairs fuel x = Ok (d, rest).
Proof.
  induction 1 as [| [k v] d Hv Hd IH]; intros N fuel level outer rest x F E;
    [contradiction |].
  destruct fuel as [| f]; [simpl in F; lia |].
  rewrite object_pairs_step. simpl snd in Hv. destruct d as [| kv2 d2].
  - cbn [map join] in E. unfold pair_text, Json.quote in E.
    remember (Json.newline_indent outer) as lo eqn:Elo.
    cbn [fst snd] in E.
    repeat (rewrite ?append_assoc in E; cbn [append] in E).
    injection E as <-. subst lo. simpl in F.
    assert (Cf : (cost v <= f)%nat) by lia.
    rewrite scan_escape. cbn [bind fst snd].
    rewrite skip_ws_char by reflexivity.
    cbv beta iota. simpl (Ascii.eqb _ _). cbv beta iota.
    rewrite skip_ws_skip by reflexivity.
    rewrite skip_ws_value by apply value_start_append, value_start_encode.
    rewrite (Hv f level _ Cf (delimited_newline_indent outer _)).
    cbn [bind fst snd]. rewrite skip_ws_newline_indent. reflexivity.
  - change (join (String "," (Json.newline_indent level))
              (map (pair_text level) ((k, v) :: kv2 :: d2)))
      with (pair_text level (k, v)
            ++ String "," (Json.newline_indent level)
            ++ join (String "," (Json.newline_indent level))
                 (map (pair_text level) (kv2 :: d2)))%string in E.
    remember (join (String "," (Json.newline_indent level))
                (map (pair_text level) (kv2 :: d2))) as others eqn:Eo.
    remember (Json.newline_indent outer) as lo eqn:Elo.
    remember (Json.newline_indent level) as li eqn:Eli.
    unfold pair_text, Json.quote in E. cbn [fst snd] in E.
    repeat (rewrite ?append_assoc in E; cbn [append] in E).
    injection E as <-. subst lo li others.
    pose proof (cost_pos v) as Cv. pose proof (cost_pos (snd kv2)) as Cw.
    cbn [map list_sum fold_right fst snd] in F.
    assert (Cf : (cost v <= f)%nat) by lia.
    assert (Cr : (list_sum (map (fun kv => cost (snd kv)) (kv2 :: d2)) + 1
                  <= f)%nat)
      by (cbn [map list_sum fold_right fst snd]; lia).
    rewrite scan_escape. cbn [bind fst snd].
    rewrite skip_ws_char by reflexivity.
    cbv beta iota. simpl (Ascii.eqb _ _). cbv beta iota.
    rewrite skip_ws_skip by reflexivity.
    rewrite skip_ws_value by apply value_start_append, value_start_encode.
    rewrite (Hv f level (String "," _) Cf eq_refl).
    cbn [bind fst snd]. rewrite skip_ws_char by reflexivity.
    cbv beta iota. simpl (Ascii.eqb _ _). cbv beta iota.
    rewrite skip_ws_newline_indent.
    assert (Nr : kv2 :: d2 <> []) by discriminate.
    destruct (pairs_start (String "," (Json.newline_indent level)) level
                (kv2 :: d2)
                (Json.newline_indent outer ++ String "}" rest) Nr) as [x2 E2].
    rewrite E2. rewrite skip_ws_char by reflexivity.
    cbv beta iota. simpl (Ascii.eqb _ _). cbv beta iota.
    rewrite (IH Nr f level outer rest x2 Cr E2). reflexivity.
Qed.

Lemma scan_once_open_array (f : nat) (r text : string) :
  Json.skip_ws r = text -> value_start text = true ->
  Json.scan_once (S f) (String "[" r)
  = (p <- Json.array_items f text ;; Ok (PList (fst p), snd p)).
Proof.
  intros E V. cbn [Json.scan_once]. simpl (Ascii.eqb _ _). cbv beta iota.
  rewrite E. destruct text as [| c x]; [discriminate |].
  simpl in V. destruct (Ascii.eqb c "]"); [| reflexivity].
  rewrite andb_false_r in V. discriminate.
Qed.

Lemma scan_once_open_object (f : nat) (r x : string) :
  Json.skip_ws r = String Json.dquote x ->
  Json.scan_once (S f) (String "{" r)
  = (p <- Json.object_pairs f x ;; Ok (PDict (Json.dict_of (fst p)), snd p)).
Proof.
  intros E. cbn [Json.scan_once]. simpl (Ascii.eqb _ _). cbv beta iota.
  rewrite E. reflexivity.
Qed.

(** ** JSON: the round trip of a value *)

Lemma wf_round_trips : forall v : pyval, wf v -> round_trips v.
Proof.
  apply (pyval_nested_ind (fun v => wf v -> round_trips v)).
  - intros _ [| f] level rest F D; [simpl in F; lia | reflexivity].
  - intros [] _ [| f] level rest F D; try (simpl in F; lia); reflexivity.
  - intros z _ [| f] level rest F D; [simpl in F; lia |].
    apply scan_once_int, D.
  - intros s _ [| f] level rest F D; [simpl in F; lia |].
    cbn [Json.encode]. unfold Json.quote. cbn [append].
    rewrite append_assoc. cbn [append Json.scan_once].
    simpl (Ascii.eqb _ _). cbv beta iota.
    rewrite scan_escape. reflexivity.
  - intros l IH W [| f] level rest F D;
      [pose proof (cost_pos (PList l)); lia |].
    destruct l as [| a l]; [reflexivity |].
    inversion W as [| | | | ? Wl |]; subst.
    assert (R : Forall round_trips (a :: l)).
    { clear - IH Wl. induction IH as [| x r Hx _ IHr]; [constructor |].
      inversion Wl; subst. constructor; auto. }
    assert (N : a :: l <> []) by discriminate.
    assert (C : (list_sum (map cost (a :: l)) + 1 <= f)%nat).
    { change (cost (PList (a :: l))) with (2 + list_sum (map cost (a :: l)))%nat in F.
      lia. }
    change (Json.encode level (PList (a :: l)))
      with (String "["
              (Json.newline_indent (S level)
               ++ join (String "," (Json.newline_indent (S level)))
                    (map (Json.encode (S level)) (a :: l))
               ++ Json.newline_indent level ++ "]"))%string.
    cbn [append]. rewrite !append_assoc.
    change ("]" ++ rest)%string with (String "]" rest).
    erewrite scan_once_open_array;
      [ rewrite (array_items_round_trip _ R N f (S level) level rest C);
        reflexivity
      | rewrite skip_ws_newline_indent; apply skip_ws_value, value_start_items, N
      | apply value_start_items, N ].
  - intros d IH W [| f] level rest F D;
      [pose proof (cost_pos (PDict d)); lia |].
    destruct d as [| kv d]; [reflexivity |].
    inversion W as [| | | | | ? Wk Wd]; subst.
    assert (R : Forall (fun kv => round_trips (snd kv)) (kv :: d)).
    { clear - IH Wd. induction IH as [| x r Hx _ IHr]; [constructor |].
      inversion Wd; subst. constructor; auto. }
    assert (N : kv :: d <> []) by discriminate.
    assert (C : (list_sum (map (fun kv => cost (snd kv)) (kv :: d)) + 1 <= f)%nat).
    { change (cost (PDict (kv :: d)))
        with (2 + list_sum (map (fun kv => cost (snd kv)) (kv :: d)))%nat in F.
      lia. }
    change (Json.encode level (PDict (kv :: d)))
      with (String "{"
              (Json.newline_indent (S level)
               ++ join (String "," (Json.newline_indent (S level)))
                    (map (pair_text (S level)) (kv :: d))
               ++ Json.newline_indent level ++ "}"))%string.
    cbn [append]. rewrite !append_assoc.
    change ("}" ++ rest)%string with (String "}" rest).
    destruct (pairs_start (String "," (Json.newline_indent (S level))) (S level)
                (kv :: d) (Json.newline_indent level ++ String "}" rest) N)
      as [x E].
    erewrite scan_once_open_object;
      [ rewrite (object_pairs_round_trip _ R N f (S level) level rest x C E);
        cbn [bind fst snd]; rewrite (dict_of_distinct _ Wk); reflexivity
      | rewrite skip_ws_newline_indent, E; apply skip_ws_char; reflexivity ].
Qed.

(** ** JSON: fuel and bytes of the exported text *)

Lemma length_append (a b : string) :
  String.length (a ++ b) = (String.length a + String.length b)%nat.
Proof.
  induction a as [| c a IH]; simpl; [reflexivity |]. rewrite IH. reflexivity.
Qed.

Lemma length_join (sep : string) (l : list string) :
  (list_sum (map String.length l) <= String.length (join sep l))%nat.
Proof.
  induction l as [| a l IH]; simpl; [lia |].
  destruct l as [| b l]; [simpl; lia |].
  rewrite !length_append. simpl in IH |- *. lia.
Qed.

Lemma list_sum_le {A : Type} (f g : A -> nat) (l : list A) :
  Forall (fun a => (f a <= g a)%nat) l ->
  (list_sum (map f l) <= list_sum (map g l))%nat.
Proof. induction 1; simpl; lia. Qed.

Lemma length_newline_indent (level : nat) :
  (1 <= String.length (Json.newline_indent level))%nat.
Proof. unfold Json.newline_indent. simpl. lia. Qed.

Lemma length_value_start (s : string) :
  value_start s = true -> (1 <= String.length s)%nat.
Proof. destruct s; [discriminate | simpl; lia]. Qed.

Lemma cost_le_length : forall (v : pyval) (level : nat),
  (cost v <= String.length (Json.encode level v))%nat.
Proof.
  apply (pyval_nested_ind
           (fun v => forall level,
                (cost v <= String.length (Json.encode level v))%nat)).
  - intros level. simpl. lia.
  - intros [] level; simpl; lia.
  - intros z level. apply length_value_start, value_start_int.
  - intros s level. simpl. lia.
  - intros l IH level. destruct l as [| a l]; [simpl; lia |].
    change (Json.encode level (PList (a :: l)))
      with (String "["
              (Json.newline_indent (S level)
               ++ join (String "," (Json.newline_indent (S level)))
                    (map (Json.encode (S level)) (a :: l))
               ++ Json.newline_indent level ++ "]"))%string.
    change (cost (PList (a :: l))) with (2 + list_sum (map cost (a :: l)))%nat.
    cbn [String.length]. rewrite !length_append.
    pose proof (length_newline_indent (S level)).
    pose proof (length_newline_indent level).
    pose proof (length_join (String "," (Json.newline_indent (S level)))
                  (map (Json.encode (S level)) (a :: l))) as J.
    rewrite map_map in J.
    pose proof (list_sum_le cost
                  (fun x => String.length (Json.encode (S level) x)) (a :: l)) as Sm.
    assert (Fa : Forall (fun x => (cost x <= String.length (Json.encode (S level) x))%nat)
                   (a :: l)).
    { eapply Forall_impl; [| exact IH]. intros x Hx. apply Hx. }
    specialize (Sm Fa). change (String.length "]") with 1%nat. lia.
  - intros d IH level. destruct d as [| kv d]; [simpl; lia |].
    change (Json.encode level (PDict (kv :: d)))
      with (String "{"
              (Json.newline_indent (S level)
               ++ join (String "," (Json.newline_indent (S level)))
                    (map (pair_text (S level)) (kv :: d))
               ++ Json.newline_indent level ++ "}"))%string.
    change (cost (PDict (kv :: d)))
      with (2 + list_sum (map (fun kv => cost (snd kv)) (kv :: d)))%nat.
    cbn [String.length]. rewrite !length_append.
    pose proof (length_newline_indent (S level)).
    pose proof (length_newline_indent level).
    pose proof (length_join (String "," (Json.newline_indent (S level)))
                  (map (pair_text (S level)) (kv :: d))) as J.
    rewrite map_map in J.
    pose proof (list_sum_le (fun kv => cost (snd kv))
                  (fun x => String.length (pair_text (S level) x)) (kv :: d)) as Sm.
    assert (Fa : Forall (fun x => (cost (snd x)
                                   <= String.length (pair_text (S level) x))%nat)
                   (kv :: d)).
    { eapply Forall_impl; [| exact IH]. intros x Hx. unfold pair_text.
      rewrite !length_append. specialize (Hx (Datatypes.S level)). lia. }
    specialize (Sm Fa). change (String.length "}") with 1%nat. lia.
Qed.

Lemma all_chars_append (f : ascii -> bool) (a b : string) :
  all_chars f (a ++ b) = all_chars f a && all_chars f b.
Proof.
  induction a as [| c a IH]; simpl; [reflexivity |].
  rewrite IH, andb_assoc. reflexivity.
Qed.

Lemma plain_escape_char (c : ascii) :
  all_chars Json.plain_byte (Json.escape_char c) = true.
Proof.
  destruct c as [b0 b1 b2 b3 b4 b5 b6 b7].
  destruct b0, b1, b2, b3, b4, b5, b6, b7; reflexivity.
Qed.

Lemma plain_escape (s : string) : all_chars Json.plain_byte (Json.escape s) = true.
Proof.
  induction s as [| c s IH]; [reflexivity |].
  cbn [Json.escape]. rewrite all_chars_append, plain_escape_char, IH.
  reflexivity.
Qed.

Lemma plain_quote (s : string) : all_chars Json.plain_byte (Json.quote s) = true.
Proof.
  unfold Json.quote. cbn [all_chars].
  rewrite all_chars_append, plain_escape. reflexivity.
Qed.

Lemma plain_uint (d : Decimal.uint) :
  all_chars Json.plain_byte (NilEmpty.string_of_uint d) = true.
Proof. induction d; simpl; try rewrite IHd; reflexivity. Qed.

Lemma plain_int (z : Z) :
  all_chars Json.plain_byte (NilZero.string_of_int (Z.to_int z)) = true.
Proof.
  destruct z as [| p | p]; [reflexivity | |]; simpl;
    unfold NilZero.string_of_uint;
    destruct (Pos.to_uint p) eqn:E; try reflexivity;
    rewrite <- E; try apply plain_uint;
    cbn [all_chars]; apply plain_uint.
Qed.

Lemma plain_spaces (n : nat) : all_chars Json.plain_byte (Json.spaces n) = true.
Proof. induction n as [| n IH]; [reflexivity | exact IH]. Qed.

Lemma plain_newline_indent (level : nat) :
  all_chars Json.plain_byte (Json.newline_indent level) = true.
Proof. unfold Json.newline_indent. cbn [all_chars]. apply plain_spaces. Qed.

Lemma plain_join (sep : string) (l : list string) :
  all_chars Json.plain_byte sep = true ->
  Forall (fun x => all_chars Json.plain_byte x = true) l ->
  all_chars Json.plain_byte (join sep l) = true.
Proof.
  intros Hs. induction 1 as [| a l Ha Hl IH]; [reflexivity |].
  destruct l as [| b l]; [exact Ha |].
  change (join sep (a :: b :: l)) with (a ++ sep ++ join sep (b :: l))%string.
  rewrite !all_chars_append, Ha, Hs, IH. reflexivity.
Qed.

Lemma plain_encode : forall (v : pyval) (level : nat),
  all_chars Json.plain_byte (Json.encode level v) = true.
Proof.
  apply (pyval_nested_ind
           (fun v => forall level,
                all_chars Json.plain_byte (Json.encode level v) = true)).
  - reflexivity.
  - intros []; reflexivity.
  - intros z level. apply plain_int.
  - intros s level. apply plain_quote.
  - intros l IH level. destruct l as [| a l]; [reflexivity |].
    change (Json.encode level (PList (a :: l)))
      with (String "["
              (Json.newline_indent (S level)
               ++ join (String "," (Json.newline_indent (S level)))
                    (map (Json.encode (S level)) (a :: l))
               ++ Json.newline_indent level ++ "]"))%string.
    cbn [all_chars]. rewrite !all_chars_append, !plain_newline_indent.
    rewrite plain_join; [reflexivity | exact (plain_newline_indent (S level)) |].
    apply Forall_map. eapply Forall_impl; [| exact IH].
    intros x Hx. apply Hx.
  - intros d IH level. destruct d as [| kv d]; [reflexivity |].
    change (Json.encode level (PDict (kv :: d)))
      with (String "{"
              (Json.newline_indent (S level)
               ++ join (String "," (Json.newline_indent (S level)))
                    (map (pair_text (S level)) (kv :: d))
               ++ Json.newline_indent level ++ "}"))%string.
    cbn [all_chars]. rewrite !all_chars_append, !plain_newline_indent.
    rewrite plain_join; [reflexivity | exact (plain_newline_indent (S level)) |].
    apply Forall_map. eapply Forall_impl; [| exact IH].
    intros x Hx. unfold pair_text.
    rewrite !all_chars_append, plain_quote, Hx. reflexivity.
Qed.

Lemma load_dumps (v : pyval) : wf v -> Json.load (Json.dumps v) = Ok v.
Proof.
  intros W. unfold Json.load, Json.dumps, Json.decode.
  rewrite plain_encode.
  rewrite skip_ws_value by apply value_start_encode.
  rewrite <- (append_empty_r (Json.encode 0 v)) at 2.
  rewrite (wf_round_trips v W _ 0%nat "");
    [reflexivity | | reflexivity].
  pose proof (cost_le_length v 0%nat). lia.
Qed.

Ltac prove_wf :=
  repeat
    lazymatch goal with
    | |- wf (PDict _) => apply wf_dict
    | |- wf (PList _) => apply wf_list
    | |- wf _ => constructor
    | |- Forall _ [] => apply Forall_nil
    | |- Forall _ (_ :: _) => apply Forall_cons
    | |- NoDup [] => apply NoDup_nil
    | |- NoDup (_ :: _) => apply NoDup_cons; [simpl; intuition discriminate |]
    | |- NoDup (map _ _) => cbn [map fst]
    | |- _ => progress cbn [snd]
    end.

(** C3.  The exported JSON text of an event collection decodes to the
    same collection: the same events in the same order, every field
    with its value, the lists as lists of strings.  This holds for all
    events made of [None], booleans, integers, strings, lists and dicts
    (whose keys are distinct, as in any Python dict), hence for every
    record that carries the declared fields with their declared types;
    importing the exported text installs the collection it was
    exported from. *)
Theorem json_round_trip :
  forall E : list pyval,
    Forall wf E ->
    Json.load (Json.dumps (PList E)) = Ok (PList E)
    /\ (forall st st0 : session,
           events st = E ->
           import_json (json_bytes st) st0
           = Ok (mksession E (edit_id st0),
                 Success "Loaded timeline data from JSON.")).
Proof.
  intros E H.
  assert (L : Json.load (Json.dumps (PList E)) = Ok (PList E)).
  { apply load_dumps. constructor. exact H. }
  split; [exact L |].
  intros st st0 <-. unfold import_json, json_bytes. rewrite L. reflexivity.
Qed.

Lemma json_round_trip_witness :
  Forall wf (ev_two_bobs :: year_1900_event :: events demo_final)
  /\ Json.load
       (Json.dumps (PList (ev_two_bobs :: year_1900_event :: events demo_final)))
     = Ok (PList (ev_two_bobs :: year_1900_event :: events demo_final)).
Proof.
  assert (W : Forall wf (ev_two_bobs :: year_1900_event :: events demo_final)).
  { unfold ev_two_bobs, year_1900_event, demo_final. cbn [events]. prove_wf. }
  split; [exact W |].
  exact (proj1 (json_round_trip _ W)).
Defined.

(** * Further properties *)

(** ** Trimming *)

Lemma rstrip_idem (s : string) : rstrip (rstrip s) = rstrip s.
Proof.
  induction s as [| c r IH]; [reflexivity |].
  simpl. destruct (rstrip r) as [| c' r'] eqn:E.
  - destruct (isspace c) eqn:Ec; [reflexivity |]. simpl. rewrite Ec. reflexivity.
  - simpl. simpl in IH. rewrite IH. reflexivity.
Qed.

Lemma lstrip_head (s : string) :
  lstrip s = "" \/ exists c r, lstrip s = String c r /\ isspace c = false.
Proof.
  induction s as [| c r IH]; [left; reflexivity |].
  simpl. destruct (isspace c) eqn:E; [exact IH |].
  right. exists c, r. split; [reflexivity | exact E].
Qed.

Lemma rstrip_head (c : ascii) (r : string) :
  isspace c = false -> exists r', rstrip (String c r) = String c r'.
Proof.
  intros H. simpl. destruct (rstrip r); [rewrite H |]; eexists; reflexivity.
Qed.

Lemma strip_idem (s : string) : strip (strip s) = strip s.
Proof.
  unfold strip. destruct (lstrip_head s) as [E | (c & r & E & Hc)].
  - rewrite E. reflexivity.
  - rewrite E. destruct (rstrip_head c r Hc) as [r' E'].
    rewrite E'. simpl lstrip. rewrite Hc, <- E'. apply rstrip_idem.
Qed.

(** ** Deleting *)

Lemma remove_by_id_filter (target : pyval) (l : list pyval) :
  all_have_id l -> remove_by_id target l = Ok (filter (other_id target) l).
Proof.
  intros H. unfold remove_by_id. apply filterM_pure.
  eapply Forall_impl; [| exact H]. intros e [i Hi].
  unfold other_id. rewrite Hi. reflexivity.
Qed.

Lemma filter_idem {A : Type} (f : A -> bool) (l : list A) :
  filter f (filter f l) = filter f l.
Proof.
  induction l as [| a l IH]; [reflexivity |].
  simpl. destruct (f a) eqn:E; simpl; rewrite ?E, IH; reflexivity.
Qed.

Lemma filter_keeps_all {A : Type} (f : A -> bool) (l : list A) :
  Forall (fun a => f a = true) l -> filter f l = l.
Proof.
  induction 1 as [| a l Ha _ IH]; [reflexivity |].
  simpl. rewrite Ha, IH. reflexivity.
Qed.

Lemma all_have_id_filter (f : pyval -> bool) (l : list pyval) :
  all_have_id l -> all_have_id (filter f l).
Proof.
  unfold all_have_id. rewrite !Forall_forall. intros H e He.
  apply filter_In in He. apply H, He.
Qed.

(** X1.  The "Delete" button of a card, on a store whose events all
    carry an id: the events whose id equals the id of the card are
    removed, all of them, and the others stay in their order; the edit
    pointer is kept.  When no event carries that id the session is
    unchanged, and deleting a second time changes nothing more. *)
Theorem card_delete_removes_matching :
  forall (ev target : pyval) (st : session),
    all_have_id (events st) ->
    py_getitem ev "id" = Ok target ->
    card_delete ev st
    = Ok (mksession (filter (other_id target) (events st)) (edit_id st))
    /\ Forall (fun e => other_id target e = true)
         (filter (other_id target) (events st))
    /\ (Forall (fun e => other_id target e = true) (events st) ->
        card_delete ev st = Ok st)
    /\ (st' <- card_delete ev st ;; card_delete ev st') = card_delete ev st.
Proof.
  intros ev target st H I.
  assert (E : card_delete ev st
              = Ok (mksession (filter (other_id target) (events st))
                      (edit_id st))).
  { unfold card_delete. rewrite I. cbn [bind].
    rewrite (remove_by_id_filter target _ H). reflexivity. }
  split; [exact E |]. split; [| split].
  - apply Forall_forall. intros e He. apply filter_In in He. apply He.
  - intros N. rewrite E. destruct st as [evs ed]. cbn [events edit_id] in *.
    rewrite (filter_keeps_all _ _ N). reflexivity.
  - rewrite E. cbn [bind]. unfold card_delete. rewrite I. cbn [bind events edit_id].
    rewrite (remove_by_id_filter target _ (all_have_id_filter _ _ H)).
    cbn [bind]. rewrite filter_idem. reflexivity.
Qed.

Lemma card_delete_removes_matching_witness :
  card_delete ev_undated three_event_store
  = Ok (mksession [ev_1850; ev_1820_06] PNone).
Proof.
  refine (proj1 (card_delete_removes_matching ev_undated (PStr "b")
                   three_event_store _ eq_refl)).
  repeat constructor; eexists; reflexivity.
Defined.

(** ** String ids *)

Lemma id_of_getitem (e : pyval) (s : string) :
  id_of e = Some s -> py_getitem e "id" = Ok (PStr s).
Proof.
  unfold id_of. destruct (py_getitem e "id") as [[] | |]; try discriminate.
  intros H. injection H as <-. reflexivity.
Qed.

Lemma ids_app (l1 l2 : list pyval) : ids (l1 ++ l2) = (ids l1 ++ ids l2)%list.
Proof.
  induction l1 as [| e l1 IH]; [reflexivity |].
  simpl. destruct (id_of e); simpl; rewrite IH; reflexivity.
Qed.

Lemma ids_in (e : pyval) (s : string) (l : list pyval) :
  In e l -> id_of e = Some s -> In s (ids l).
Proof.
  induction l as [| x l IH]; simpl; [tauto |].
  intros [-> | H] E.
  - rewrite E. left. reflexivity.
  - destruct (id_of x); [right |]; apply IH; assumption.
Qed.

Lemma unique_ids_have_id (l : list pyval) : unique_ids l -> all_have_id l.
Proof.
  intros [H _]. eapply Forall_impl; [| exact H]. intros e He.
  destruct (id_of e) as [s |] eqn:E; [| contradiction].
  exists (PStr s). apply id_of_getitem, E.
Qed.

(** In a store with distinct string ids, the events around [e] carry
    other ids than [e]. *)
Lemma unique_ids_split (l1 l2 : list pyval) (e : pyval) (s : string) :
  unique_ids (l1 ++ e :: l2) -> id_of e = Some s ->
  Forall (fun x => exists sx, id_of x = Some sx /\ sx <> s) l1
  /\ Forall (fun x => exists sx, id_of x = Some sx /\ sx <> s) l2.
Proof.
  intros [H N] E. rewrite ids_app in N. simpl in N. rewrite E in N.
  apply Forall_app in H. destruct H as [H1 H2].
  inversion H2 as [| ? ? _ H2']; subst.
  pose proof (NoDup_remove_2 _ _ _ N) as Nin.
  split; apply Forall_forall; intros x Hx.
  - pose proof (proj1 (Forall_forall _ _) H1 x Hx) as Hi.
    destruct (id_of x) as [sx |] eqn:Ex; [| contradiction].
    exists sx. split; [reflexivity |]. intros ->. apply Nin.
    apply in_or_app. left. eapply ids_in; eassumption.
  - pose proof (proj1 (Forall_forall _ _) H2' x Hx) as Hi.
    destruct (id_of x) as [sx |] eqn:Ex; [| contradiction].
    exists sx. split; [reflexivity |]. intros ->. apply Nin.
    apply in_or_app. right. eapply ids_in; eassumption.
Qed.

Lemma find_by_id_skips (s : string) (l : list pyval) (rest : list pyval) :
  Forall (fun x => exists sx, id_of x = Some sx /\ sx <> s) l ->
  find_by_id (PStr s) (l ++ rest) = find_by_id (PStr s) rest.
Proof.
  induction 1 as [| x l (sx & Ex & Nx) _ IH]; [reflexivity |].
  simpl. rewrite (id_of_getitem _ _ Ex). cbn [bind py_eq].
  apply String.eqb_neq in Nx. rewrite Nx. exact IH.
Qed.

Lemma find_by_id_here (s : string) (e : pyval) (rest : list pyval) :
  id_of e = Some s -> find_by_id (PStr s) (e :: rest) = Ok (Some e).
Proof.
  intros E. simpl. rewrite (id_of_getitem _ _ E). cbn [bind py_eq].
  rewrite String.eqb_refl. reflexivity.
Qed.

Lemma mapM_app {A B : Type} (f : A -> outcome B) (l1 l2 : list A)
    (r1 r2 : list B) :
  mapM f l1 = Ok r1 -> mapM f l2 = Ok r2 -> mapM f (l1 ++ l2) = Ok (r1 ++ r2)%list.
Proof.
  revert r1. induction l1 as [| a l1 IH]; simpl; intros r1 H1 H2.
  - injection H1 as <-. exact H2.
  - apply bind_ok in H1. destruct H1 as (b & Hb & H1).
    apply bind_ok in H1. destruct H1 as (bs & Hbs & H1). injection H1 as <-.
    rewrite Hb. cbn [bind]. rewrite (IH bs Hbs H2). reflexivity.
Qed.

Lemma replace_by_id_others (s : string) (new : pyval) (l : list pyval) :
  Forall (fun x => exists sx, id_of x = Some sx /\ sx <> s) l ->
  replace_by_id (PStr s) new l = Ok l.
Proof.
  unfold replace_by_id. induction 1 as [| x l (sx & Ex & Nx) _ IH];
    [reflexivity |].
  simpl. rewrite (id_of_getitem _ _ Ex). cbn [bind py_eq].
  apply String.eqb_neq in Nx. rewrite Nx, IH. reflexivity.
Qed.

Lemma replace_by_id_unique (s : string) (new e : pyval) (l1 l2 : list pyval) :
  unique_ids (l1 ++ e :: l2) -> id_of e = Some s ->
  replace_by_id (PStr s) new (l1 ++ e :: l2) = Ok (l1 ++ new :: l2)%list.
Proof.
  intros U E. destruct (unique_ids_split _ _ _ _ U E) as [H1 H2].
  unfold replace_by_id. apply mapM_app.
  - apply (replace_by_id_others s new l1 H1).
  - simpl. rewrite (id_of_getitem _ _ E). cbn [bind py_eq].
    rewrite String.eqb_refl.
    pose proof (replace_by_id_others s new l2 H2) as R.
    unfold replace_by_id in R. rewrite R. reflexivity.
Qed.

Lemma filter_other_id_others (s : string) (l : list pyval) :
  Forall (fun x => exists sx, id_of x = Some sx /\ sx <> s) l ->
  filter (other_id (PStr s)) l = l.
Proof.
  intros H. apply filter_keeps_all. eapply Forall_impl; [| exact H].
  intros x (sx & Ex & Nx). unfold other_id.
  rewrite (id_of_getitem _ _ Ex). cbn [py_eq].
  apply String.eqb_neq in Nx. rewrite Nx. reflexivity.
Qed.

Lemma filter_other_id_unique (s : string) (e : pyval) (l1 l2 : list pyval) :
  unique_ids (l1 ++ e :: l2) -> id_of e = Some s ->
  filter (other_id (PStr s)) (l1 ++ e :: l2) = (l1 ++ l2)%list.
Proof.
  intros U E. destruct (unique_ids_split _ _ _ _ U E) as [H1 H2].
  rewrite filter_app. cbn [filter]. unfold other_id at 2.
  rewrite (id_of_getitem _ _ E). cbn [py_eq]. rewrite String.eqb_refl.
  cbn [negb]. rewrite !filter_other_id_others by assumption. reflexivity.
Qed.

Lemma event_with_id_truthy (e : pyval) (s : string) :
  id_of e = Some s -> truthy e = true.
Proof.
  unfold id_of, py_getitem. destruct e as [| | | | | d]; try discriminate.
  destruct d; [discriminate | reflexivity].
Qed.

Lemma editing_event_unique (s : string) (e : pyval) (l1 l2 : list pyval) :
  unique_ids (l1 ++ e :: l2) -> id_of e = Some s -> s <> "" ->
  editing_event (mksession (l1 ++ e :: l2) (PStr s)) = Ok (Some e).
Proof.
  intros U E N. unfold editing_event. cbn [edit_id events truthy].
  apply String.eqb_neq in N. rewrite N. cbn [negb].
  destruct (unique_ids_split _ _ _ _ U E) as [H1 _].
  rewrite (find_by_id_skips s l1 _ H1). apply find_by_id_here, E.
Qed.

Lemma payload_when_editing (uuid : string) (e i : pyval) (f : form) :
  truthy e = true -> py_getitem e "id" = Ok i ->
  payload uuid (Some e) f
  = Ok [ ("id", i);
         ("title", PStr (strip (title f)));
         ("date_text", PStr (strip (date_text f)));
         ("start_date", PStr (strip (start_date f)));
         ("end_date", PStr (strip (end_date f)));
         ("era", PStr (strip (era f)));
         ("story", PStr (strip (story f)));
         ("characters", PList (map PStr (normalize_text (characters_text f))));
         ("categories", PList (map PStr (normalize_text (categories_text f))));
         ("notes", PStr (strip (notes f)));
         ("sort_index", PInt (sort_index f)) ].
Proof.
  intros T I. unfold payload, when_editing. rewrite T, I. cbn [bind].
  rewrite !ensure_list_str. reflexivity.
Qed.

Lemma unique_ids_replace (s : string) (new e : pyval) (l1 l2 : list pyval) :
  unique_ids (l1 ++ e :: l2) -> id_of e = Some s -> id_of new = Some s ->
  unique_ids (l1 ++ new :: l2).
Proof.
  intros [H N] E En. split.
  - apply Forall_app in H. destruct H as [H1 H2].
    inversion H2 as [| ? ? _ H2']; subst.
    apply Forall_app. split; [exact H1 |]. constructor; [| exact H2'].
    rewrite En. discriminate.
  - rewrite ids_app in *. simpl in *. rewrite E in N. rewrite En. exact N.
Qed.

(** ** Saving while an event is open *)

Lemma strs_of_map (ss : list string) : strs (map PStr ss) = Some ss.
Proof.
  induction ss as [| s ss IH]; [reflexivity |]. simpl. rewrite IH. reflexivity.
Qed.

Lemma view_payload (i : pyval) (f : form) :
  view (PDict [ ("id", i);
                ("title", PStr (strip (title f)));
                ("date_text", PStr (strip (date_text f)));
                ("start_date", PStr (strip (start_date f)));
                ("end_date", PStr (strip (end_date f)));
                ("era", PStr (strip (era f)));
                ("story", PStr (strip (story f)));
                ("characters", PList (map PStr (normalize_text (characters_text f))));
                ("categories", PList (map PStr (normalize_text (categories_text f))));
                ("notes", PStr (strip (notes f)));
                ("sort_index", PInt (sort_index f)) ])
  = Some (entered f).
Proof.
  unfold view, str_field, list_field, int_field.
  cbn [lookup String.eqb Ascii.eqb Bool.eqb].
  rewrite !strs_of_map. reflexivity.
Qed.

(** X2.  "Save Event" while an event of a store with distinct string
    ids is open for editing: the handler succeeds, the open event is
    replaced where it stands by a record that keeps its id and holds the
    trimmed and normalized values of the form, every other event keeps
    its place, the edit pointer is cleared, and the ids stay distinct.
    The fresh id drawn for the template is not used. *)
Theorem save_updates_in_place :
  forall (uuid s : string) (f : form) (e : pyval) (l1 l2 : list pyval),
    unique_ids (l1 ++ e :: l2) ->
    id_of e = Some s ->
    s <> "" ->
    nonempty (strip (title f)) = true ->
    exists p,
      save_event uuid f (mksession (l1 ++ e :: l2) (PStr s))
      = Ok (mksession (l1 ++ PDict p :: l2) PNone, Success "Event updated.")
      /\ id_of (PDict p) = Some s
      /\ view (PDict p) = Some (entered f)
      /\ unique_ids (l1 ++ PDict p :: l2).
Proof.
  intros uuid s f e l1 l2 U E N T.
  pose proof (event_with_id_truthy e s E) as Te.
  pose proof (id_of_getitem e s E) as Ie.
  eexists. split; [| split; [| split]].
  - unfold save_event. rewrite (editing_event_unique s e l1 l2 U E N).
    cbn [bind]. rewrite T. cbn [negb].
    rewrite (payload_when_editing uuid e (PStr s) f Te Ie). cbn [bind].
    unfold when_editing. rewrite Te, Ie. cbn [bind events].
    rewrite (replace_by_id_unique s _ e l1 l2 U E). reflexivity.
  - reflexivity.
  - apply view_payload.
  - eapply unique_ids_replace; [exact U | exact E | reflexivity].
Qed.

Lemma save_updates_in_place_witness :
  exists p,
    save_event "u-9" form_of_alice editing_undated
    = Ok (mksession [ev_1850; PDict p; ev_1820_06] PNone,
          Success "Event updated.")
    /\ id_of (PDict p) = Some "b"
    /\ view (PDict p) = Some (entered form_of_alice)
    /\ unique_ids [ev_1850; PDict p; ev_1820_06].
Proof.
  apply (save_updates_in_place "u-9" "b" form_of_alice ev_undated
           [ev_1850] [ev_1820_06]).
  - split.
    + repeat constructor; discriminate.
    + simpl. repeat constructor; simpl; intuition discriminate.
  - reflexivity.
  - discriminate.
  - reflexivity.
Defined.

(** X3.  "Delete This Event" while an event of a store with distinct
    string ids is open for editing: exactly that event is removed, the
    others keep their order, the edit pointer is cleared, the ids stay
    distinct and the deleted id is gone from the store. *)
Theorem delete_this_event_removes_edited :
  forall (s : string) (e : pyval) (l1 l2 : list pyval),
    unique_ids (l1 ++ e :: l2) ->
    id_of e = Some s ->
    s <> "" ->
    delete_this_event (mksession (l1 ++ e :: l2) (PStr s))
    = Ok (mksession (l1 ++ l2) PNone, Some (Success "Event deleted."))
    /\ unique_ids (l1 ++ l2)
    /\ ~ In s (ids (l1 ++ l2)).
Proof.
  intros s e l1 l2 U E N.
  pose proof (event_with_id_truthy e s E) as Te.
  pose proof (id_of_getitem e s E) as Ie.
  split; [| split].
  - unfold delete_this_event. rewrite (editing_event_unique s e l1 l2 U E N).
    cbn [bind]. unfold when_editing. rewrite Te, Ie. cbn [bind events].
    rewrite (remove_by_id_filter _ _ (unique_ids_have_id _ U)).
    rewrite (filter_other_id_unique s e l1 l2 U E). reflexivity.
  - destruct U as [H D]. split.
    + apply Forall_app in H. destruct H as [H1 H2].
      inversion H2; subst. apply Forall_app. split; assumption.
    + rewrite ids_app in *. simpl in D. rewrite E in D.
      eapply NoDup_remove_1, D.
  - destruct U as [_ D]. rewrite ids_app in *. simpl in D. rewrite E in D.
    eapply NoDup_remove_2, D.
Qed.

Lemma delete_this_event_removes_edited_witness :
  delete_this_event editing_undated
  = Ok (mksession [ev_1850; ev_1820_06] PNone, Some (Success "Event deleted."))
  /\ unique_ids [ev_1850; ev_1820_06]
  /\ ~ In "b" (ids [ev_1850; ev_1820_06]).
Proof.
  apply (delete_this_event_removes_edited "b" ev_undated [ev_1850] [ev_1820_06]).
  - split.
    + repeat constructor; discriminate.
    + simpl. repeat constructor; simpl; intuition discriminate.
  - reflexivity.
  - discriminate.
Defined.

(** ** Blank titles *)

Lemma lstrip_blank (s : string) : all_chars isspace s = true -> lstrip s = "".
Proof.
  induction s as [| c r IH]; [reflexivity |]. simpl.
  destruct (isspace c); [exact IH | discriminate].
Qed.

Lemma strip_blank (s : string) : all_chars isspace s = true -> strip s = "".
Proof. intros H. unfold strip. rewrite (lstrip_blank s H). reflexivity. Qed.

Lemma lstrip_not_blank (s : string) :
  all_chars isspace s = false ->
  exists c r, lstrip s = String c r /\ isspace c = false.
Proof.
  induction s as [| c r IH]; [discriminate |]. simpl.
  destruct (isspace c) eqn:E; [exact IH |].
  intros _. exists c, r. split; [reflexivity | exact E].
Qed.

Lemma strip_not_blank (s : string) :
  all_chars isspace s = false -> nonempty (strip s) = true.
Proof.
  intros H. destruct (lstrip_not_blank s H) as (c & r & E & Hc).
  unfold strip. rewrite E. destruct (rstrip_head c r Hc) as [r' ->].
  reflexivity.
Qed.

(** ** Handlers on a store whose events have ids *)

Lemma find_by_id_total (target : pyval) (l : list pyval) :
  all_have_id l ->
  exists r, find_by_id target l = Ok r /\ forall e, r = Some e -> In e l.
Proof.
  induction 1 as [| x l [i Hi] _ (r & IH & Hin)].
  - exists None. split; [reflexivity | discriminate].
  - simpl. rewrite Hi. cbn [bind]. destruct (py_eq i target).
    + exists (Some x). split; [reflexivity |].
      intros e H. injection H as <-. left. reflexivity.
    + exists r. split; [exact IH |]. intros e H. right. apply Hin, H.
Qed.

Lemma editing_event_total (st : session) :
  all_have_id (events st) ->
  exists r, editing_event st = Ok r /\ forall e, r = Some e -> In e (events st).
Proof.
  intros H. unfold editing_event. destruct (truthy (edit_id st)).
  - apply find_by_id_total, H.
  - exists None. split; [reflexivity | discriminate].
Qed.

Lemma replace_by_id_length (target new : pyval) (l : list pyval) :
  all_have_id l ->
  exists evs, replace_by_id target new l = Ok evs
              /\ List.length evs = List.length l.
Proof.
  unfold replace_by_id. induction 1 as [| x l [i Hi] _ (evs & IH & L)].
  - exists []. split; reflexivity.
  - simpl. rewrite Hi, IH. cbn [bind]. eexists. split; [reflexivity |].
    simpl. rewrite L. reflexivity.
Qed.

Lemma payload_total (uuid : string) (ed : option pyval) (f : form) :
  (forall e, ed = Some e -> exists i, py_getitem e "id" = Ok i) ->
  exists p, payload uuid ed f = Ok p.
Proof.
  intros H. unfold payload. rewrite !ensure_list_str.
  destruct (when_editing ed) as [e |] eqn:W.
  - assert (ed = Some e) as ->.
    { unfold when_editing in W. destruct ed as [x |]; [| discriminate].
      destruct (truthy x); [| discriminate]. congruence. }
    destruct (H e eq_refl) as [i Hi]. rewrite Hi. cbn [bind].
    eexists. reflexivity.
  - cbn [bind]. eexists. reflexivity.
Qed.

(** X4.  "Save Event" on a store whose events all carry an id never
    raises.  A title made of whitespace only is refused: the session is
    left as it was and the warning is shown.  Any other title is
    accepted: either one event is appended, or the store keeps its
    length and the edit pointer is cleared. *)
Theorem save_event_validates_title :
  forall (uuid : string) (f : form) (st : session),
    all_have_id (events st) ->
    (all_chars isspace (title f) = true ->
     save_event uuid f st = Ok (st, Warning "Title is required."))
    /\ (all_chars isspace (title f) = false ->
        exists st',
          (save_event uuid f st = Ok (st', Success "Event added.")
           /\ List.length (events st') = S (List.length (events st))
           /\ edit_id st' = edit_id st)
          \/ (save_event uuid f st = Ok (st', Success "Event updated.")
              /\ List.length (events st') = List.length (events st)
              /\ edit_id st' = PNone)).
Proof.
  intros uuid f st H.
  destruct (editing_event_total st H) as (ed & Eed & Hin).
  assert (Hid : forall e, ed = Some e -> exists i, py_getitem e "id" = Ok i).
  { intros e He. apply (proj1 (Forall_forall _ _) H e), Hin, He. }
  unfold save_event. rewrite Eed. cbn [bind]. split; intros T.
  - rewrite (strip_blank _ T). reflexivity.
  - rewrite (strip_not_blank _ T). cbn [negb].
    destruct (payload_total uuid ed f Hid) as [p ->]. cbn [bind].
    destruct (when_editing ed) as [e |] eqn:W.
    + assert (ed = Some e) as ->.
      { unfold when_editing in W. destruct ed as [x |]; [| discriminate].
        destruct (truthy x); [| discriminate]. congruence. }
      destruct (Hid e eq_refl) as [i Hi]. rewrite Hi. cbn [bind].
      destruct (replace_by_id_length i (PDict p) (events st) H)
        as (evs & -> & L).
      cbn [bind]. eexists. right. split; [reflexivity |].
      split; [exact L | reflexivity].
    + eexists. left. split; [reflexivity |]. split; [| reflexivity].
      cbn [events]. rewrite length_app. simpl. lia.
Qed.

Lemma save_event_validates_title_witness :
  save_event "u-1" blank_form three_event_store
  = Ok (three_event_store, Warning "Title is required.").
Proof.
  refine (proj1 (save_event_validates_title "u-1" blank_form
                   three_event_store _) eq_refl).
  repeat constructor; eexists; reflexivity.
Defined.

(** ** Adding *)

Lemma unique_ids_append (l : list pyval) (e : pyval) (s : string) :
  unique_ids l -> id_of e = Some s -> ~ In s (ids l) -> unique_ids (l ++ [e]).
Proof.
  intros [H D] E N. split.
  - apply Forall_app. split; [exact H |]. constructor; [| constructor].
    rewrite E. discriminate.
  - rewrite ids_app. simpl. rewrite E. apply NoDup_app.
    + exact D.
    + repeat constructor. simpl. tauto.
    + intros a Ha [<- | []]. apply N, Ha.
Qed.

Lemma find_by_id_fresh (s : string) (l : list pyval) :
  unique_ids l -> ~ In s (ids l) ->
  Forall (fun x => exists sx, id_of x = Some sx /\ sx <> s) l.
Proof.
  intros [H _] N. apply Forall_forall. intros x Hx.
  pose proof (proj1 (Forall_forall _ _) H x Hx) as Hi.
  destruct (id_of x) as [sx |] eqn:Ex; [| contradiction].
  exists sx. split; [reflexivity |]. intros ->. apply N.
  eapply ids_in; eassumption.
Qed.

(** X5.  "Save Event" with nothing open, a title that is not blank and
    a fresh id, on a store with distinct string ids: one record is
    appended after the events already stored; it carries the fresh id
    and the trimmed and normalized values of the form; the ids stay
    distinct; and the "Edit" button of its card then opens exactly this
    record. *)
Theorem save_appends_and_edit_finds :
  forall (uuid : string) (f : form) (l : list pyval),
    unique_ids l ->
    ~ In uuid (ids l) ->
    uuid <> "" ->
    nonempty (strip (title f)) = true ->
    exists p,
      save_event uuid f (mksession l PNone)
      = Ok (mksession (l ++ [PDict p]) PNone, Success "Event added.")
      /\ id_of (PDict p) = Some uuid
      /\ view (PDict p) = Some (entered f)
      /\ unique_ids (l ++ [PDict p])
      /\ (st' <- card_edit (PDict p) (mksession (l ++ [PDict p]) PNone) ;;
          editing_event st') = Ok (Some (PDict p)).
Proof.
  intros uuid f l U N Ne T. eexists.
  split; [| split; [| split; [| split]]].
  - unfold save_event, editing_event. cbn [edit_id truthy bind]. rewrite T.
    cbn [negb]. rewrite payload_adding. cbn [bind when_editing events edit_id].
    reflexivity.
  - reflexivity.
  - apply view_payload.
  - eapply unique_ids_append; [exact U | reflexivity | exact N].
  - unfold card_edit. cbn [py_getitem lookup String.eqb Ascii.eqb Bool.eqb bind events].
    unfold editing_event. cbn [edit_id events truthy].
    apply String.eqb_neq in Ne. rewrite Ne. cbn [negb].
    rewrite (find_by_id_skips uuid l _ (find_by_id_fresh uuid l U N)).
    apply find_by_id_here. reflexivity.
Qed.

Lemma save_appends_and_edit_finds_witness :
  exists p,
    save_event "u-1" form_of_bob three_event_store
    = Ok (mksession ([ev_1850; ev_undated; ev_1820_06] ++ [PDict p]) PNone,
          Success "Event added.")
    /\ id_of (PDict p) = Some "u-1"
    /\ view (PDict p) = Some (entered form_of_bob)
    /\ unique_ids ([ev_1850; ev_undated; ev_1820_06] ++ [PDict p])
    /\ (st' <- card_edit (PDict p)
                 (mksession ([ev_1850; ev_undated; ev_1820_06] ++ [PDict p])
                    PNone) ;;
        editing_event st') = Ok (Some (PDict p)).
Proof.
  apply (save_appends_and_edit_finds "u-1" form_of_bob
           [ev_1850; ev_undated; ev_1820_06]).
  - split.
    + repeat constructor; discriminate.
    + simpl. repeat constructor; simpl; intuition discriminate.
  - simpl. intuition discriminate.
  - discriminate.
  - reflexivity.
Defined.

(** ** Distinct ids along a sequence of button presses *)

Lemma nodup_app_disjoint {A : Type} (a b : list A) :
  NoDup (a ++ b) -> forall x, In x a -> ~ In x b.
Proof.
  induction a as [| y a IH]; simpl; intros D x Hx; [tauto |].
  inversion D as [| ? ? Hn D']; subst. destruct Hx as [-> | Hx].
  - intros Hb. apply Hn, in_or_app. right. exact Hb.
  - apply IH; assumption.
Qed.

Lemma ids_filter_incl (keep : pyval -> bool) (l : list pyval) :
  incl (ids (filter keep l)) (ids l).
Proof.
  induction l as [| x l IH]; simpl; [apply incl_refl |].
  destruct (keep x); simpl; destruct (id_of x).
  - intros a [<- | Ha]; [left; reflexivity | right; apply IH, Ha].
  - exact IH.
  - intros a Ha. right. apply IH, Ha.
  - exact IH.
Qed.

Lemma unique_ids_filter (keep : pyval -> bool) (l : list pyval) :
  unique_ids l -> unique_ids (filter keep l).
Proof.
  intros [H D]. split.
  - apply Forall_forall. intros x Hx. apply filter_In in Hx.
    apply (proj1 (Forall_forall _ _) H x), Hx.
  - clear H. induction l as [| x l IH]; simpl; [constructor |].
    simpl in D. destruct (id_of x) as [sx |] eqn:E.
    + inversion D as [| ? ? Hn D']; subst.
      destruct (keep x); simpl; rewrite ?E; [constructor |]; auto.
      intros Hc. apply Hn. eapply ids_filter_incl, Hc.
    + destruct (keep x); simpl; rewrite ?E; auto.
Qed.

Lemma when_editing_found (ed : option pyval) (s : string) (e : pyval) :
  ed = Some e -> id_of e = Some s -> when_editing ed = Some e.
Proof.
  intros -> E. unfold when_editing. rewrite (event_with_id_truthy e s E).
  reflexivity.
Qed.

Lemma id_of_in (l : list pyval) (e : pyval) :
  unique_ids l -> In e l -> exists s, id_of e = Some s.
Proof.
  intros [H _] Hin. pose proof (proj1 (Forall_forall _ _) H e Hin) as Hi.
  cbv beta in Hi.
  destruct (id_of e) as [s |]; [exists s; reflexivity | congruence].
Qed.

Lemma save_event_unique (uuid : string) (f : form) (st : session) :
  unique_ids (events st) -> ~ In uuid (ids (events st)) ->
  exists r,
    save_event uuid f st = Ok r
    /\ unique_ids (events (fst r))
    /\ incl (ids (events (fst r))) (uuid :: ids (events st)).
Proof.
  intros U N.
  destruct (editing_event_total st (unique_ids_have_id _ U)) as (ed & Eed & Hin).
  unfold save_event. rewrite Eed. cbn [bind].
  destruct (nonempty (strip (title f))); cbn [negb].
  2:{ eexists. split; [reflexivity |]. split; [exact U |].
      apply incl_tl, incl_refl. }
  destruct ed as [e |].
  - destruct (id_of_in _ e U (Hin e eq_refl)) as [s E].
    destruct (in_split _ _ (Hin e eq_refl)) as (l1 & l2 & L).
    rewrite L in U.
    rewrite (payload_when_editing uuid e (PStr s) f
               (event_with_id_truthy e s E) (id_of_getitem e s E)).
    cbn [bind]. rewrite (when_editing_found _ s e eq_refl E).
    rewrite (id_of_getitem e s E). cbn [bind]. rewrite L.
    rewrite (replace_by_id_unique s _ e l1 l2 U E). cbn [bind].
    eexists. split; [reflexivity |]. cbn [fst events]. split.
    + eapply unique_ids_replace; [exact U | exact E | reflexivity].
    + rewrite !ids_app. simpl. rewrite E. apply incl_tl, incl_refl.
  - rewrite payload_adding. cbn [bind when_editing].
    eexists. split; [reflexivity |]. cbn [fst events]. split.
    + eapply unique_ids_append; [exact U | reflexivity | exact N].
    + rewrite ids_app. simpl. intros a Ha. apply in_app_or in Ha.
      destruct Ha as [Ha | [<- | []]]; [right; exact Ha | left; reflexivity].
Qed.

Lemma delete_this_event_unique (st : session) :
  unique_ids (events st) ->
  exists r,
    delete_this_event st = Ok r
    /\ unique_ids (events (fst r))
    /\ incl (ids (events (fst r))) (ids (events st)).
Proof.
  intros U.
  destruct (editing_event_total st (unique_ids_have_id _ U)) as (ed & Eed & Hin).
  unfold delete_this_event. rewrite Eed. cbn [bind].
  destruct ed as [e |].
  - destruct (id_of_in _ e U (Hin e eq_refl)) as [s E].
    rewrite (when_editing_found _ s e eq_refl E).
    rewrite (id_of_getitem e s E). cbn [bind].
    rewrite (remove_by_id_filter _ _ (unique_ids_have_id _ U)). cbn [bind].
    eexists. split; [reflexivity |]. cbn [fst events].
    split; [apply unique_ids_filter, U | apply ids_filter_incl].
  - cbn [when_editing]. eexists. split; [reflexivity |].
    split; [exact U | apply incl_refl].
Qed.

Lemma step_unique (a : action) (st : session) :
  pressed a -> unique_ids (events st) ->
  (forall uuid, In uuid (saved_ids [a]) -> ~ In uuid (ids (events st))) ->
  exists st',
    step a st = Ok st'
    /\ unique_ids (events st')
    /\ incl (ids (events st')) (saved_ids [a] ++ ids (events st)).
Proof.
  intros P U N. destruct a as [uuid f | | | ev | ev | up]; cbn [step saved_ids].
  - destruct (save_event_unique uuid f st U (N uuid (or_introl eq_refl)))
      as (r & -> & U' & I).
    cbn [bind]. exists (fst r). split; [reflexivity |]. split; assumption.
  - exists (reset_form st). split; [reflexivity |].
    split; [exact U | apply incl_refl].
  - destruct (delete_this_event_unique st U) as (r & -> & U' & I).
    cbn [bind]. exists (fst r). split; [reflexivity |]. split; assumption.
  - destruct P as [i Hi]. unfold card_edit. rewrite Hi. cbn [bind].
    eexists. split; [reflexivity |]. split; [exact U | apply incl_refl].
  - destruct P as [i Hi]. unfold card_delete. rewrite Hi. cbn [bind].
    rewrite (remove_by_id_filter _ _ (unique_ids_have_id _ U)). cbn [bind].
    eexists. split; [reflexivity |]. cbn [events].
    split; [apply unique_ids_filter, U | apply ids_filter_incl].
  - destruct P.
Qed.

Lemma saved_ids_cons (a : action) (rest : list action) :
  saved_ids (a :: rest) = (saved_ids [a] ++ saved_ids rest)%list.
Proof. destruct a; reflexivity. Qed.

(** X6.  A sequence of button presses without an upload, on a store
    with distinct string ids, in which every "Save Event" draws an id
    that is new (new to the store and to the other saves) and every
    card button is pressed on an event that has an id: no handler
    raises, the ids of the resulting store are distinct again, and each
    of them was in the store at the start or was drawn by a save. *)
Theorem run_keeps_ids_unique :
  forall (actions : list action) (st : session),
    Forall pressed actions ->
    unique_ids (events st) ->
    NoDup (saved_ids actions ++ ids (events st)) ->
    exists st',
      run actions st = Ok st'
      /\ unique_ids (events st')
      /\ incl (ids (events st')) (saved_ids actions ++ ids (events st)).
Proof.
  induction actions as [| a rest IH]; intros st P U D.
  - exists st. split; [reflexivity |]. split; [exact U | apply incl_refl].
  - inversion P as [| ? ? Pa Pr]; subst.
    rewrite saved_ids_cons, <- app_assoc in D.
    destruct (step_unique a st Pa U) as (st1 & S1 & U1 & I1).
    { intros uuid Hu Hc. eapply (nodup_app_disjoint _ _ D); [exact Hu |].
      apply in_or_app. right. exact Hc. }
    destruct (IH st1 Pr U1) as (st' & R & U' & I').
    { apply NoDup_app.
      - eapply NoDup_app_remove_r, NoDup_app_remove_l, D.
      - apply U1.
      - intros x Hx Hc. apply I1, in_app_or in Hc. destruct Hc as [Hc | Hc].
        + eapply (nodup_app_disjoint _ _ D); [exact Hc |].
          apply in_or_app. left. exact Hx.
        + apply NoDup_app_remove_l in D.
          eapply (nodup_app_disjoint _ _ D); eassumption. }
    exists st'. cbn [run]. rewrite S1. cbn [bind]. split; [exact R |].
    split; [exact U' |].
    rewrite saved_ids_cons, <- app_assoc. intros x Hx.
    apply I', in_app_or in Hx. destruct Hx as [Hx | Hx].
    + apply in_or_app. right. apply in_or_app. left. exact Hx.
    + apply I1, in_app_or in Hx. destruct Hx as [Hx | Hx];
        apply in_or_app; [left | right; apply in_or_app; right]; exact Hx.
Qed.

Lemma run_keeps_ids_unique_witness :
  exists st',
    run demo_script empty_session = Ok st'
    /\ unique_ids (events st')
    /\ incl (ids (events st'))
         (saved_ids demo_script ++ ids (events empty_session)).
Proof.
  apply (run_keeps_ids_unique demo_script empty_session).
  - repeat constructor; eexists; reflexivity.
  - split; constructor.
  - simpl. repeat constructor; simpl; intuition discriminate.
Defined.

(** ** The sorted arrangement is unique *)

Lemma key_le_antisym (a b : skey) : key_le a b -> key_le b a -> a = b.
Proof.
  destruct a as [[d1 i1] t1], b as [[d2 i2] t2]. unfold key_le.
  intros [H | (-> & [H | (-> & H)])] [H' | (E & [H' | (E' & H')])];
    try (exfalso; eapply date_lt_asym; eassumption);
    try (subst; exfalso; eapply date_lt_irrefl; eassumption);
    try lia.
  rewrite (String.leb_antisym _ _ H H'). reflexivity.
Qed.

Lemma skey_eqb_refl (k : skey) : skey_eqb k k = true.
Proof. apply skey_eqb_eq. reflexivity. Qed.

Lemma with_key_head (x : pyval) (r : list pyval) :
  with_key (event_key x) (x :: r) = x :: with_key (event_key x) r.
Proof. unfold with_key. simpl. rewrite skey_eqb_refl. reflexivity. Qed.

Lemma with_key_none (l : list pyval) : (forall k, with_key k l = []) -> l = [].
Proof.
  destruct l as [| y r]; [reflexivity |]. intros H.
  specialize (H (event_key y)). rewrite with_key_head in H. discriminate.
Qed.

Lemma with_key_in (k : skey) (e : pyval) (l : list pyval) :
  In e (with_key k l) -> In e l /\ event_key e = k.
Proof.
  unfold with_key. intros H. apply filter_In in H. destruct H as [H E].
  split; [exact H | apply skey_eqb_eq, E].
Qed.

Lemma sorted_head_le (x e : pyval) (r : list pyval) :
  StronglySorted event_le (x :: r) -> In e (x :: r) -> event_le x e.
Proof.
  intros S [<- | H]; [apply key_le_refl |].
  apply StronglySorted_inv in S. destruct S as [_ F].
  apply (proj1 (Forall_forall _ _) F), H.
Qed.

(** Two ascending lists that hold, for every key, the same events in
    the same order are the same list. *)
Lemma sorted_unique (l1 l2 : list pyval) :
  StronglySorted event_le l1 -> StronglySorted event_le l2 ->
  (forall k, with_key k l1 = with_key k l2) -> l1 = l2.
Proof.
  revert l2. induction l1 as [| x r1 IH]; intros l2 S1 S2 H.
  - symmetry. apply with_key_none. intros k. rewrite <- H. reflexivity.
  - destruct l2 as [| y r2].
    + apply with_key_none. intros k. rewrite H. reflexivity.
    + assert (Hy : In y (x :: r1)).
      { assert (I : In y (with_key (event_key y) (y :: r2)))
          by (rewrite with_key_head; left; reflexivity).
        rewrite <- H in I. apply with_key_in in I. apply I. }
      assert (Hx : In x (y :: r2)).
      { assert (I : In x (with_key (event_key x) (x :: r1)))
          by (rewrite with_key_head; left; reflexivity).
        rewrite H in I. apply with_key_in in I. apply I. }
      assert (K : event_key x = event_key y).
      { apply key_le_antisym; eapply sorted_head_le; eassumption. }
      pose proof (H (event_key x)) as Hk. rewrite with_key_head in Hk.
      rewrite K, with_key_head in Hk. injection Hk as -> _.
      f_equal. apply StronglySorted_inv in S1, S2.
      apply IH; [apply S1 | apply S2 |].
      intros k. specialize (H k). unfold with_key in *. simpl in H.
      destruct (skey_eqb (event_key y) k); [injection H; auto | exact H].
Qed.

Lemma sorted_events_sorted (evts : list pyval) :
  Forall event_shaped evts -> StronglySorted event_le evts ->
  sorted_events evts = Ok evts.
Proof.
  intros H S. destruct (sorted_events_shaped evts H) as (out & -> & _ & So & K).
  f_equal. apply sorted_unique; assumption.
Qed.

(** X7.  Sorting is idempotent on event-shaped records: a list that is
    already in ascending key order comes back unchanged, and so sorting
    the result of a sort changes nothing. *)
Theorem sorted_events_idempotent :
  forall evts : list pyval,
    Forall event_shaped evts ->
    (StronglySorted event_le evts -> sorted_events evts = Ok evts)
    /\ exists out,
         sorted_events evts = Ok out /\ sorted_events out = Ok out.
Proof.
  intros evts H. split; [apply sorted_events_sorted, H |].
  destruct (sorted_events_shaped evts H) as (out & E & P & S & _).
  exists out. split; [exact E |]. apply sorted_events_sorted; [| exact S].
  eapply Permutation_Forall; eassumption.
Qed.

Lemma sorted_events_idempotent_witness :
  exists out,
    sorted_events shuffled_store = Ok out /\ sorted_events out = Ok out.
Proof.
  refine (proj2 (sorted_events_idempotent shuffled_store _)).
  repeat constructor; eexists; reflexivity.
Defined.

(** ** Filtering and sorting commute *)

Lemma sorted_filter (keep : pyval -> bool) (l : list pyval) :
  StronglySorted event_le l -> StronglySorted event_le (filter keep l).
Proof.
  induction 1 as [| x r S IH F]; simpl; [constructor |].
  destruct (keep x); [| exact IH]. constructor; [exact IH |].
  apply Forall_forall. intros e He. apply filter_In in He.
  apply (proj1 (Forall_forall _ _) F), He.
Qed.

Lemma shaped_filter (keep : pyval -> bool) (l : list pyval) :
  Forall event_shaped l -> Forall event_shaped (filter keep l).
Proof.
  intros H. apply Forall_forall. intros e He. apply filter_In in He.
  apply (proj1 (Forall_forall _ _) H), He.
Qed.

(** X8.  On a store of event-shaped records the list shown on the page,
    filtered first and sorted afterwards, is the list obtained by
    sorting the whole store first and filtering afterwards; neither
    order of the two steps raises. *)
Theorem filter_and_sort_commute :
  forall (st : session)
         (story_filter era_filter character_filter category_filter
            keyword : string),
    Forall event_shaped (events st) ->
    exists out,
      current_sorted st story_filter era_filter character_filter
        category_filter keyword = Ok out
      /\ (all <- sorted_events (events st) ;;
          filtered_events all story_filter era_filter character_filter
            category_filter keyword) = Ok out.
Proof.
  intros st s e c g k H. unfold current_sorted.
  rewrite (filtered_events_shaped _ s e c g k H). cbn [bind].
  set (keep := event_passes spaced s e c g k).
  destruct (sorted_events_shaped (filter keep (events st)) (shaped_filter _ _ H))
    as (out & -> & _ & S & K).
  destruct (sorted_events_shaped (events st) H) as (all & -> & P & Sa & Ka).
  cbn [bind]. exists out. split; [reflexivity |].
  rewrite (filtered_events_shaped all s e c g k)
    by (eapply Permutation_Forall; eassumption).
  fold keep. f_equal. apply sorted_unique.
  - apply sorted_filter, Sa.
  - exact S.
  - intros key0. rewrite K. unfold with_key in *.
    rewrite filter_swap, Ka, filter_swap. reflexivity.
Qed.

Lemma filter_and_sort_commute_witness :
  exists out,
    current_sorted (mksession shuffled_store PNone) "" "" "" "" "e" = Ok out
    /\ (all <- sorted_events shuffled_store ;;
        filtered_events all "" "" "" "" "e") = Ok out.
Proof.
  apply (filter_and_sort_commute (mksession shuffled_store PNone)
           "" "" "" "" "e").
  repeat constructor; eexists; reflexivity.
Defined.

(** ** The order of the store and the order of the page *)

Lemma filter_perm {A : Type} (keep : A -> bool) (l1 l2 : list A) :
  Permutation l1 l2 -> Permutation (filter keep l1) (filter keep l2).
Proof.
  induction 1 as [| x l1 l2 _ IH | x y l | l1 l2 l3 _ IH1 _ IH2]; simpl.
  - constructor.
  - destruct (keep x); [constructor |]; exact IH.
  - destruct (keep x), (keep y); try apply Permutation_refl. constructor.
  - eapply Permutation_trans; eassumption.
Qed.

Lemma with_key_at_most_one (k : skey) (l : list pyval) :
  NoDup (map event_key l) ->
  with_key k l = [] \/ exists e, with_key k l = [e].
Proof.
  unfold with_key. induction l as [| x r IH]; simpl; intros D;
    [left; reflexivity |].
  inversion D as [| ? ? Hn D']; subst.
  destruct (skey_eqb (event_key x) k) eqn:E; [| apply IH, D'].
  right. exists x. f_equal. apply skey_eqb_eq in E. subst k.
  destruct (filter (fun e => skey_eqb (event_key e) (event_key x)) r)
    as [| y t] eqn:F; [reflexivity |].
  exfalso. apply Hn.
  assert (I : In y (filter (fun e => skey_eqb (event_key e) (event_key x)) r))
    by (rewrite F; left; reflexivity).
  apply filter_In in I. destruct I as [I Ey]. apply skey_eqb_eq in Ey.
  rewrite <- Ey. apply in_map, I.
Qed.

Lemma with_key_perm (k : skey) (l1 l2 : list pyval) :
  NoDup (map event_key l1) -> Permutation l1 l2 ->
  with_key k l1 = with_key k l2.
Proof.
  intros D P. pose proof (filter_perm (fun e => skey_eqb (event_key e) k) _ _ P) as Pk.
  fold (with_key k l1) (with_key k l2) in Pk.
  destruct (with_key_at_most_one k l1 D) as [E | [e E]]; rewrite E in *.
  - symmetry. apply Permutation_nil, Pk.
  - symmetry. apply Permutation_length_1_inv, Pk.
Qed.

(** X9.  When no two events of a list of event-shaped records have the
    same key (parsed start date or sentinel, sort index, lower-cased
    title), the sorted list does not depend on the order in which the
    events are stored: every rearrangement of the list sorts to the
    same list. *)
Theorem sorted_events_ignores_store_order :
  forall l1 l2 : list pyval,
    Forall event_shaped l1 ->
    NoDup (map event_key l1) ->
    Permutation l1 l2 ->
    exists out, sorted_events l1 = Ok out /\ sorted_events l2 = Ok out.
Proof.
  intros l1 l2 H D P.
  destruct (sorted_events_shaped l1 H) as (o1 & E1 & _ & S1 & K1).
  destruct (sorted_events_shaped l2 (Permutation_Forall P H))
    as (o2 & E2 & _ & S2 & K2).
  exists o1. split; [exact E1 |]. rewrite E2. f_equal.
  apply sorted_unique; [exact S2 | exact S1 |].
  intros k. rewrite K1, K2. symmetry. apply with_key_perm; assumption.
Qed.

Lemma sorted_events_ignores_store_order_witness :
  exists out,
    sorted_events shuffled_store = Ok out
    /\ sorted_events shuffled_again = Ok out.
Proof.
  apply (sorted_events_ignores_store_order shuffled_store shuffled_again).
  - repeat constructor; eexists; reflexivity.
  - vm_compute. repeat constructor; simpl; intuition discriminate.
  - unfold shuffled_store, shuffled_again.
    eapply Permutation_trans; [apply Permutation_cons_append |]. simpl.
    eapply Permutation_trans; [apply Permutation_cons_append |]. simpl.
    apply Permutation_refl.
Defined.

(** ** The chart reads the sorted list *)

Lemma key_le_date (a b : skey) :
  key_le a b -> date_le (fst (fst a)) (fst (fst b)).
Proof.
  destruct a as [[d1 i1] t1], b as [[d2 i2] t2]. unfold key_le, date_le.
  simpl. intros [H | [H _]]; [left | right]; exact H.
Qed.

Lemma row_start_key (e : pyval) (v : event_view) (r : chart_row) :
  view e = Some v -> row_of v = Some r -> Start r = fst (fst (event_key e)).
Proof.
  intros V R. unfold event_key. rewrite V. unfold key_of, row_of in *.
  simpl. destruct (parse_text (v_start_date v)); [| discriminate].
  injection R as <-. reflexivity.
Qed.

Lemma chart_rows_sorted (l : list pyval) :
  Forall event_shaped l -> StronglySorted event_le l ->
  exists rows,
    chart_rows l = Ok rows
    /\ Forall (fun r => exists e, In e l /\ Start r = fst (fst (event_key e))) rows
    /\ StronglySorted (fun a b => date_le (Start a) (Start b)) rows.
Proof.
  intros H S. induction S as [| x r S IH F].
  - exists []. repeat split; constructor.
  - inversion H as [| ? ? [v V] Hr]; subst.
    destruct (IH Hr) as (rows & E & O & So).
    simpl. rewrite (chart_row_of_view x v V), E. cbn [bind].
    assert (O' : Forall (fun r0 => exists e, In e (x :: r)
                                             /\ Start r0 = fst (fst (event_key e)))
                   rows).
    { eapply Forall_impl; [| exact O]. intros r0 (e & He & Hs).
      exists e. split; [right; exact He | exact Hs]. }
    destruct (row_of v) as [row |] eqn:R.
    + exists (row :: rows). split; [reflexivity |]. split.
      * constructor; [| exact O'].
        exists x. split; [left; reflexivity |].
        eapply row_start_key; eassumption.
      * constructor; [exact So |].
        eapply Forall_impl; [| exact O]. intros r0 (e & He & Hs).
        rewrite Hs, (row_start_key x v row V R).
        apply key_le_date. apply (proj1 (Forall_forall _ _) F), He.
    + exists rows. split; [reflexivity |]. split; assumption.
Qed.

(** X10.  On a store of event-shaped records the page computes the
    filtered and sorted list and the chart rows of that list without
    raising, and the rows come out with their start dates in ascending
    order, whatever the criteria. *)
Theorem chart_rows_ascending :
  forall (st : session)
         (story_filter era_filter character_filter category_filter
            keyword : string),
    Forall event_shaped (events st) ->
    exists shown rows,
      current_sorted st story_filter era_filter character_filter
        category_filter keyword = Ok shown
      /\ chart_rows shown = Ok rows
      /\ StronglySorted (fun a b => date_le (Start a) (Start b)) rows.
Proof.
  intros st s e c g k H. unfold current_sorted.
  rewrite (filtered_events_shaped _ s e c g k H). cbn [bind].
  set (cur := filter (event_passes spaced s e c g k) (events st)).
  assert (Hc : Forall event_shaped cur) by apply shaped_filter, H.
  destruct (sorted_events_shaped cur Hc) as (shown & -> & P & S & _).
  destruct (chart_rows_sorted shown (Permutation_Forall P Hc) S)
    as (rows & E & _ & So).
  exists shown, rows. repeat split; assumption.
Qed.

Lemma chart_rows_ascending_witness :
  exists shown rows,
    current_sorted (mksession shuffled_store PNone) "" "" "" "" "" = Ok shown
    /\ chart_rows shown = Ok rows
    /\ StronglySorted (fun a b => date_le (Start a) (Start b)) rows.
Proof.
  apply (chart_rows_ascending (mksession shuffled_store PNone) "" "" "" "" "").
  repeat constructor; eexists; reflexivity.
Defined.

(** ** Criteria combine *)

Lemma passes_split (s e c g k : string) (v : event_view) :
  passes spaced s e c g k v
  = passes spaced s "" "" "" "" v
    && (passes spaced "" e "" "" "" v
        && (passes spaced "" "" c "" "" v
            && (passes spaced "" "" "" g "" v
                && passes spaced "" "" "" "" k v))).
Proof.
  unfold passes. cbn [nonempty String.eqb negb orb andb].
  rewrite !andb_true_r, !andb_assoc. reflexivity.
Qed.

Lemma event_passes_split (s e c g k : string) (x : pyval) :
  event_passes spaced s e c g k x
  = event_passes spaced s "" "" "" "" x
    && (event_passes spaced "" e "" "" "" x
        && (event_passes spaced "" "" c "" "" x
            && (event_passes spaced "" "" "" g "" x
                && event_passes spaced "" "" "" "" k x))).
Proof.
  unfold event_passes. destruct (view x) as [v |]; [| reflexivity].
  apply passes_split.
Qed.

(** X11.  The five criteria of the filter act independently on
    event-shaped records: applying them one after the other, each on
    the result of the one before, returns the list that one call with
    all five returns; and filtering a filtered list again by the same
    criteria changes nothing. *)
Theorem filtered_events_compose :
  forall (evts : list pyval) (story era character category keyword : string),
    Forall event_shaped evts ->
    (a <- filtered_events evts "" "" "" "" keyword ;;
     b <- filtered_events a "" "" "" category "" ;;
     c <- filtered_events b "" "" character "" "" ;;
     d <- filtered_events c "" era "" "" "" ;;
     filtered_events d story "" "" "" "")
    = filtered_events evts story era character category keyword
    /\ (a <- filtered_events evts story era character category keyword ;;
        filtered_events a story era character category keyword)
       = filtered_events evts story era character category keyword.
Proof.
  intros evts s e c g k H. split.
  - rewrite (filtered_events_shaped evts "" "" "" "" k H). cbn [bind].
    rewrite (filtered_events_shaped _ "" "" "" g "") by apply shaped_filter, H.
    cbn [bind].
    rewrite (filtered_events_shaped _ "" "" c "" "")
      by (repeat apply shaped_filter; exact H).
    cbn [bind].
    rewrite (filtered_events_shaped _ "" e "" "" "")
      by (repeat apply shaped_filter; exact H).
    cbn [bind].
    rewrite (filtered_events_shaped _ s "" "" "" "")
      by (repeat apply shaped_filter; exact H).
    rewrite (filtered_events_shaped evts s e c g k H). f_equal.
    rewrite <- !filter_and. apply filter_ext. intros x.
    rewrite (event_passes_split s e c g k x), !andb_assoc. reflexivity.
  - rewrite (filtered_events_shaped evts s e c g k H). cbn [bind].
    rewrite (filtered_events_shaped _ s e c g k) by apply shaped_filter, H.
    rewrite filter_idem. reflexivity.
Qed.

Lemma filtered_events_compose_witness :
  (a <- filtered_events [overmorrow_lira; overmorrow_bob; stelo_lira]
          "" "" "" "" "the" ;;
   b <- filtered_events a "" "" "" "" "" ;;
   c <- filtered_events b "" "" "Lira" "" "" ;;
   d <- filtered_events c "" "" "" "" "" ;;
   filtered_events d "Overmorrow" "" "" "" "")
  = filtered_events [overmorrow_lira; overmorrow_bob; stelo_lira]
      "Overmorrow" "" "Lira" "" "the".
Proof.
  refine (proj1 (filtered_events_compose
                   [overmorrow_lira; overmorrow_bob; stelo_lira]
                   "Overmorrow" "" "Lira" "" "the" _)).
  repeat constructor; eexists; reflexivity.
Defined.

(** ** The options offered by the filter widgets *)

Lemma in_insert_str (x y : string) (l : list string) :
  In x (insert_str y l) <-> x = y \/ In x l.
Proof.
  induction l as [| z r IH]; simpl; [intuition |].
  destruct (String.ltb z y); simpl; rewrite ?IH; intuition.
Qed.

Lemma in_sorted_set (x : string) (l : list string) :
  In x (sorted_set l) <-> In x l.
Proof.
  unfold sorted_set. rewrite <- (nodup_In string_dec l x).
  induction (nodup string_dec l) as [| y r IH]; simpl; [tauto |].
  rewrite in_insert_str, IH. intuition.
Qed.

Lemma str_items_strs (ss : list string) : str_items (map PStr ss) = Ok ss.
Proof.
  unfold str_items. induction ss as [| s ss IH]; [reflexivity |].
  simpl. rewrite IH. reflexivity.
Qed.

Lemma truthy_strs (ss : list string) :
  filter truthy (map PStr ss) = map PStr (filter nonempty ss).
Proof.
  induction ss as [| s ss IH]; [reflexivity |].
  simpl. unfold nonempty at 1. destruct (String.eqb s ""); simpl;
    rewrite IH; reflexivity.
Qed.

Lemma views_in (evts : list pyval) (vs : list event_view) (v : event_view) :
  Forall2 (fun e v => view e = Some v) evts vs -> In v vs ->
  exists e, In e evts /\ view e = Some v.
Proof.
  induction 1 as [| e v0 evts vs He _ IH]; simpl; [tauto |].
  intros [<- | H].
  - exists e. split; [left; reflexivity | exact He].
  - destruct (IH H) as (e' & I & V). exists e'. split; [right |]; assumption.
Qed.

Section FieldOptions.

Variable field : string.
Variable get : event_view -> string.
Hypothesis get_field :
  forall e v, view e = Some v -> py_get e field (PStr "") = Ok (PStr (get v)).

Lemma field_values (evts : list pyval) (vs : list event_view) :
  Forall2 (fun e v => view e = Some v) evts vs ->
  mapM (fun e => py_get e field (PStr "")) evts = Ok (map PStr (map get vs)).
Proof.
  induction 1 as [| e v evts vs He _ IH]; [reflexivity |].
  simpl. rewrite (get_field e v He), IH. reflexivity.
Qed.

Lemma field_options_views (evts : list pyval) (vs : list event_view) :
  Forall2 (fun e v => view e = Some v) evts vs ->
  field_options field evts = Ok (sorted_set (filter nonempty (map get vs))).
Proof.
  intros H. unfold field_options. rewrite (field_values evts vs H).
  cbn [bind]. rewrite truthy_strs, str_items_strs. reflexivity.
Qed.


End FieldOptions.






Lemma get_story_view (e : pyval) (v : event_view) :
  view e = Some v -> py_get e "story" (PStr "") = Ok (PStr (v_story v)).
Proof.
  intros H. destruct (view_fields e v H)
    as (d & -> & _ & _ & _ & _ & _ & Hst & _).
  apply get_str_field, Hst.
Qed.

Lemma get_era_view (e : pyval) (v : event_view) :
  view e = Some v -> py_get e "era" (PStr "") = Ok (PStr (v_era v)).
Proof.
  intros H. destruct (view_fields e v H)
    as (d & -> & _ & _ & _ & _ & Her & _).
  apply get_str_field, Her.
Qed.



Section ItemOptions.

Variable field : string.
Variable get : event_view -> list string.
Hypothesis get_items :
  forall e v, view e = Some v ->
              py_get e field (PList []) = Ok (PList (map PStr (get v))).

Lemma item_values (evts : list pyval) (vs : list event_view) :
  Forall2 (fun e v => view e = Some v) evts vs ->
  mapM (fun e => v <- py_get e field (PList []) ;; ensure_list v) evts
  = Ok (map (map PStr) (map get vs)).
Proof.
  induction 1 as [| e v evts vs He _ IH]; [reflexivity |].
  simpl. rewrite (get_items e v He), IH. reflexivity.
Qed.

Lemma item_options_views (evts : list pyval) (vs : list event_view) :
  Forall2 (fun e v => view e = Some v) evts vs ->
  item_options field evts = Ok (sorted_set (List.concat (map get vs))).
Proof.
  intros H. unfold item_options. rewrite (item_values evts vs H).
  cbn [bind]. rewrite <- concat_map, str_items_strs. reflexivity.
Qed.

Lemma item_option_origin (evts : list pyval) (vs : list event_view)
    (c : string) :
  Forall2 (fun e v => view e = Some v) evts vs ->
  In c (sorted_set (List.concat (map get vs))) ->
  exists e v, In e evts /\ view e = Some v /\ In c (get v).
Proof.
  intros H I. apply in_sorted_set, in_concat in I.
  destruct I as (l & Il & Ic). apply in_map_iff in Il.
  destruct Il as (v & <- & Iv).
  destruct (views_in evts vs v H Iv) as (e & Ie & V).
  exists e, v. repeat split; assumption.
Qed.

End ItemOptions.

Lemma ci_member_in (c : string) (l : list string) :
  In c l -> ci_member c l = true.
Proof.
  intros H. unfold ci_member. apply existsb_exists. exists c.
  split; [exact H | apply String.eqb_refl].
Qed.

Lemma ci_member_lower (c c' : string) (l : list string) :
  lower c = lower c' -> ci_member c l = ci_member c' l.
Proof. intros E. unfold ci_member. rewrite E. reflexivity. Qed.

Lemma nonempty_lower (c : string) : nonempty (lower c) = nonempty c.
Proof. destruct c; reflexivity. Qed.

Lemma get_characters_view (e : pyval) (v : event_view) :
  view e = Some v ->
  py_get e "characters" (PList []) = Ok (PList (map PStr (v_characters v))).
Proof.
  intros H. destruct (view_fields e v H)
    as (d & -> & _ & _ & _ & _ & _ & _ & Hch & _).
  apply get_list_field, Hch.
Qed.

Lemma get_categories_view (e : pyval) (v : event_view) :
  view e = Some v ->
  py_get e "categories" (PList []) = Ok (PList (map PStr (v_categories v))).
Proof.
  intros H. destruct (view_fields e v H)
    as (d & -> & _ & _ & _ & _ & _ & _ & _ & Hca & _).
  apply get_list_field, Hca.
Qed.

(** X13.  On a store of event-shaped records the option lists of the
    Character and Category select boxes are computed without raising.
    Every non-empty option selects at least the events whose list holds
    it, so the filtered list is never empty; and two criteria that
    differ only in the case of their letters select the same events. *)
Theorem character_and_category_options :
  forall evts : list pyval,
    Forall event_shaped evts ->
    exists all_characters all_categories,
      item_options "characters" evts = Ok all_characters
      /\ item_options "categories" evts = Ok all_categories
      /\ (forall c, In c all_characters -> c <> "" ->
            exists shown,
              filtered_events evts "" "" c "" "" = Ok shown
              /\ shown <> []
              /\ forall e v, In e evts -> view e = Some v ->
                             In c (v_characters v) -> In e shown)
      /\ (forall c, In c all_categories -> c <> "" ->
            exists shown,
              filtered_events evts "" "" "" c "" = Ok shown
              /\ shown <> []
              /\ forall e v, In e evts -> view e = Some v ->
                             In c (v_categories v) -> In e shown)
      /\ (forall c c', lower c = lower c' ->
            filtered_events evts "" "" c "" "" = filtered_events evts "" "" c' "" ""
            /\ filtered_events evts "" "" "" c "" = filtered_events evts "" "" "" c' "").
Proof.
  intros evts H. destruct (shaped_views evts H) as [vs V].
  exists (sorted_set (List.concat (map v_characters vs))),
         (sorted_set (List.concat (map v_categories vs))).
  split; [apply (item_options_views "characters" v_characters
                   get_characters_view _ _ V) |].
  split; [apply (item_options_views "categories" v_categories
                   get_categories_view _ _ V) |].
  split; [| split].
  - intros c I N.
    assert (K : forall e v, In e evts -> view e = Some v ->
                            In c (v_characters v) ->
                            In e (filter (event_passes spaced "" "" c "" "") evts)).
    { intros e v Ie Ve Ic. apply filter_In. split; [exact Ie |].
      unfold event_passes. rewrite Ve. unfold passes.
      rewrite (ci_member_in c _ Ic).
      cbn [nonempty String.eqb negb orb andb].
      rewrite orb_true_r. reflexivity. }
    eexists. split; [apply filtered_events_shaped, H |]. split; [| exact K].
    destruct (item_option_origin v_characters evts vs c V I) as (e & v & Ie & Ve & Ic).
    intros E. pose proof (K e v Ie Ve Ic) as F. rewrite E in F. exact F.
  - intros c I N.
    assert (K : forall e v, In e evts -> view e = Some v ->
                            In c (v_categories v) ->
                            In e (filter (event_passes spaced "" "" "" c "") evts)).
    { intros e v Ie Ve Ic. apply filter_In. split; [exact Ie |].
      unfold event_passes. rewrite Ve. unfold passes.
      rewrite (ci_member_in c _ Ic).
      cbn [nonempty String.eqb negb orb andb].
      rewrite orb_true_r. reflexivity. }
    eexists. split; [apply filtered_events_shaped, H |]. split; [| exact K].
    destruct (item_option_origin v_categories evts vs c V I) as (e & v & Ie & Ve & Ic).
    intros E. pose proof (K e v Ie Ve Ic) as F. rewrite E in F. exact F.
  - intros c c' E.
    assert (N : nonempty c = nonempty c')
      by (rewrite <- (nonempty_lower c), E; apply nonempty_lower).
    rewrite !(filtered_events_shaped evts) by exact H.
    split; f_equal; apply filter_ext; intros x; unfold event_passes;
      destruct (view x) as [w |]; try reflexivity; unfold passes;
      rewrite N, (ci_member_lower c c' _ E); reflexivity.
Qed.

Lemma character_and_category_options_witness :
  exists all_characters all_categories,
    item_options "characters" [overmorrow_lira; overmorrow_bob; stelo_lira]
    = Ok all_characters
    /\ item_options "categories" [overmorrow_lira; overmorrow_bob; stelo_lira]
       = Ok all_categories
    /\ (forall c, In c all_characters -> c <> "" ->
          exists shown,
            filtered_events [overmorrow_lira; overmorrow_bob; stelo_lira]
              "" "" c "" "" = Ok shown
            /\ shown <> []
            /\ forall e v, In e [overmorrow_lira; overmorrow_bob; stelo_lira] ->
                           view e = Some v ->
                           In c (v_characters v) -> In e shown)
    /\ (forall c, In c all_categories -> c <> "" ->
          exists shown,
            filtered_events [overmorrow_lira; overmorrow_bob; stelo_lira]
              "" "" "" c "" = Ok shown
            /\ shown <> []
            /\ forall e v, In e [overmorrow_lira; overmorrow_bob; stelo_lira] ->
                           view e = Some v ->
                           In c (v_categories v) -> In e shown)
    /\ (forall c c', lower c = lower c' ->
          filtered_events [overmorrow_lira; overmorrow_bob; stelo_lira]
            "" "" c "" ""
          = filtered_events [overmorrow_lira; overmorrow_bob; stelo_lira]
              "" "" c' "" ""
          /\ filtered_events [overmorrow_lira; overmorrow_bob; stelo_lira]
               "" "" "" c ""
             = filtered_events [overmorrow_lira; overmorrow_bob; stelo_lira]
                 "" "" "" c' "").
Proof.
  apply (character_and_category_options
           [overmorrow_lira; overmorrow_bob; stelo_lira]).
  repeat constructor; eexists; reflexivity.
Defined.

(** ** Fields that are not strings *)

Lemma mapM_raise {A B : Type} (f : A -> outcome B) (l1 l2 : list A) (a : A)
    (r : list B) (x : exn) :
  mapM f l1 = Ok r -> f a = Raise x -> mapM f (l1 ++ a :: l2) = Raise x.
Proof.
  revert r. induction l1 as [| b l1 IH]; simpl; intros r H Ha.
  - rewrite Ha. reflexivity.
  - apply bind_ok in H. destruct H as (y & Hy & H).
    apply bind_ok in H. destruct H as (ys & Hys & _).
    rewrite Hy. cbn [bind]. rewrite (IH ys Hys Ha). reflexivity.
Qed.

Lemma chart_rows_raise (l1 l2 : list pyval) (e : pyval) (x : exn) :
  Forall event_shaped l1 -> chart_row_of e = Raise x ->
  chart_rows (l1 ++ e :: l2) = Raise x.
Proof.
  intros H He. induction H as [| a l1 [v V] _ IH]; simpl.
  - rewrite He. reflexivity.
  - rewrite (chart_row_of_view a v V), IH. reflexivity.
Qed.

Lemma safe_parse_date_untyped (v : pyval) :
  (forall s, v <> PStr s) ->
  safe_parse_date v = if truthy v then Raise AttributeError else Ok None.
Proof.
  intros N. unfold safe_parse_date. destruct (truthy v); [| reflexivity].
  destruct v; try reflexivity. elim (N s). reflexivity.
Qed.

Lemma lookup_dict_set (k k' : string) (v : pyval) (d : list (string * pyval)) :
  lookup k' (dict_set k v d)
  = if String.eqb k' k then Some v else lookup k' d.
Proof.
  induction d as [| [k0 v0] d IH]; simpl.
  - destruct (String.eqb k' k); reflexivity.
  - destruct (String.eqb k k0) eqn:E; simpl.
    + apply String.eqb_eq in E. subst k0.
      destruct (String.eqb k' k); reflexivity.
    + rewrite IH. destruct (String.eqb k' k0) eqn:E'; [| reflexivity].
      apply String.eqb_eq in E'. subst k0.
      rewrite String.eqb_sym, E. reflexivity.
Qed.

(** X14.  An event whose start_date is not a string, as an uploaded
    file may hold it.  A value that counts as true (a non-zero number,
    [true], a non-empty list or object) makes the sort and the chart
    loop raise [AttributeError] once the events before it have been
    read, so the page fails as a whole.  A value that counts as false
    ([null], 0, [false], an empty list or object) is read as no date:
    the sort key and the chart row of the event are those of the same
    event with an empty start_date. *)
Theorem untyped_start_date :
  forall (l1 l2 : list pyval) (d : list (string * pyval)) (v : pyval),
    Forall event_shaped l1 ->
    lookup "start_date" d = Some v ->
    (forall s, v <> PStr s) ->
    (truthy v = true ->
     sorted_events (l1 ++ PDict d :: l2) = Raise AttributeError
     /\ chart_rows (l1 ++ PDict d :: l2) = Raise AttributeError)
    /\ (truthy v = false ->
        key (PDict d) = key (PDict (dict_set "start_date" (PStr "") d))
        /\ chart_row_of (PDict d)
           = chart_row_of (PDict (dict_set "start_date" (PStr "") d))).
Proof.
  intros l1 l2 d v H L N. pose proof (safe_parse_date_untyped v N) as P.
  split; intros T; rewrite T in P.
  - assert (K : key (PDict d) = Raise AttributeError).
    { unfold key, py_get. rewrite L. cbn [bind]. rewrite P. reflexivity. }
    assert (C : chart_row_of (PDict d) = Raise AttributeError).
    { unfold chart_row_of, py_get. rewrite L. cbn [bind]. rewrite P.
      reflexivity. }
    split; [| apply chart_rows_raise; assumption].
    destruct (shaped_views l1 H) as [vs V]. unfold sorted_events.
    rewrite (mapM_raise key l1 l2 (PDict d) _ AttributeError
               (mapM_key_views l1 vs V) K).
    reflexivity.
  - unfold key, chart_row_of, py_get. rewrite !lookup_dict_set, L.
    cbn [String.eqb Ascii.eqb Bool.eqb bind]. rewrite P. split; reflexivity.
Qed.

Lemma untyped_start_date_witness :
  sorted_events ([ev_1850] ++ ev_numeric_year :: [ev_undated])
  = Raise AttributeError
  /\ chart_rows ([ev_1850] ++ ev_numeric_year :: [ev_undated])
     = Raise AttributeError.
Proof.
  refine (proj1 (untyped_start_date [ev_1850] [ev_undated]
                   numeric_year_fields (PInt 1850) _ eq_refl _) eq_refl).
  - repeat constructor; eexists; reflexivity.
  - intros s. discriminate.
Defined.

(** ** Every reachable store survives export and import *)

Lemma in_dict_set (k k' : string) (v : pyval) (d : list (string * pyval)) :
  In k' (map fst (dict_set k v d)) -> k' = k \/ In k' (map fst d).
Proof.
  induction d as [| [k0 v0] d IH]; simpl.
  - intros [<- | []]. left. reflexivity.
  - destruct (String.eqb k k0) eqn:E; simpl.
    + apply String.eqb_eq in E. subst k0. intros [<- | H]; tauto.
    + intros [<- | H]; [tauto |]. destruct (IH H); tauto.
Qed.

Lemma wf_dict_set (k : string) (v : pyval) (d : list (string * pyval)) :
  wf v -> wf (PDict d) -> wf (PDict (dict_set k v d)).
Proof.
  intros Wv W. inversion W as [| | | | | ? N F]; subst. clear W.
  induction d as [| [k0 v0] d IH]; simpl.
  - prove_wf. exact Wv.
  - inversion N as [| ? ? Hn N']; subst. inversion F as [| ? ? W0 F']; subst.
    destruct (String.eqb k k0) eqn:E.
    + apply String.eqb_eq in E. subst k0.
      constructor; [constructor; assumption | constructor; assumption].
    + specialize (IH N' F'). inversion IH as [| | | | | ? N2 F2]; subst.
      constructor; [| constructor; assumption].
      simpl. constructor; [| exact N2].
      intros I. apply in_dict_set in I. destruct I as [-> | I];
        [rewrite String.eqb_refl in E; discriminate | exact (Hn I)].
Qed.

Lemma wf_dict_update (d u : list (string * pyval)) :
  wf (PDict d) -> Forall (fun kv => wf (snd kv)) u -> wf (PDict (dict_update d u)).
Proof.
  unfold dict_update. intros W F. revert d W.
  induction F as [| [k v] u Wv _ IH]; intros d W; [exact W |].
  simpl. apply IH, wf_dict_set; assumption.
Qed.

Lemma wf_lookup (d : list (string * pyval)) (k : string) (v : pyval) :
  wf (PDict d) -> py_getitem (PDict d) k = Ok v -> wf v.
Proof.
  intros W. inversion W as [| | | | | ? _ F]; subst. clear W. simpl.
  induction F as [| [k0 v0] d W0 _ IH]; simpl; [discriminate |].
  destruct (String.eqb k k0); [| exact IH].
  intros H. injection H as <-. exact W0.
Qed.

Lemma wf_strs (ss : list string) : Forall wf (map PStr ss).
Proof. apply Forall_map, Forall_forall. intros s _. constructor. Qed.

Lemma scan_atom_wf (s rest : string) (v : pyval) :
  Json.scan_atom s = Ok (v, rest) -> wf v.
Proof.
  unfold Json.scan_atom. intros H.
  destruct (starts_with "null" s); [injection H as <- _; constructor |].
  destruct (starts_with "true" s); [injection H as <- _; constructor |].
  destruct (starts_with "false" s); [injection H as <- _; constructor |].
  destruct (Json.match_integer s) as [[text r] |].
  - destruct (Json.has_frac r || Json.has_exp r); [discriminate |].
    injection H as <- _. constructor.
  - destruct (starts_with "NaN" s || starts_with "Infinity" s
              || starts_with "-Infinity" s); discriminate.
Qed.

(** The decoder returns dicts with distinct keys only. *)
Lemma scan_wf (fuel : nat) :
  (forall s v rest, Json.scan_once fuel s = Ok (v, rest) -> wf v)
  /\ (forall s l rest, Json.array_items fuel s = Ok (l, rest) -> Forall wf l)
  /\ (forall s ps rest,
         Json.object_pairs fuel s = Ok (ps, rest) ->
         Forall (fun kv => wf (snd kv)) ps).
Proof.
  induction fuel as [| f (IHs & IHa & IHo)].
  - repeat split; intros; discriminate.
  - split; [| split].
    + intros s v rest H. cbn [Json.scan_once] in H.
      destruct s as [| c r]; [discriminate |].
      destruct (Ascii.eqb c Json.dquote).
      { apply bind_ok in H. destruct H as (p & _ & H).
        injection H as <- _. constructor. }
      destruct (Ascii.eqb c "{").
      { destruct (Json.skip_ws r) as [| c1 r1]; [discriminate |].
        destruct (Ascii.eqb c1 "}");
          [injection H as <- _; constructor; constructor |].
        destruct (Ascii.eqb c1 Json.dquote); [| discriminate].
        apply bind_ok in H. destruct H as ([ps x] & P & H).
        injection H as <- _. apply wf_dict_update.
        - constructor; constructor.
        - eapply IHo, P. }
      destruct (Ascii.eqb c "[").
      { destruct (Json.skip_ws r) as [| c1 r1]; [discriminate |].
        destruct (Ascii.eqb c1 "]");
          [injection H as <- _; constructor; constructor |].
        apply bind_ok in H. destruct H as ([l x] & P & H).
        injection H as <- _. constructor. eapply IHa, P. }
      eapply scan_atom_wf, H.
    + intros s l rest H. rewrite array_items_step in H.
      apply bind_ok in H. destruct H as ([v x] & P & H). cbn [fst snd] in H.
      destruct (Json.skip_ws x) as [| c r]; [discriminate |].
      destruct (Ascii.eqb c "]").
      { injection H as <- _. constructor; [eapply IHs, P | constructor]. }
      destruct (Ascii.eqb c ","); [| discriminate].
      apply bind_ok in H. destruct H as ([l' y] & Q & H).
      injection H as <- _. constructor; [eapply IHs, P | eapply IHa, Q].
    + intros s ps rest H. rewrite object_pairs_step in H.
      apply bind_ok in H. destruct H as ([k x] & _ & H). cbn [fst snd] in H.
      destruct (Json.skip_ws x) as [| c r]; [discriminate |].
      destruct (Ascii.eqb c ":"); [| discriminate].
      apply bind_ok in H. destruct H as ([v y] & P & H). cbn [fst snd] in H.
      destruct (Json.skip_ws y) as [| c1 r1]; [discriminate |].
      destruct (Ascii.eqb c1 "}").
      { injection H as <- _. constructor; [eapply IHs, P | constructor]. }
      destruct (Ascii.eqb c1 ","); [| discriminate].
      destruct (Json.skip_ws r1) as [| c2 r2]; [discriminate |].
      destruct (Ascii.eqb c2 Json.dquote); [| discriminate].
      apply bind_ok in H. destruct H as ([ps' z] & Q & H).
      injection H as <- _. constructor; [eapply IHs, P | eapply IHo, Q].
Qed.

Lemma load_wf (bytes : string) (v : pyval) : Json.load bytes = Ok v -> wf v.
Proof.
  unfold Json.load, Json.decode. destruct (all_chars Json.plain_byte bytes);
    [| discriminate].
  intros H. apply bind_ok in H. destruct H as ([w x] & P & H).
  cbn [fst snd] in H. destruct (Json.skip_ws x); [| discriminate].
  injection H as <-. eapply (proj1 (scan_wf _)), P.
Qed.

Lemma find_by_id_in (target e : pyval) (l : list pyval) :
  find_by_id target l = Ok (Some e) -> In e l.
Proof.
  induction l as [| x l IH]; simpl; [discriminate |]. intros H.
  apply bind_ok in H. destruct H as (i & _ & H).
  destruct (py_eq i target); [injection H as <-; left; reflexivity |].
  right. apply IH, H.
Qed.

Lemma when_editing_in (st : session) (ed : option pyval) (e : pyval) :
  editing_event st = Ok ed -> when_editing ed = Some e -> In e (events st).
Proof.
  unfold editing_event, when_editing. intros H W.
  destruct ed as [x |]; [| discriminate].
  destruct (truthy x); [| discriminate]. injection W as <-.
  destruct (truthy (edit_id st)); [| discriminate].
  eapply find_by_id_in, H.
Qed.

Lemma payload_wf (uuid : string) (ed : option pyval) (f : form)
    (p : list (string * pyval)) :
  (forall e, when_editing ed = Some e -> wf e) ->
  payload uuid ed f = Ok p -> wf (PDict p).
Proof.
  intros We. unfold payload. rewrite !ensure_list_str. intros H.
  apply bind_ok in H. destruct H as (p1 & P1 & H). cbn [bind] in H.
  injection H as <-.
  repeat (apply wf_dict_set; [try constructor; apply wf_strs |]).
  destruct (when_editing ed) as [e |].
  - apply bind_ok in P1. destruct P1 as (i & I & P1). injection P1 as <-.
    specialize (We e eq_refl). destruct e; try discriminate.
    pose proof (wf_lookup _ _ _ We I) as Wi. prove_wf. exact Wi.
  - injection P1 as <-. unfold new_event_template. prove_wf.
Qed.

Lemma save_event_wf (uuid : string) (f : form) (st : session)
    (r : session * notice) :
  Forall wf (events st) -> save_event uuid f st = Ok r ->
  Forall wf (events (fst r)).
Proof.
  unfold save_event. intros H E.
  apply bind_ok in E. destruct E as (ed & Eed & E).
  destruct (negb (nonempty (strip (title f)))).
  - injection E as <-. exact H.
  - apply bind_ok in E. destruct E as (p & Ep & E).
    apply payload_wf in Ep.
    2:{ intros e W. apply (proj1 (Forall_forall _ _) H).
        eapply when_editing_in; eassumption. }
    destruct (when_editing ed) as [e |].
    + apply bind_ok in E. destruct E as (target & _ & E).
      apply bind_ok in E. destruct E as (evs & Eevs & E). injection E as <-.
      simpl. unfold replace_by_id in Eevs.
      eapply mapM_Forall; [| exact H | exact Eevs].
      intros a b Wa Eb. simpl in Eb. apply bind_ok in Eb.
      destruct Eb as (i & _ & Eb). injection Eb as <-.
      destruct (py_eq i target); assumption.
    + injection E as <-. simpl. apply Forall_app. split; [exact H |].
      constructor; [exact Ep | constructor].
Qed.

Lemma step_wf (a : action) (st st' : session) :
  Forall wf (events st) -> step a st = Ok st' -> Forall wf (events st').
Proof.
  intros H E. destruct a as [uuid f | | | ev | ev | uploaded]; simpl in E.
  - apply bind_ok in E. destruct E as (r & Er & E). injection E as <-.
    eapply save_event_wf; eassumption.
  - injection E as <-. exact H.
  - apply bind_ok in E. destruct E as (r & Er & E). injection E as <-.
    unfold delete_this_event in Er.
    apply bind_ok in Er. destruct Er as (ed & _ & Er).
    destruct (when_editing ed) as [e |].
    + apply bind_ok in Er. destruct Er as (target & _ & Er).
      apply bind_ok in Er. destruct Er as (evs & Eevs & Er).
      injection Er as <-. simpl. eapply filterM_Forall; eassumption.
    + injection Er as <-. exact H.
  - unfold card_edit in E. apply bind_ok in E. destruct E as (i & _ & E).
    injection E as <-. exact H.
  - unfold card_delete in E. apply bind_ok in E. destruct E as (t & _ & E).
    apply bind_ok in E. destruct E as (evs & Eevs & E). injection E as <-.
    simpl. eapply filterM_Forall; eassumption.
  - apply bind_ok in E. destruct E as (r & Er & E). injection E as <-.
    unfold import_json, import_data in Er.
    destruct (Json.load uploaded) as [v | e |] eqn:L; try discriminate.
    + apply load_wf in L.
      destruct v; injection Er as <-; try exact H.
      simpl. inversion L. assumption.
    + injection Er as <-. exact H.
Qed.

(** X15.  The export text of a store restores the store.  Let a
    session be left by any sequence of handlers (saves, resets, deletes,
    card buttons, uploads, in any order) that started on a store of
    values made of [None], booleans, integers, strings, lists and dicts.
    The text that line 124 computes from this session decodes to exactly
    its events, and an upload of this text into any session installs
    these events and leaves that session's edit pointer alone.  Line 124
    stands at the top of the script, before the import block and the
    button handlers: the download button of a run offers the store as
    that run found it, and what a handler changes shows in the text the
    next run computes. *)
Theorem export_restores_any_store :
  forall (actions : list action) (st st' : session),
    Forall wf (events st) ->
    run actions st = Ok st' ->
    Json.load (json_bytes st') = Ok (PList (events st'))
    /\ forall st0 : session,
         import_json (json_bytes st') st0
         = Ok (mksession (events st') (edit_id st0),
               Success "Loaded timeline data from JSON.").
Proof.
  intros actions st st' H R.
  assert (W : Forall wf (events st')).
  { revert st H R. induction actions as [| a rest IH]; simpl; intros st H R.
    - injection R as <-. exact H.
    - apply bind_ok in R. destruct R as (st1 & S1 & R).
      apply (IH st1); [eapply step_wf; eassumption | exact R]. }
  assert (L : Json.load (json_bytes st') = Ok (PList (events st'))).
  { apply load_dumps. constructor. exact W. }
  split; [exact L |].
  intros st0. unfold import_json. rewrite L. reflexivity.
Qed.

Lemma export_restores_any_store_witness :
  run save_upload_save empty_session
  = Ok (mksession [PDict alice_fields; PDict bob_fields] PNone)
  /\ Json.load (json_bytes (mksession [PDict alice_fields; PDict bob_fields] PNone))
     = Ok (PList [PDict alice_fields; PDict bob_fields]).
Proof.
  assert (R : run save_upload_save empty_session
              = Ok (mksession [PDict alice_fields; PDict bob_fields] PNone))
    by (vm_compute; reflexivity).
  split; [exact R |].
  exact (proj1 (export_restores_any_store save_upload_save empty_session _
                  (Forall_nil _) R)).
Defined.

(** ** The text of a list and the list of a text *)

Lemma split_comma_plain (x : string) :
  no_comma x = true -> split_comma x = [x].
Proof.
  unfold no_comma. induction x as [| c r IH]; [reflexivity |]. simpl.
  intros H. apply andb_prop in H. destruct H as [Hc Hr].
  apply negb_true_iff in Hc. rewrite Hc, (IH Hr). reflexivity.
Qed.

Lemma split_comma_app (x rest : string) :
  no_comma x = true ->
  split_comma (x ++ String "," rest) = x :: split_comma rest.
Proof.
  unfold no_comma. induction x as [| c r IH]; [reflexivity |]. simpl.
  intros H. apply andb_prop in H. destruct H as [Hc Hr].
  apply negb_true_iff in Hc. rewrite Hc, (IH Hr). reflexivity.
Qed.

Lemma split_join (r : list string) (x : string) :
  Forall (fun y => no_comma y = true) (x :: r) ->
  split_comma (join ", " (x :: r)) = x :: map (String " ") r.
Proof.
  revert x. induction r as [| y r IH]; intros x H.
  - inversion H; subst. apply split_comma_plain. assumption.
  - inversion H as [| ? ? Hx Hr]; subst.
    change (join ", " (x :: y :: r))
      with (x ++ String "," (String " " (join ", " (y :: r)))).
    rewrite (split_comma_app _ _ Hx). f_equal.
    change (split_comma (String " " (join ", " (y :: r))))
      with (match split_comma (join ", " (y :: r)) with
            | h :: t => String " " h :: t
            | [] => [String " " EmptyString]
            end).
    rewrite (IH y Hr). reflexivity.
Qed.

Lemma strip_after_space (y : string) : strip (String " " y) = strip y.
Proof. reflexivity. Qed.

Lemma dedup_first_fixed (l : list string) :
  NoDup (map lower l) -> dedup_first l = l.
Proof.
  induction l as [| x r IH]; [reflexivity |]. simpl. intros D.
  inversion D as [| ? ? Hn D']; subst. rewrite (IH D'). f_equal.
  apply filter_keeps_all, Forall_forall. intros y Hy.
  apply negb_true_iff, String.eqb_neq. intros E. apply Hn. rewrite <- E.
  apply in_map, Hy.
Qed.

Lemma normalize_join (l : list string) :
  Forall clean l -> NoDup (map lower l) -> normalize_text (join ", " l) = l.
Proof.
  intros C D. destruct l as [| x r]; [reflexivity |].
  unfold normalize_text. rewrite split_join.
  2:{ eapply Forall_impl; [| exact C]. intros y Hy. apply Hy. }
  assert (S : map strip (x :: map (String " ") r) = x :: r).
  { inversion C as [| ? ? Cx Cr]; subst. cbn [map]. f_equal; [apply Cx |].
    rewrite map_map. rewrite <- (map_id r) at 2. apply map_ext_in.
    intros y Hy. rewrite strip_after_space.
    apply (proj1 (Forall_forall _ _) Cr y Hy). }
  rewrite S, filter_keeps_all.
  - apply dedup_first_fixed, D.
  - eapply Forall_impl; [| exact C]. intros y Hy. apply Hy.
Qed.

Lemma split_comma_no_comma (s : string) :
  Forall (fun p => no_comma p = true) (split_comma s).
Proof.
  induction s as [| c r IH]; [repeat constructor |]. simpl.
  destruct (Ascii.eqb c ",") eqn:E; [constructor; [reflexivity | exact IH] |].
  destruct (split_comma r) as [| h t].
  - repeat constructor. unfold no_comma. simpl. rewrite E. reflexivity.
  - inversion IH; subst. constructor; [| assumption].
    unfold no_comma in *. simpl. rewrite E. assumption.
Qed.

Lemma no_comma_lstrip (s : string) : no_comma s = true -> no_comma (lstrip s) = true.
Proof.
  unfold no_comma. induction s as [| c r IH]; [reflexivity |]. simpl.
  intros H. destruct (isspace c); [| exact H].
  apply andb_prop in H. apply IH, H.
Qed.

Lemma no_comma_rstrip (s : string) : no_comma s = true -> no_comma (rstrip s) = true.
Proof.
  unfold no_comma. induction s as [| c r IH]; [reflexivity |]. simpl.
  intros H. apply andb_prop in H. destruct H as [Hc Hr]. specialize (IH Hr).
  destruct (rstrip r) as [| c' r'].
  - destruct (isspace c); [reflexivity |]. simpl. rewrite Hc. reflexivity.
  - simpl in *. rewrite Hc. exact IH.
Qed.

Lemma normalize_text_clean (s : string) : Forall clean (normalize_text s).
Proof.
  apply Forall_forall. intros x H. unfold normalize_text in H.
  apply dedup_first_incl, filter_In in H. destruct H as [H N].
  apply in_map_iff in H. destruct H as (p & <- & Hp).
  split; [| split; [apply strip_idem | exact N]].
  unfold strip. apply no_comma_rstrip, no_comma_lstrip.
  apply (proj1 (Forall_forall _ _) (split_comma_no_comma s) p Hp).
Qed.

Lemma normalize_text_round_trip (s : string) :
  normalize_text (join ", " (normalize_text s)) = normalize_text s.
Proof.
  apply normalize_join; [apply normalize_text_clean | apply dedup_first_nodup].
Qed.

(** X16.  The list a comma-separated text is normalized to, joined
    with a comma and a space as the edit form shows it, is normalized
    to the same list again: [ensure_list] and the join of the form are
    inverse to each other on the lists [ensure_list] produces. *)
Theorem ensure_list_join_round_trip :
  forall s : string,
    exists (l : list pyval) (text : string),
      ensure_list (PStr s) = Ok l
      /\ join_default (PList l) = Ok text
      /\ ensure_list (PStr text) = Ok l.
Proof.
  intros s. exists (map PStr (normalize_text s)), (join ", " (normalize_text s)).
  split; [apply ensure_list_str |]. split; [apply py_join_strs |].
  rewrite ensure_list_str, normalize_text_round_trip. reflexivity.
Qed.

(** ** Saving an event again as the form shows it *)

Lemma payload_shape (uuid : string) (ed : option pyval) (f : form)
    (p : list (string * pyval)) :
  payload uuid ed f = Ok p ->
  exists i,
    p = [ ("id", i);
          ("title", PStr (strip (title f)));
          ("date_text", PStr (strip (date_text f)));
          ("start_date", PStr (strip (start_date f)));
          ("end_date", PStr (strip (end_date f)));
          ("era", PStr (strip (era f)));
          ("story", PStr (strip (story f)));
          ("characters", PList (map PStr (normalize_text (characters_text f))));
          ("categories", PList (map PStr (normalize_text (categories_text f))));
          ("notes", PStr (strip (notes f)));
          ("sort_index", PInt (sort_index f)) ].
Proof.
  unfold payload. rewrite !ensure_list_str.
  destruct (when_editing ed) as [e |];
    [destruct (py_getitem e "id") as [i | |]; try discriminate |];
    cbn [bind]; intros H; injection H as <-; eexists; reflexivity.
Qed.

(** X17.  An event that "Save Event" wrote (with a sort index within
    the bounds of the number widget), opened for editing in a store
    with distinct string ids and saved again with the widgets left at
    their defaults: every default is computed without raising, the save
    succeeds, and the store afterwards holds the same events in the
    same places; only the edit pointer is cleared. *)
Theorem resave_changes_nothing :
  forall (uuid0 uuid s : string) (ed0 : option pyval) (f : form)
         (p : list (string * pyval)) (l1 l2 : list pyval),
    payload uuid0 ed0 f = Ok p ->
    -100000 <= sort_index f <= 100000 ->
    nonempty (strip (title f)) = true ->
    unique_ids (l1 ++ PDict p :: l2) ->
    id_of (PDict p) = Some s ->
    s <> "" ->
    exists f',
      (ed <- editing_event (mksession (l1 ++ PDict p :: l2) (PStr s)) ;;
       prefilled ed) = Ok f'
      /\ save_event uuid f' (mksession (l1 ++ PDict p :: l2) (PStr s))
         = Ok (mksession (l1 ++ PDict p :: l2) PNone, Success "Event updated.").
Proof.
  intros uuid0 uuid s ed0 f p l1 l2 P B T U E N.
  destruct (payload_shape uuid0 ed0 f p P) as [i ->].
  assert (R : (-100000 <=? sort_index f) && (sort_index f <=? 100000) = true).
  { apply andb_true_intro. split; apply Z.leb_le; lia. }
  eexists. split.
  - rewrite (editing_event_unique s _ l1 l2 U E N). cbn [bind].
    unfold prefilled, when_editing. cbn [truthy].
    cbn [py_get lookup String.eqb Ascii.eqb Bool.eqb bind text_default
           number_default join_default].
    rewrite R, !py_join_strs. cbn [bind]. reflexivity.
  - pose proof (event_with_id_truthy _ s E) as Te.
    pose proof (id_of_getitem _ s E) as Ie.
    unfold save_event. rewrite (editing_event_unique s _ l1 l2 U E N).
    cbn [bind title]. rewrite strip_idem, T. cbn [negb].
    rewrite (payload_when_editing uuid _ (PStr s) _ Te Ie). cbn [bind].
    unfold when_editing. rewrite Te, Ie. cbn [bind events].
    rewrite (replace_by_id_unique s _ _ l1 l2 U E).
    cbn [title date_text start_date end_date era story characters_text
           categories_text notes sort_index].
    rewrite !strip_idem, !normalize_text_round_trip.
    assert (I : i = PStr s).
    { unfold id_of in E. cbn in E. destruct i; try discriminate.
      injection E as ->. reflexivity. }
    rewrite I. reflexivity.
Qed.

Lemma resave_changes_nothing_witness :
  exists f',
    (ed <- editing_event (mksession ([] ++ PDict alice_fields :: []) (PStr "u-1")) ;;
     prefilled ed) = Ok f'
    /\ save_event "u-4" f' (mksession ([] ++ PDict alice_fields :: []) (PStr "u-1"))
       = Ok (mksession ([] ++ PDict alice_fields :: []) PNone,
             Success "Event updated.").
Proof.
  apply (resave_changes_nothing "u-3" "u-4" "u-1"
           (Some (PDict [("id", PStr "u-1")])) form_of_alice alice_fields [] []).
  - vm_compute. reflexivity.
  - simpl. lia.
  - reflexivity.
  - split.
    + repeat constructor; discriminate.
    + simpl. repeat constructor; simpl; intuition discriminate.
  - reflexivity.
  - discriminate.
Defined.

(** ** The exported text *)

(** X18.  The content of the "Download JSON" button is plain ASCII for
    every store: the encoder escapes each character outside the range
    of printable ASCII, so encoding the text as UTF-8 changes nothing
    and the file holds no byte above 127 and no zero byte. *)
Theorem json_bytes_ascii :
  forall st : session, all_chars Json.plain_byte (json_bytes st) = true.
Proof. intros st. unfold json_bytes, Json.dumps. apply plain_encode. Qed.

(** ** Records written by the form *)

Lemma form_record_shaped (e : pyval) : form_record e -> event_shaped e.
Proof.
  intros (i & f & _ & ->). exists (entered f). apply view_payload.
Qed.

Lemma form_record_id (e : pyval) :
  form_record e -> exists i, py_getitem e "id" = Ok (PStr i).
Proof. intros (i & f & _ & ->). exists i. reflexivity. Qed.

Lemma form_records_have_id (l : list pyval) :
  Forall form_record l -> all_have_id l.
Proof.
  intros H. eapply Forall_impl; [| exact H]. intros e He.
  destruct (form_record_id e He) as [i Hi]. exists (PStr i). exact Hi.
Qed.

Lemma form_records_shaped (l : list pyval) :
  Forall form_record l -> Forall event_shaped l.
Proof.
  intros H. eapply Forall_impl; [| exact H]. apply form_record_shaped.
Qed.

Lemma form_records_filter (keep : pyval -> bool) (l : list pyval) :
  Forall form_record l -> Forall form_record (filter keep l).
Proof.
  intros H. apply Forall_forall. intros e He. apply filter_In in He.
  apply (proj1 (Forall_forall _ _) H), He.
Qed.

(** The widget defaults of a record the form wrote: the stored texts,
    the stored number, the two lists joined. *)
Lemma prefilled_written (i : pyval) (f : form) :
  -100000 <= sort_index f <= 100000 ->
  prefilled (Some (PDict (written i f)))
  = Ok (mkform (strip (title f)) (strip (story f)) (strip (era f))
          (strip (start_date f)) (strip (end_date f)) (sort_index f)
          (strip (date_text f))
          (join ", " (normalize_text (characters_text f)))
          (join ", " (normalize_text (categories_text f)))
          (strip (notes f))).
Proof.
  intros B.
  assert (R : (-100000 <=? sort_index f) && (sort_index f <=? 100000) = true).
  { apply andb_true_intro. split; apply Z.leb_le; lia. }
  unfold prefilled, when_editing, written. cbn [truthy].
  cbn [py_get lookup String.eqb Ascii.eqb Bool.eqb bind text_default
         number_default join_default].
  rewrite R, !py_join_strs. reflexivity.
Qed.

Lemma found_is_open (ed : option pyval) (e : pyval) :
  ed = Some e -> form_record e -> when_editing ed = Some e.
Proof.
  intros -> (i & f & _ & ->). reflexivity.
Qed.

Lemma save_event_form_records (uuid : string) (f : form) (st : session) :
  -100000 <= sort_index f <= 100000 ->
  Forall form_record (events st) ->
  exists r, save_event uuid f st = Ok r /\ Forall form_record (events (fst r)).
Proof.
  intros B H. pose proof (form_records_have_id _ H) as Hid.
  destruct (editing_event_total st Hid) as (ed & Eed & Hin).
  unfold save_event. rewrite Eed. cbn [bind].
  destruct (negb (nonempty (strip (title f)))).
  { eexists. split; [reflexivity | exact H]. }
  destruct ed as [e |].
  - pose proof (proj1 (Forall_forall _ _) H e (Hin e eq_refl)) as Fe.
    destruct (form_record_id e Fe) as [i Hi].
    assert (Te : truthy e = true)
      by (destruct Fe as (i0 & f0 & _ & ->); reflexivity).
    rewrite (payload_when_editing uuid e (PStr i) f Te Hi). cbn [bind].
    rewrite (found_is_open _ e eq_refl Fe), Hi. cbn [bind].
    destruct (replace_by_id_length (PStr i) (PDict (written (PStr i) f))
                (events st) Hid) as (evs & R & _).
    unfold written in R. rewrite R. cbn [bind].
    eexists. split; [reflexivity |]. cbn [fst events].
    unfold replace_by_id in R. eapply mapM_Forall; [| exact H | exact R].
    intros a b Fa Eb. simpl in Eb. apply bind_ok in Eb.
    destruct Eb as (j & _ & Eb). injection Eb as <-.
    destruct (py_eq j (PStr i)); [| exact Fa].
    exists i, f. split; [exact B | reflexivity].
  - rewrite payload_adding. cbn [bind when_editing].
    eexists. split; [reflexivity |]. cbn [fst events].
    apply Forall_app. split; [exact H |]. repeat constructor.
    exists uuid, f. split; [exact B | reflexivity].
Qed.

Lemma step_form_records (a : action) (st : session) :
  form_press a -> Forall form_record (events st) ->
  exists st', step a st = Ok st' /\ Forall form_record (events st').
Proof.
  intros P H. pose proof (form_records_have_id _ H) as Hid.
  destruct a as [uuid f | | | ev | ev | up]; cbn [step].
  - destruct (save_event_form_records uuid f st P H) as (r & -> & L).
    cbn [bind]. eexists. split; [reflexivity | exact L].
  - eexists. split; [reflexivity | exact H].
  - destruct (editing_event_total st Hid) as (ed & Eed & Hin).
    unfold delete_this_event. rewrite Eed. cbn [bind].
    destruct ed as [e |].
    + pose proof (proj1 (Forall_forall _ _) H e (Hin e eq_refl)) as Fe.
      destruct (form_record_id e Fe) as [i Hi].
      rewrite (found_is_open _ e eq_refl Fe), Hi. cbn [bind].
      rewrite (remove_by_id_filter _ _ Hid). cbn [bind].
      eexists. split; [reflexivity |]. apply form_records_filter, H.
    + cbn [when_editing]. eexists. split; [reflexivity | exact H].
  - destruct P as [i Hi]. unfold card_edit. rewrite Hi. cbn [bind].
    eexists. split; [reflexivity | exact H].
  - destruct P as [i Hi]. unfold card_delete. rewrite Hi. cbn [bind].
    rewrite (remove_by_id_filter _ _ Hid). cbn [bind].
    eexists. split; [reflexivity |]. apply form_records_filter, H.
  - destruct P.
Qed.

(** X19.  Records written by the form keep every embedded block of
    the script defined.  Start from a store that holds only records as
    "Save Event" writes them (the empty store, for one) and let any
    sequence of buttons be pressed, without an upload, the saves with a
    sort index the number widget can hold.  Then no handler raises and
    the store again holds only such records; and on the session that
    results, the export text decodes to the store, the lookup of the
    event being edited and the ten widget defaults are computed, the
    four option lists are computed, and for every choice of criteria so
    are the filtered and sorted list and its chart rows.  The table
    export of lines 126-128 and the card labels are not embedded and
    not covered. *)
Theorem form_records_keep_blocks_defined :
  forall (actions : list action) (st : session),
    Forall form_press actions ->
    Forall form_record (events st) ->
    exists st',
      run actions st = Ok st'
      /\ Forall form_record (events st')
      /\ Json.load (json_bytes st') = Ok (PList (events st'))
      /\ (exists defaults,
            (ed <- editing_event st' ;; prefilled ed) = Ok defaults)
      /\ (exists all_stories all_eras all_characters all_categories,
            field_options "story" (events st') = Ok all_stories
            /\ field_options "era" (events st') = Ok all_eras
            /\ item_options "characters" (events st') = Ok all_characters
            /\ item_options "categories" (events st') = Ok all_categories)
      /\ forall story_filter era_filter character_filter category_filter
                keyword : string,
           exists shown rows,
             current_sorted st' story_filter era_filter character_filter
               category_filter keyword = Ok shown
             /\ chart_rows shown = Ok rows.
Proof.
  intros actions st P H.
  assert (R : exists st', run actions st = Ok st'
                          /\ Forall form_record (events st')).
  { revert st H. induction P as [| a rest Pa _ IH]; intros st H.
    - exists st. split; [reflexivity | exact H].
    - destruct (step_form_records a st Pa H) as (st1 & S1 & H1).
      destruct (IH st1 H1) as (st' & R & H').
      exists st'. cbn [run]. rewrite S1. split; assumption. }
  destruct R as (st' & R & H'). exists st'. split; [exact R |].
  split; [exact H' |]. pose proof (form_records_shaped _ H') as Sh.
  split.
  { apply load_dumps. constructor. eapply Forall_impl; [| exact H'].
    intros e (i & f & _ & ->). unfold written. prove_wf; apply wf_strs. }
  split.
  { destruct (editing_event_total st' (form_records_have_id _ H'))
      as (ed & -> & Hin).
    cbn [bind]. destruct ed as [e |]; [| eexists; reflexivity].
    destruct (proj1 (Forall_forall _ _) H' e (Hin e eq_refl))
      as (i & f & B & ->).
    eexists. apply prefilled_written, B. }
  split.
  { destruct (shaped_views _ Sh) as [vs V]. do 4 eexists.
    split; [apply (field_options_views "story" v_story get_story_view _ _ V) |].
    split; [apply (field_options_views "era" v_era get_era_view _ _ V) |].
    split; [apply (item_options_views "characters" v_characters
                     get_characters_view _ _ V) |].
    apply (item_options_views "categories" v_categories
             get_categories_view _ _ V). }
  intros s e c g k. unfold current_sorted.
  rewrite (filtered_events_shaped _ s e c g k Sh). cbn [bind].
  set (cur := filter (event_passes spaced s e c g k) (events st')).
  assert (Hc : Forall event_shaped cur) by apply shaped_filter, Sh.
  destruct (sorted_events_shaped cur Hc) as (shown & -> & Pm & So & _).
  destruct (chart_rows_sorted shown (Permutation_Forall Pm Hc) So)
    as (rows & E & _).
  exists shown, rows. split; [reflexivity | exact E].
Qed.

Lemma form_records_keep_blocks_defined_witness :
  exists st',
    run delete_while_open empty_session = Ok st'
    /\ Forall form_record (events st')
    /\ Json.load (json_bytes st') = Ok (PList (events st'))
    /\ (exists defaults,
          (ed <- editing_event st' ;; prefilled ed) = Ok defaults)
    /\ (exists all_stories all_eras all_characters all_categories,
          field_options "story" (events st') = Ok all_stories
          /\ field_options "era" (events st') = Ok all_eras
          /\ item_options "characters" (events st') = Ok all_characters
          /\ item_options "categories" (events st') = Ok all_categories)
    /\ forall story_filter era_filter character_filter category_filter
              keyword : string,
         exists shown rows,
           current_sorted st' story_filter era_filter character_filter
             category_filter keyword = Ok shown
           /\ chart_rows shown = Ok rows.
Proof.
  apply (form_records_keep_blocks_defined delete_while_open empty_session).
  - repeat constructor; simpl; try lia; eexists; reflexivity.
  - constructor.
Defined.

(** ** Tag fields that hold a text *)

(** X20.  An event whose characters or categories field holds a
    comma-separated text instead of a list, as an uploaded file may
    have it: the filter and the chart loop read the field through
    [ensure_list], so for every choice of criteria they answer as for
    the same event with the field replaced by the normalized list of
    the text. *)
Theorem text_tags_read_as_lists :
  forall (d : list (string * pyval)) (field s : string)
         (story era character category keyword : string),
    field = "characters" \/ field = "categories" ->
    lookup field d = Some (PStr s) ->
    match_event story era character category keyword (PDict d)
    = match_event story era character category keyword
        (PDict (dict_set field (PList (map PStr (normalize_text s))) d))
    /\ chart_row_of (PDict d)
       = chart_row_of
           (PDict (dict_set field (PList (map PStr (normalize_text s))) d)).
Proof.
  intros d field s st er ch ca kw F L.
  pose proof (ensure_list_str s) as En.
  destruct F as [-> | ->];
    unfold match_event, chart_row_of; unfold blob;
    unfold lowered_items, joined_items; unfold py_get;
    rewrite !lookup_dict_set, L;
    cbn [String.eqb Ascii.eqb Bool.eqb]; cbn [bind];
    rewrite !En; split; reflexivity.
Qed.

Lemma text_tags_read_as_lists_witness :
  match_event "" "" "ALICE" "" "" (PDict text_tag_fields)
  = match_event "" "" "ALICE" "" ""
      (PDict (dict_set "characters"
                (PList (map PStr (normalize_text "Bob, alice , BOB")))
                text_tag_fields))
  /\ chart_row_of (PDict text_tag_fields)
     = chart_row_of
         (PDict (dict_set "characters"
                   (PList (map PStr (normalize_text "Bob, alice , BOB")))
                   text_tag_fields)).
Proof.
  apply (text_tags_read_as_lists text_tag_fields "characters"
           "Bob, alice , BOB" "" "" "ALICE" "" "").
  - left. reflexivity.
  - reflexivity.
Defined.
